(** * A shallow embedding of the PBF input path of libosmium

    The development follows [include/osmium/io/detail/pbf_input_format.hpp],
    [include/osmium/osm/object.hpp],
    [include/osmium/io/detail/string_util.hpp] and
    [include/osmium/geom/factory.hpp].

    Fixed-width C++ integers are integers of [Z] with the reduction to the
    width written at every operation that can leave it.  Code that throws
    returns an [outcome]. *)

From Stdlib Require Import ZArith List String Ascii Bool Lia DecimalString.
Import ListNotations.
Local Open Scope Z_scope.

(** ** Fixed-width integers *)

Module Int.

(** Conversion to an unsigned type of [w] bits. *)
Definition to_unsigned (w x : Z) : Z := x mod 2 ^ w.

(** Conversion to a signed two's complement type of [w] bits. *)
Definition to_signed (w x : Z) : Z := (x + 2 ^ (w - 1)) mod 2 ^ w - 2 ^ (w - 1).

Definition to_uint8 : Z -> Z := to_unsigned 8.
Definition to_uint32 : Z -> Z := to_unsigned 32.
Definition to_uint64 : Z -> Z := to_unsigned 64.
Definition to_int32 : Z -> Z := to_signed 32.
Definition to_int64 : Z -> Z := to_signed 64.

Definition int32_min : Z := - 2 ^ 31.
Definition int32_max : Z := 2 ^ 31 - 1.
Definition int64_min : Z := - 2 ^ 63.
Definition int64_max : Z := 2 ^ 63 - 1.

Definition in_int32 (x : Z) : Prop := int32_min <= x <= int32_max.
Definition in_int64 (x : Z) : Prop := int64_min <= x <= int64_max.

End Int.

(** ** Outcomes of a call

    [Throw] is a C++ exception with its [what()].  [Abort] is where the
    program does not go on: a failed [assert], or an access outside an
    array or a repeated field (protobuf checks the index in debug builds;
    without the check the behaviour is undefined).  [Blocked] is a
    [wait_and_pop] on a queue that nobody fills. *)

Inductive outcome (A : Type) : Type :=
| Ret (a : A)
| Throw (what : string)
| Abort (what : string)
| Blocked.

Arguments Ret {A} a.
Arguments Throw {A} what.
Arguments Abort {A} what.
Arguments Blocked {A}.

Definition bind {A B : Type} (m : outcome A) (k : A -> outcome B) : outcome B :=
  match m with
  | Ret a => k a
  | Throw w => Throw w
  | Abort w => Abort w
  | Blocked => Blocked
  end.

Notation "x <- m ;; k" := (bind m (fun x => k))
  (at level 61, m at next level, right associativity).
Notation "' p <- m ;; k" := (bind m (fun x => match x with p => k end))
  (at level 61, p pattern, m at next level, right associativity).

(** [assert(c)] of <cassert>: when [NDEBUG] is defined the macro expands
    to nothing and [c] is not evaluated. *)
Definition assert (ndebug c : bool) (what : string) : outcome unit :=
  if ndebug then Ret tt
  else if c then Ret tt else Abort what.

(** Checked element access of a protobuf repeated field ([Get(index)]). *)
Definition get {A : Type} (l : list A) (i : Z) : outcome A :=
  if i <? 0 then Abort "index out of range"
  else match nth_error l (Z.to_nat i) with
       | Some a => Ret a
       | None => Abort "index out of range"
       end.

Definition size {A : Type} (l : list A) : Z := Z.of_nat (List.length l).

(** ** string_util.hpp: UTF-8 *)

Module StringUtil.

(** A [char] buffer is a list of byte values. *)
Definition bytes := list Z.

Definition utf8_sequence_length (first : Z) : Z :=
  if first <? 0x80 then 1
  else if Z.shiftr first 5 =? 0x6 then 2
  else if Z.shiftr first 4 =? 0xe then 3
  else if Z.shiftr first 3 =? 0x1e then 4
  else 0.

(** [next_utf8_codepoint s] reads one code point at the front of [s], the
    bytes from [*begin] up to [end]; it returns the code point and the
    bytes from the new [*begin] on. *)
Definition next_utf8_codepoint (s : bytes) : outcome (Z * bytes) :=
  match s with
  | [] => Abort "read at end"
  | b0 :: s1 =>
    let cp := Z.land 0xff b0 in
    let length := utf8_sequence_length cp in
    if length =? 0 then Throw "invalid Unicode codepoint"
    else if size s <? length then Throw "incomplete Unicode codepoint"
    else if length =? 1 then Ret (cp, s1)
    else if length =? 2 then
      match s1 with
      | b1 :: s2 =>
        let cp := Int.to_uint32
                    (Z.land (Int.to_uint32 (Z.shiftl cp 6)) 0x7ff + Z.land b1 0x3f) in
        Ret (cp, s2)
      | _ => Abort "read at end"
      end
    else if length =? 3 then
      match s1 with
      | b1 :: b2 :: s3 =>
        let cp := Int.to_uint32
                    (Z.land (Int.to_uint32 (Z.shiftl cp 12)) 0xffff
                     + Z.land (Int.to_uint32 (Z.shiftl (Z.land 0xff b1) 6)) 0xfff) in
        let cp := Int.to_uint32 (cp + Z.land b2 0x3f) in
        Ret (cp, s3)
      | _ => Abort "read at end"
      end
    else
      match s1 with
      | b1 :: b2 :: b3 :: s4 =>
        let cp := Int.to_uint32
                    (Z.land (Int.to_uint32 (Z.shiftl cp 18)) 0x1fffff
                     + Z.land (Int.to_uint32 (Z.shiftl (Z.land 0xff b1) 12)) 0x3ffff) in
        let cp := Int.to_uint32
                    (cp + Z.land (Int.to_uint32 (Z.shiftl (Z.land 0xff b2) 6)) 0xfff) in
        let cp := Int.to_uint32 (cp + Z.land b3 0x3f) in
        Ret (cp, s4)
      | _ => Abort "read at end"
      end
  end.

(** [static_cast<char>]: the byte that is stored. *)
Definition to_char (x : Z) : Z := Int.to_uint8 x.

(** [append_codepoint_as_utf8 cp out]: [out] is what the output iterator
    has written so far. *)
Definition append_codepoint_as_utf8 (cp : Z) (out : bytes) : bytes :=
  if cp <? 0x80 then
    out ++ [to_char cp]
  else if cp <? 0x800 then
    out ++ [to_char (Z.lor (Z.shiftr cp 6) 0xc0);
            to_char (Z.lor (Z.land cp 0x3f) 0x80)]
  else if cp <? 0x10000 then
    out ++ [to_char (Z.lor (Z.shiftr cp 12) 0xe0);
            to_char (Z.lor (Z.land (Z.shiftr cp 6) 0x3f) 0x80);
            to_char (Z.lor (Z.land cp 0x3f) 0x80)]
  else
    out ++ [to_char (Z.lor (Z.shiftr cp 18) 0xf0);
            to_char (Z.lor (Z.land (Z.shiftr cp 12) 0x3f) 0x80);
            to_char (Z.lor (Z.land (Z.shiftr cp 6) 0x3f) 0x80);
            to_char (Z.lor (Z.land cp 0x3f) 0x80)].

(** *** UTF-8 as the standard defines it

    A shortest-form sequence: a lead byte, the continuation bytes it
    announces, and no encoding of a code point that a shorter sequence
    encodes.  (Surrogates and code points above U+10FFFF are not
    excluded: the statements below hold for them too.) *)

Definition is_continuation (b : Z) : bool := (0x80 <=? b) && (b <=? 0xbf).

Definition shortest_form (bs : bytes) : bool :=
  match bs with
  | [b0] => (0 <=? b0) && (b0 <? 0x80)
  | [b0; b1] =>
    (0xc2 <=? b0) && (b0 <=? 0xdf) && is_continuation b1
  | [b0; b1; b2] =>
    (0xe0 <=? b0) && (b0 <=? 0xef) && is_continuation b1 && is_continuation b2
    && negb ((b0 =? 0xe0) && (b1 <? 0xa0))
  | [b0; b1; b2; b3] =>
    (0xf0 <=? b0) && (b0 <=? 0xf7) && is_continuation b1 && is_continuation b2
    && is_continuation b3 && negb ((b0 =? 0xf0) && (b1 <? 0x90))
  | _ => false
  end.

(** The code point a sequence encodes: its payload bits, most significant
    first. *)
Definition encoded_codepoint (bs : bytes) : Z :=
  match bs with
  | [b0] => b0
  | [b0; b1] => (b0 - 0xc0) * 64 + (b1 - 0x80)
  | [b0; b1; b2] => (b0 - 0xe0) * 4096 + (b1 - 0x80) * 64 + (b2 - 0x80)
  | [b0; b1; b2; b3] =>
    (b0 - 0xf0) * 262144 + (b1 - 0x80) * 4096 + (b2 - 0x80) * 64 + (b3 - 0x80)
  | _ => 0
  end.

(** *** Hexadecimal digits and the escaping of strings *)

(** [hex_digits[i]], [hex_digits] being a table of sixteen characters. *)
Definition digit (hex_digits : bytes) (i : Z) : Z := nth (Z.to_nat i) hex_digits 0.

(** The bytes of a string literal. *)
Definition literal (s : string) : bytes :=
  map (fun c => Z.of_N (N_of_ascii c)) (list_ascii_of_string s).

(** ["0123456789abcdef"] and ["0123456789ABCDEF"]. *)
Definition lookup_hex_lower : bytes := literal "0123456789abcdef".
Definition lookup_hex_upper : bytes := literal "0123456789ABCDEF".

(** Write out the value with exactly two hex digits. *)
Definition append_2_hex_digits (out : bytes) (value : Z) (hex_digits : bytes) : bytes :=
  let out := out ++ [digit hex_digits (Z.land (Z.shiftr value 4) 0xf)] in
  out ++ [digit hex_digits (Z.land value 0xf)].

(** Write out the value with four or more hex digits. *)
Definition append_min_4_hex_digits (out : bytes) (value : Z) (hex_digits : bytes) : bytes :=
  let v := Z.land value 0xf0000000 in
  let out := if v =? 0 then out else out ++ [digit hex_digits (Z.shiftr v 28)] in
  let v := Z.land value 0x0f000000 in
  let out := if v =? 0 then out else out ++ [digit hex_digits (Z.shiftr v 24)] in
  let v := Z.land value 0x00f00000 in
  let out := if v =? 0 then out else out ++ [digit hex_digits (Z.shiftr v 20)] in
  let v := Z.land value 0x000f0000 in
  let out := if v =? 0 then out else out ++ [digit hex_digits (Z.shiftr v 16)] in
  let out := out ++ [digit hex_digits (Z.land (Z.shiftr value 12) 0xf)] in
  let out := out ++ [digit hex_digits (Z.land (Z.shiftr value 8) 0xf)] in
  let out := out ++ [digit hex_digits (Z.land (Z.shiftr value 4) 0xf)] in
  out ++ [digit hex_digits (Z.land value 0xf)].

(** The characters of a C string in memory: the bytes before the first
    NUL. *)
Fixpoint c_bytes (data : bytes) : bytes :=
  match data with
  | [] => []
  | c :: data' => if c =? 0 then [] else c :: c_bytes data'
  end.

(** The loop that [append_utf8_encoded_string] and
    [append_debug_encoded_string] share: [data] is what is left up to
    [end_ptr], [plain] the test for the code points that are let through,
    [escape] what is appended for another code point.  Every iteration
    consumes a byte at least; [None] is a loop cut short by [fuel]. *)
Fixpoint encoded_loop (plain : Z -> bool) (escape : bytes -> Z -> bytes)
         (fuel : nat) (out data : bytes) : option (outcome bytes) :=
  match data with
  | [] => Some (Ret out)
  | _ :: _ =>
    match fuel with
    | O => None
    | S fuel' =>
      match next_utf8_codepoint data with
      | Ret (c, rest) =>
        let prev_to_data := firstn (List.length data - List.length rest) data in
        if plain c then encoded_loop plain escape fuel' (out ++ prev_to_data) rest
        else encoded_loop plain escape fuel' (escape out c) rest
      | Throw what => Some (Throw what)
      | Abort what => Some (Abort what)
      | Blocked => Some Blocked
      end
    end
  end.

(** The code points that the OPL format lets through. *)
Definition opl_plain (c : Z) : bool :=
  ((0x0021 <=? c) && (c <=? 0x0024))
  || ((0x0026 <=? c) && (c <=? 0x002b))
  || ((0x002d <=? c) && (c <=? 0x003c))
  || ((0x003e <=? c) && (c <=? 0x003f))
  || ((0x0041 <=? c) && (c <=? 0x007e))
  || ((0x00a1 <=? c) && (c <=? 0x00ac))
  || ((0x00ae <=? c) && (c <=? 0x05ff)).

Definition opl_escape (out : bytes) (c : Z) : bytes :=
  let out := out ++ [0x25] in
  let out := if c <=? 0xff then append_2_hex_digits out c lookup_hex_lower
             else append_min_4_hex_digits out c lookup_hex_lower in
  out ++ [0x25].

(** [append_utf8_encoded_string(out, data)]; the end pointer is
    [data + strlen(data)]. *)
Definition append_utf8_encoded_string (out data : bytes) : option (outcome bytes) :=
  let data := c_bytes data in
  encoded_loop opl_plain opl_escape (List.length data) out data.

(** The code points that the debug format lets through. *)
Definition debug_plain (c : Z) : bool :=
  ((0x0020 <=? c) && (c <=? 0x0021))
  || ((0x0023 <=? c) && (c <=? 0x003b))
  || (0x003d =? c)
  || ((0x003f <=? c) && (c <=? 0x007e))
  || ((0x00a1 <=? c) && (c <=? 0x00ac))
  || ((0x00ae <=? c) && (c <=? 0x05ff)).

Definition debug_escape (prefix suffix : bytes) (out : bytes) (c : Z) : bytes :=
  let out := out ++ prefix in
  let out := out ++ literal "<U+" in
  let out := append_min_4_hex_digits out c lookup_hex_upper in
  let out := out ++ literal ">" in
  out ++ suffix.

(** [append_debug_encoded_string(out, data, prefix, suffix)]. *)
Definition append_debug_encoded_string (out data prefix suffix : bytes)
  : option (outcome bytes) :=
  let data := c_bytes data in
  let prefix := c_bytes prefix in
  let suffix := c_bytes suffix in
  encoded_loop debug_plain (debug_escape prefix suffix) (List.length data) out data.

(** [append_xml_encoded_string(out, data)]: the loop runs up to the NUL. *)
Fixpoint append_xml_encoded_string (out data : bytes) : bytes :=
  match data with
  | [] => out
  | c :: data' =>
    if c =? 0 then out
    else
      let out :=
        if c =? 0x26 then out ++ literal "&amp;"
        else if c =? 0x22 then out ++ literal "&quot;"
        else if c =? 0x27 then out ++ literal "&apos;"
        else if c =? 0x3c then out ++ literal "&lt;"
        else if c =? 0x3e then out ++ literal "&gt;"
        else if c =? 0x0a then out ++ literal "&#xA;"
        else if c =? 0x0d then out ++ literal "&#xD;"
        else if c =? 0x09 then out ++ literal "&#x9;"
        else out ++ [c] in
      append_xml_encoded_string out data'
  end.

End StringUtil.

(** ** Strings *)

(** What a callee sees of [s.data()] or [s.c_str()] through a [const char*]:
    the characters before the first NUL. *)
Fixpoint c_str (s : string) : string :=
  match s with
  | EmptyString => EmptyString
  | String c s' => if Ascii.eqb c Ascii.zero then EmptyString else String c (c_str s')
  end.

Definition byte_value (c : ascii) : Z := Z.of_N (N_of_ascii c).

(** [operator<<] of an [int] and [std::to_string]. *)
Definition to_string (z : Z) : string := NilZero.string_of_int (Z.to_int z).

(** ** The decoded protobuf messages

    The message classes are generated from the OSM-binary schema; a message
    is the record of the fields the code reads, a repeated field a list, an
    optional field whose [has_] accessor the code calls an [option]. *)

Module OSMPBF.

(** Modelled from the spec: the constants [OSMPBF::max_blob_header_size],
    [OSMPBF::max_uncompressed_blob_size] and [OSMPBF::lonlat_resolution]
    are declared in a header that is not part of the sources; the spec
    gives 32 KiB, 32 MiB and 10^9. *)
Definition max_blob_header_size : Z := 32 * 1024.
Definition max_uncompressed_blob_size : Z := 32 * 1024 * 1024.
Definition lonlat_resolution : Z := 1000 * 1000 * 1000.

Record BlobHeader := {
  type : string;
  datasize : Z
}.

Record Blob := {
  raw : option string;
  raw_size : Z;
  zlib_data : option string;
  lzma_data : option string
}.

Record HeaderBBox := {
  bbox_left : Z;
  bbox_right : Z;
  bbox_top : Z;
  bbox_bottom : Z
}.

Record HeaderBlock := {
  bbox : option HeaderBBox;
  required_features : list string;
  optional_features : list string;
  writingprogram : option string;
  osmosis_replication_timestamp : option Z;
  osmosis_replication_sequence_number : option Z;
  osmosis_replication_base_url : option string
}.

Record Info := {
  info_version : Z;
  info_timestamp : Z;
  info_changeset : Z;
  info_uid : Z;
  info_user_sid : Z;
  info_visible : option bool
}.

Record Node := {
  node_id : Z;
  node_keys : list Z;
  node_vals : list Z;
  node_info : option Info;
  node_lat : Z;
  node_lon : Z
}.

Record DenseInfo := {
  di_version : list Z;
  di_timestamp : list Z;
  di_changeset : list Z;
  di_uid : list Z;
  di_user_sid : list Z;
  di_visible : list bool
}.

Record DenseNodes := {
  dense_id : list Z;
  dense_denseinfo : option DenseInfo;
  dense_lat : list Z;
  dense_lon : list Z;
  dense_keys_vals : list Z
}.

Record Way := {
  way_id : Z;
  way_keys : list Z;
  way_vals : list Z;
  way_info : option Info;
  way_refs : list Z
}.

Inductive MemberType := NODE | WAY | RELATION.

Record Relation := {
  rel_id : Z;
  rel_keys : list Z;
  rel_vals : list Z;
  rel_info : option Info;
  rel_roles_sid : list Z;
  rel_memids : list Z;
  rel_types : list MemberType
}.

Record PrimitiveGroup := {
  nodes : list Node;
  dense : option DenseNodes;
  ways : list Way;
  relations : list Relation
}.

Record PrimitiveBlock := {
  stringtable : list string;
  primitivegroup : list PrimitiveGroup;
  granularity : Z;
  date_granularity : Z;
  lat_offset : Z;
  lon_offset : Z
}.

End OSMPBF.

(** ** What the program does not define itself

    The protobuf decoders ([ParseFromArray] of each message class), zlib's
    inflation and the ISO rendering of a timestamp.

    How the program is built: [NDEBUG] tells whether the macro of that
    name is defined where the header is compiled.

    What the other threads do while the thread that reads the data blobs
    runs.  That thread looks at them once for every blob, in the two loops
    that wait and the test of [m_done] after them; [n] is the number of
    the blob.  [destroyed n] tells whether the destructor has set [m_done]
    by then; [pool_drains n] whether the work queue of the thread pool
    gets below its bound while the thread waits for it; [consumed n] how
    many futures [read()] has taken from the queue of futures since the
    thread last looked, by the time it stops waiting. *)

Record Externals := {
  parse_BlobHeader : string -> option OSMPBF.BlobHeader;
  parse_Blob : string -> option OSMPBF.Blob;
  parse_HeaderBlock : string -> option OSMPBF.HeaderBlock;
  parse_PrimitiveBlock : string -> option OSMPBF.PrimitiveBlock;
  inflate : string -> option string;
  to_iso : Z -> string;
  NDEBUG : bool;
  destroyed : Z -> bool;
  pool_drains : Z -> bool;
  consumed : Z -> nat
}.

(** ** osm/object.hpp and the entities of a buffer *)

Module Location.

(** Modelled from the spec: [osmium::Location] is declared in
    osm/location.hpp, which is not part of the sources: a pair of 32-bit
    signed integers in units of 10^-7 degrees. *)
Record t := { x : Z; y : Z }.

Definition coordinate_precision : Z := 10000000.

(** The constructor from two 64-bit integers. *)
Definition make (x y : Z) : t := {| x := Int.to_int32 x; y := Int.to_int32 y |}.

End Location.

(** Modelled from the spec: the integer types of the members of
    [osmium::Object] are declared in osm/types.hpp, which is not part of
    the sources.  The spec: [id] 64-bit signed, [version] 31-bit unsigned,
    [timestamp] seconds in 64 bits signed, [uid] 32-bit unsigned,
    [changeset] 32-bit (taken as unsigned). *)
Module Object.

Record t := {
  m_id : Z;
  m_deleted : bool;
  m_version : Z;
  m_timestamp : Z;
  m_uid : Z;
  m_changeset : Z;
  user : string;
  tags : list (string * string)
}.

(** The constructor; no user and no tags have been added yet. *)
Definition init : t :=
  {| m_id := 0; m_deleted := false; m_version := 0; m_timestamp := 0;
     m_uid := 0; m_changeset := 0; user := EmptyString; tags := [] |}.

Definition id (v : Z) (o : t) : t :=
  {| m_id := Int.to_int64 v; m_deleted := m_deleted o; m_version := m_version o;
     m_timestamp := m_timestamp o; m_uid := m_uid o; m_changeset := m_changeset o;
     user := user o; tags := tags o |}.

Definition deleted (o : t) : bool := m_deleted o.

Definition visible (o : t) : bool := negb (deleted o).

Definition set_visible (v : bool) (o : t) : t :=
  {| m_id := m_id o; m_deleted := negb v; m_version := m_version o;
     m_timestamp := m_timestamp o; m_uid := m_uid o; m_changeset := m_changeset o;
     user := user o; tags := tags o |}.

(** [m_version] is a bit-field of 31 bits of an unsigned 32-bit type. *)
Definition version (v : Z) (o : t) : t :=
  {| m_id := m_id o; m_deleted := m_deleted o;
     m_version := Int.to_unsigned 31 (Int.to_uint32 v);
     m_timestamp := m_timestamp o; m_uid := m_uid o; m_changeset := m_changeset o;
     user := user o; tags := tags o |}.

(** The changeset id is a 32-bit value. *)
Definition changeset (v : Z) (o : t) : t :=
  {| m_id := m_id o; m_deleted := m_deleted o; m_version := m_version o;
     m_timestamp := m_timestamp o; m_uid := m_uid o; m_changeset := Int.to_uint32 v;
     user := user o; tags := tags o |}.

(** The timestamp holds seconds in a signed 64-bit integer. *)
Definition timestamp (v : Z) (o : t) : t :=
  {| m_id := m_id o; m_deleted := m_deleted o; m_version := m_version o;
     m_timestamp := Int.to_int64 v; m_uid := m_uid o; m_changeset := m_changeset o;
     user := user o; tags := tags o |}.

(** [uid_from_signed(int32_t uid)]: the argument is converted to the
    parameter's type; the value stored is below 2^31 and so the same in
    a signed and in an unsigned 32-bit [m_uid]. *)
Definition uid_from_signed (v : Z) (o : t) : t :=
  let uid := Int.to_int32 v in
  {| m_id := m_id o; m_deleted := m_deleted o; m_version := m_version o;
     m_timestamp := m_timestamp o; m_uid := if uid <? 0 then 0 else uid;
     m_changeset := m_changeset o; user := user o; tags := tags o |}.

Definition uid (o : t) : Z := m_uid o.

Definition user_is_anonymous (o : t) : bool := m_uid o =? 0.

(** [add_user] of the object builder, called with a pointer to characters. *)
Definition add_user (u : string) (o : t) : t :=
  {| m_id := m_id o; m_deleted := m_deleted o; m_version := m_version o;
     m_timestamp := m_timestamp o; m_uid := m_uid o; m_changeset := m_changeset o;
     user := c_str u; tags := tags o |}.

(** A [TagListBuilder] that has added [l]. *)
Definition add_tags (l : list (string * string)) (o : t) : t :=
  {| m_id := m_id o; m_deleted := m_deleted o; m_version := m_version o;
     m_timestamp := m_timestamp o; m_uid := m_uid o; m_changeset := m_changeset o;
     user := user o; tags := tags o ++ l |}.

End Object.

Inductive item_type := item_node | item_way | item_relation.

(** An item of a buffer.  The location of a node is [None] while it is the
    undefined location of the default constructor. *)
Inductive Entity :=
| NodeItem (o : Object.t) (location : option Location.t)
| WayItem (o : Object.t) (way_nodes : list Z)
| RelationItem (o : Object.t) (members : list (item_type * Z * string)).

Definition object_of (e : Entity) : Object.t :=
  match e with
  | NodeItem o _ => o
  | WayItem o _ => o
  | RelationItem o _ => o
  end.

Definition Buffer := list Entity.

(** The entity kinds to read. *)
Record flags := { read_node : bool; read_way : bool; read_relation : bool }.

Definition nothing : flags :=
  {| read_node := false; read_way := false; read_relation := false |}.

Definition is_nothing (f : flags) : bool :=
  negb (read_node f) && negb (read_way f) && negb (read_relation f).

(** ** pbf_input_format.hpp: PBFPrimitiveBlockParser *)

Module PBFPrimitiveBlockParser.
Import OSMPBF.

Record t := {
  m_stringtable : list string;
  m_lon_offset : Z;
  m_lat_offset : Z;
  m_date_factor : Z;
  m_granularity : Z;
  m_read_types : flags;
  m_buffer : Buffer
}.

Definition with_buffer (p : t) (b : Buffer) : t :=
  {| m_stringtable := m_stringtable p; m_lon_offset := m_lon_offset p;
     m_lat_offset := m_lat_offset p; m_date_factor := m_date_factor p;
     m_granularity := m_granularity p; m_read_types := m_read_types p;
     m_buffer := b |}.

(** [m_stringtable->s(index)]; the index is an [int]. *)
Definition s (p : t) (index : Z) : outcome string :=
  get (m_stringtable p) (Int.to_int32 index).

(** [(raw * m_granularity + offset) / (lonlat_resolution / coordinate_precision)]
    in 64-bit signed arithmetic; the division truncates. *)
Definition coordinate (p : t) (raw offset : Z) : Z :=
  Z.quot (Int.to_int64 (Int.to_int64 (raw * m_granularity p) + offset))
         (Z.quot lonlat_resolution Location.coordinate_precision).

Definition location (p : t) (lon lat : Z) : Location.t :=
  Location.make (coordinate p lon (m_lon_offset p)) (coordinate p lat (m_lat_offset p)).

(** The chain [version(..).changeset(..).timestamp(..).uid_from_signed(..)]
    of the three plain decoders. *)
Definition set_info (p : t) (info : Info) (o : Object.t) : Object.t :=
  Object.uid_from_signed (info_uid info)
    (Object.timestamp (Int.to_int64 (info_timestamp info * m_date_factor p))
       (Object.changeset (info_changeset info)
          (Object.version (info_version info) o))).

(** The loop over [keys_size()] that fills a [TagListBuilder]. *)
Fixpoint tag_loop (p : t) (keys vals : list Z) (tag : Z)
  : outcome (list (string * string)) :=
  match keys with
  | [] => Ret []
  | k :: keys' =>
    key <- s p k ;;
    v <- get vals tag ;;
    val <- s p v ;;
    rest <- tag_loop p keys' vals (tag + 1) ;;
    Ret ((c_str key, c_str val) :: rest)
  end.

Definition add_tag_list (p : t) (keys vals : list Z) (o : Object.t) : outcome Object.t :=
  if 0 <? size keys then
    l <- tag_loop p keys vals 0 ;;
    Ret (Object.add_tags l o)
  else Ret o.

(** *** parse_node_group *)

Definition parse_node (p : t) (pbf_node : Node) : outcome Entity :=
  let node := Object.set_visible true (Object.id (node_id pbf_node) Object.init) in
  node <- match node_info pbf_node with
          | Some info =>
            let node := set_info p info node in
            let node := match info_visible info with
                        | Some v => Object.set_visible v node
                        | None => node
                        end in
            u <- s p (info_user_sid info) ;;
            Ret (Object.add_user u node)
          | None => Ret (Object.add_user EmptyString node)
          end ;;
  let loc := if Object.visible node
             then Some (location p (node_lon pbf_node) (node_lat pbf_node))
             else None in
  node <- add_tag_list p (node_keys pbf_node) (node_vals pbf_node) node ;;
  Ret (NodeItem node loc).

Fixpoint parse_node_loop (p : t) (l : list Node) (buffer : Buffer) : outcome Buffer :=
  match l with
  | [] => Ret buffer
  | pbf_node :: l' =>
    e <- parse_node p pbf_node ;;
    parse_node_loop p l' (buffer ++ [e])
  end.

Definition parse_node_group (p : t) (group : PrimitiveGroup) : outcome Buffer :=
  parse_node_loop p (nodes group) (m_buffer p).

(** *** parse_way_group *)

(** The loop over [refs_size()]; [ref] is a [uint64_t], [add_way_node]
    takes an object id, a signed 64-bit integer. *)
Fixpoint way_node_loop (refs : list Z) (ref : Z) : list Z :=
  match refs with
  | [] => []
  | r :: refs' =>
    let ref := Int.to_uint64 (ref + Int.to_uint64 r) in
    Int.to_int64 ref :: way_node_loop refs' ref
  end.

Definition parse_way (p : t) (pbf_way : Way) : outcome Entity :=
  let way := Object.id (way_id pbf_way) Object.init in
  way <- match way_info pbf_way with
         | Some info =>
           let way := set_info p info way in
           let way := match info_visible info with
                      | Some v => Object.set_visible v way
                      | None => Object.set_visible true way
                      end in
           u <- s p (info_user_sid info) ;;
           Ret (Object.add_user u way)
         | None => Ret (Object.add_user EmptyString way)
         end ;;
  let wnl := way_node_loop (way_refs pbf_way) 0 in
  way <- add_tag_list p (way_keys pbf_way) (way_vals pbf_way) way ;;
  Ret (WayItem way wnl).

Fixpoint parse_way_loop (p : t) (l : list Way) (buffer : Buffer) : outcome Buffer :=
  match l with
  | [] => Ret buffer
  | pbf_way :: l' =>
    e <- parse_way p pbf_way ;;
    parse_way_loop p l' (buffer ++ [e])
  end.

Definition parse_way_group (p : t) (group : PrimitiveGroup) : outcome Buffer :=
  parse_way_loop p (ways group) (m_buffer p).

(** *** parse_relation_group *)

(** Modelled from the spec: [osmpbf_membertype_to_item_type] is declared
    in a header that is not part of the sources; 0 is a node, 1 a way,
    2 a relation. *)
Definition osmpbf_membertype_to_item_type (mt : MemberType) : item_type :=
  match mt with
  | NODE => item_node
  | WAY => item_way
  | RELATION => item_relation
  end.

(** The loop over [types_size()]; [ref] is a [uint64_t]. *)
Fixpoint member_loop (p : t) (types : list MemberType) (memids roles_sid : list Z)
         (i : Z) (ref : Z) : outcome (list (item_type * Z * string)) :=
  match types with
  | [] => Ret []
  | mt :: types' =>
    memid <- get memids i ;;
    let ref := Int.to_uint64 (ref + Int.to_uint64 memid) in
    sid <- get roles_sid i ;;
    role <- s p sid ;;
    rest <- member_loop p types' memids roles_sid (i + 1) ref ;;
    Ret ((osmpbf_membertype_to_item_type mt, Int.to_int64 ref, c_str role) :: rest)
  end.

Definition parse_relation (p : t) (pbf_relation : Relation) : outcome Entity :=
  let relation := Object.id (rel_id pbf_relation) Object.init in
  relation <- match rel_info pbf_relation with
              | Some info =>
                let relation := set_info p info relation in
                let relation := match info_visible info with
                                | Some v => Object.set_visible v relation
                                | None => Object.set_visible true relation
                                end in
                u <- s p (info_user_sid info) ;;
                Ret (Object.add_user u relation)
              | None => Ret (Object.add_user EmptyString relation)
              end ;;
  rml <- member_loop p (rel_types pbf_relation) (rel_memids pbf_relation)
                     (rel_roles_sid pbf_relation) 0 0 ;;
  relation <- add_tag_list p (rel_keys pbf_relation) (rel_vals pbf_relation) relation ;;
  Ret (RelationItem relation rml).

Fixpoint parse_relation_loop (p : t) (l : list Relation) (buffer : Buffer)
  : outcome Buffer :=
  match l with
  | [] => Ret buffer
  | pbf_relation :: l' =>
    e <- parse_relation p pbf_relation ;;
    parse_relation_loop p l' (buffer ++ [e])
  end.

Definition parse_relation_group (p : t) (group : PrimitiveGroup) : outcome Buffer :=
  parse_relation_loop p (relations group) (m_buffer p).

(** *** add_tags and parse_dense_node_group *)

(** The [while] loop of [add_tags]: [rest] is [keys_vals] from index [n]
    on, [l] what the [TagListBuilder] holds. *)
Fixpoint add_tags_loop (p : t) (rest : list Z) (n : Z) (l : list (string * string))
  : outcome (list (string * string) * Z) :=
  match rest with
  | [] => Ret (l, n)
  | tag_key_pos :: rest1 =>
    if tag_key_pos =? 0 then Ret (l, n + 1)
    else
      key <- s p tag_key_pos ;;
      match rest1 with
      | [] => Abort "index out of range"
      | v :: rest2 =>
        val <- s p v ;;
        add_tags_loop p rest2 (n + 2) (l ++ [(c_str key, c_str val)])
      end
  end.

(** [add_tags(dense, n, builder)]: the tags added to the node and the
    new position in [keys_vals]. *)
Definition add_tags (p : t) (dense : DenseNodes) (n : Z)
  : outcome (list (string * string) * Z) :=
  if size (dense_keys_vals dense) <=? n then Ret ([], n)
  else
    kv <- get (dense_keys_vals dense) n ;;
    if kv =? 0 then Ret ([], n + 1)
    else add_tags_loop p (skipn (Z.to_nat n) (dense_keys_vals dense)) n [].

(** The local variables of [parse_dense_node_group]. *)
Record dense_locals := {
  last_dense_id : Z;
  last_dense_latitude : Z;
  last_dense_longitude : Z;
  last_dense_uid : Z;
  last_dense_user_sid : Z;
  last_dense_changeset : Z;
  last_dense_timestamp : Z;
  last_dense_tag : Z
}.

Definition dense_locals_init : dense_locals :=
  {| last_dense_id := 0; last_dense_latitude := 0; last_dense_longitude := 0;
     last_dense_uid := 0; last_dense_user_sid := 0; last_dense_changeset := 0;
     last_dense_timestamp := 0; last_dense_tag := 0 |}.

(** [acc += delta] on an [int64_t].  (Signed overflow is undefined in
    C++; it is taken as the two's complement result.) *)
Definition add64 (acc delta : Z) : Z := Int.to_int64 (acc + delta).

(** One iteration of the loop over [id_size()], [id_i] being
    [dense.id(i)]: the new locals and the node committed. *)
Definition dense_step (p : t) (dense : DenseNodes) (i id_i : Z) (l : dense_locals)
  : outcome (dense_locals * Entity) :=
  let last_dense_id := add64 (last_dense_id l) id_i in
  lat_i <- get (dense_lat dense) i ;;
  let last_dense_latitude := add64 (last_dense_latitude l) lat_i in
  lon_i <- get (dense_lon dense) i ;;
  let last_dense_longitude := add64 (last_dense_longitude l) lon_i in
  '(last_dense_changeset, last_dense_timestamp, last_dense_uid, last_dense_user_sid,
    visible) <-
    match dense_denseinfo dense with
    | Some di =>
      changeset_i <- get (di_changeset di) i ;;
      timestamp_i <- get (di_timestamp di) i ;;
      uid_i <- get (di_uid di) i ;;
      user_sid_i <- get (di_user_sid di) i ;;
      visible <- (if 0 <? size (di_visible di) then get (di_visible di) i
                  else Ret true) ;;
      Ret (add64 (last_dense_changeset l) changeset_i,
           add64 (last_dense_timestamp l) timestamp_i,
           add64 (last_dense_uid l) uid_i,
           add64 (last_dense_user_sid l) user_sid_i,
           visible)
    | None =>
      Ret (last_dense_changeset l, last_dense_timestamp l, last_dense_uid l,
           last_dense_user_sid l, true)
    end ;;
  let node := Object.id last_dense_id Object.init in
  node <- match dense_denseinfo dense with
          | Some di =>
            version_i <- get (di_version di) i ;;
            let node := Object.version version_i node in
            let node := Object.changeset last_dense_changeset node in
            let node := Object.timestamp
                          (Int.to_int64 (last_dense_timestamp * m_date_factor p)) node in
            let node := Object.uid_from_signed last_dense_uid node in
            let node := Object.set_visible visible node in
            u <- s p last_dense_user_sid ;;
            Ret (Object.add_user u node)
          | None => Ret (Object.add_user EmptyString node)
          end ;;
  let loc := if Object.visible node
             then Some (location p last_dense_longitude last_dense_latitude)
             else None in
  '(tl, last_dense_tag) <- add_tags p dense (last_dense_tag l) ;;
  Ret ({| last_dense_id := last_dense_id;
          last_dense_latitude := last_dense_latitude;
          last_dense_longitude := last_dense_longitude;
          last_dense_uid := last_dense_uid;
          last_dense_user_sid := last_dense_user_sid;
          last_dense_changeset := last_dense_changeset;
          last_dense_timestamp := last_dense_timestamp;
          last_dense_tag := last_dense_tag |},
       NodeItem (Object.add_tags tl node) loc).

(** The loop over [id_size()]: [ids] is [dense.id] from index [i] on. *)
Fixpoint dense_loop (p : t) (dense : DenseNodes) (ids : list Z) (i : Z)
         (l : dense_locals) (buffer : Buffer) : outcome Buffer :=
  match ids with
  | [] => Ret buffer
  | id_i :: ids' =>
    '(l', e) <- dense_step p dense i id_i l ;;
    dense_loop p dense ids' (i + 1) l' (buffer ++ [e])
  end.

(** [group.dense()] of a group without dense nodes is the default
    instance. *)
Definition DenseNodes_default : DenseNodes :=
  {| dense_id := []; dense_denseinfo := None; dense_lat := []; dense_lon := [];
     dense_keys_vals := [] |}.

Definition dense_of (group : PrimitiveGroup) : DenseNodes :=
  match dense group with
  | Some d => d
  | None => DenseNodes_default
  end.

Definition parse_dense_node_group (p : t) (group : PrimitiveGroup) : outcome Buffer :=
  let dense := dense_of group in
  dense_loop p dense (dense_id dense) 0 dense_locals_init (m_buffer p).

(** *** operator() *)

Definition parse_group (p : t) (group : PrimitiveGroup) : outcome Buffer :=
  match dense group with
  | Some _ =>
    if read_node (m_read_types p) then parse_dense_node_group p group
    else Ret (m_buffer p)
  | None =>
    if negb (size (ways group) =? 0) then
      if read_way (m_read_types p) then parse_way_group p group
      else Ret (m_buffer p)
    else if negb (size (relations group) =? 0) then
      if read_relation (m_read_types p) then parse_relation_group p group
      else Ret (m_buffer p)
    else if negb (size (nodes group) =? 0) then
      if read_node (m_read_types p) then parse_node_group p group
      else Ret (m_buffer p)
    else Throw "Group of unknown type."
  end.

Fixpoint parse_groups (p : t) (groups : list PrimitiveGroup) : outcome Buffer :=
  match groups with
  | [] => Ret (m_buffer p)
  | group :: groups' =>
    b <- parse_group p group ;;
    parse_groups (with_buffer p b) groups'
  end.

(** The parser of a block is constructed on the block's bytes and called
    once. *)
Definition run (ext : Externals) (data : string) (read_types : flags) : outcome Buffer :=
  match parse_PrimitiveBlock ext data with
  | None => Throw "Failed to parse PrimitiveBlock."
  | Some pbf_primitive_block =>
    parse_groups
      {| m_stringtable := stringtable pbf_primitive_block;
         m_lon_offset := lon_offset pbf_primitive_block;
         m_lat_offset := lat_offset pbf_primitive_block;
         m_date_factor := Z.quot (date_granularity pbf_primitive_block) 1000;
         m_granularity := granularity pbf_primitive_block;
         m_read_types := read_types;
         m_buffer := [] |}
      (primitivegroup pbf_primitive_block)
  end.

End PBFPrimitiveBlockParser.

(** ** pbf_input_format.hpp: InputQueueReader *)

Module InputQueueReader.

(** [m_queue] holds the chunks that the input will deliver, in order; the
    input ends with an empty chunk. *)
Record t := {
  m_queue : list string;
  m_buffer : string
}.

(** The [while] loop of [operator()]: whether the buffer came to hold
    [size] bytes (false at the empty chunk), with the queue and the
    buffer at the end of the loop. *)
Fixpoint fill (queue : list string) (buffer : string) (size : nat)
  : outcome (bool * list string * string) :=
  if Nat.leb size (String.length buffer) then Ret (true, queue, buffer)
  else match queue with
       | [] => Blocked
       | new_data :: queue' =>
         if Nat.eqb (String.length new_data) 0 then Ret (false, queue', buffer)
         else fill queue' (buffer ++ new_data) size
       end.

(** [operator()(data, size)]: the bytes copied to [data] ([None] when the
    call returns false) and the reader afterwards. *)
Definition call (r : t) (size : Z) : outcome (option string * t) :=
  let n := Z.to_nat size in
  '(filled, queue, buffer) <- fill (m_queue r) (m_buffer r) n ;;
  if filled then
    Ret (Some (substring 0 n buffer),
         {| m_queue := queue;
            m_buffer := substring n (String.length buffer - n) buffer |})
  else Ret (None, {| m_queue := queue; m_buffer := buffer |}).

End InputQueueReader.

(** ** pbf_input_format.hpp: BlobParser and the two parsers derived from it *)

(** Modelled from the spec: [zlib_uncompress] is declared in
    io/detail/zlib.hpp, which is not part of the sources.  The spec: inflate
    to exactly [raw_size] bytes; fail if inflation produces more or fewer
    bytes. *)
Definition zlib_uncompress (ext : Externals) (input : string) (raw_size : Z)
  : outcome string :=
  match inflate ext input with
  | Some output =>
    if Z.of_nat (String.length output) =? raw_size then Ret output
    else Throw "failed to uncompress data"
  | None => Throw "failed to uncompress data"
  end.

Module BlobParser.
Import OSMPBF.

Record t := {
  m_input_buffer : string;
  m_size : Z;
  m_blob_num : Z
}.

(** The constructor.  The buffer is allocated in the initializer list,
    before the body tests [size]: [new unsigned char[size]] of a negative
    [size] throws (an exception of the [std::bad_alloc] family), a size
    that can be allocated goes on to the test. *)
Definition make (size blob_num : Z) (input_queue_reader : InputQueueReader.t)
  : outcome (t * InputQueueReader.t) :=
  if size <? 0 then Throw "std::bad_alloc"
  else if (size <? 0) || (max_uncompressed_blob_size <? size) then
    Throw ("invalid blob size: " ++ to_string size)
  else
    '(data, r) <- InputQueueReader.call input_queue_reader size ;;
    match data with
    | None => Throw "read error (EOF)"
    | Some input_buffer =>
      Ret ({| m_input_buffer := input_buffer; m_size := size; m_blob_num := blob_num |}, r)
    end.

(** The body shared by [doit()] and [operator()()]: [handle_blob] is the
    derived class's. *)
Definition dispatch {R : Type} (ext : Externals) (handle_blob : string -> outcome R)
           (b : t) : outcome R :=
  match parse_Blob ext (m_input_buffer b) with
  | None => Throw "failed to parse blob"
  | Some pbf_blob =>
    match raw pbf_blob with
    | Some data => handle_blob data
    | None =>
      match zlib_data pbf_blob with
      | Some packed =>
        let raw_size := Int.to_uint64 (raw_size pbf_blob) in
        _ <- assert (NDEBUG ext)
                    (raw_size <=? Int.to_uint64 max_uncompressed_blob_size)
                    "raw_size <= max_uncompressed_blob_size" ;;
        unpack_buffer <- zlib_uncompress ext packed raw_size ;;
        handle_blob unpack_buffer
      | None =>
        match lzma_data pbf_blob with
        | Some _ => Throw "lzma blobs not implemented"
        | None => Throw "Blob contains no data"
        end
      end
    end
  end.

End BlobParser.

(** The header of a file: its options, the flag for multiple object
    versions and its boxes.  A box is the list of the locations it was
    extended by. *)
Module Header.

Record t := {
  options : list (string * string);
  m_has_multiple_object_versions : bool;
  boxes : list (list Location.t)
}.

Definition init : t :=
  {| options := []; m_has_multiple_object_versions := false; boxes := [] |}.

Definition get (h : t) (key : string) : option string :=
  option_map snd (find (fun kv => String.eqb (fst kv) key) (options h)).

Definition set (key value : string) (h : t) : t :=
  {| options := (key, value)
                  :: filter (fun kv => negb (String.eqb (fst kv) key)) (options h);
     m_has_multiple_object_versions := m_has_multiple_object_versions h;
     boxes := boxes h |}.

Definition set_bool (key : string) (value : bool) (h : t) : t :=
  set key (if value then "true" else "false") h.

Definition has_multiple_object_versions (value : bool) (h : t) : t :=
  {| options := options h; m_has_multiple_object_versions := value; boxes := boxes h |}.

Definition add_box (box : list Location.t) (h : t) : t :=
  {| options := options h;
     m_has_multiple_object_versions := m_has_multiple_object_versions h;
     boxes := boxes h ++ [box] |}.

End Header.

Module HeaderBlobParser.
Import OSMPBF.

(** The loop over [required_features]. *)
Fixpoint required_features_loop (features : list string) (m_header : Header.t)
  : outcome Header.t :=
  match features with
  | [] => Ret m_header
  | feature :: features' =>
    if String.eqb feature "OsmSchema-V0.6" then
      required_features_loop features' m_header
    else if String.eqb feature "DenseNodes" then
      required_features_loop features' (Header.set_bool "pbf_dense_nodes" true m_header)
    else if String.eqb feature "HistoricalInformation" then
      required_features_loop features' (Header.has_multiple_object_versions true m_header)
    else Throw ("Required feature not supported: " ++ feature)
  end.

Definition handle_blob (ext : Externals) (m_header : Header.t) (data : string)
  : outcome Header.t :=
  match parse_HeaderBlock ext data with
  | None => Throw "Failed to parse HeaderBlock."
  | Some pbf_header_block =>
    m_header <- required_features_loop (required_features pbf_header_block) m_header ;;
    let m_header :=
      match writingprogram pbf_header_block with
      | Some w => Header.set "generator" w m_header
      | None => m_header
      end in
    let m_header :=
      match bbox pbf_header_block with
      | Some pbf_bbox =>
        let resolution_convert :=
          Z.quot lonlat_resolution Location.coordinate_precision in
        Header.add_box
          [Location.make (Z.quot (bbox_left pbf_bbox) resolution_convert)
                         (Z.quot (bbox_bottom pbf_bbox) resolution_convert);
           Location.make (Z.quot (bbox_right pbf_bbox) resolution_convert)
                         (Z.quot (bbox_top pbf_bbox) resolution_convert)]
          m_header
      | None => m_header
      end in
    let m_header :=
      match osmosis_replication_timestamp pbf_header_block with
      | Some ts => Header.set "osmosis_replication_timestamp" (to_iso ext ts) m_header
      | None => m_header
      end in
    let m_header :=
      match osmosis_replication_sequence_number pbf_header_block with
      | Some n => Header.set "osmosis_replication_sequence_number" (to_string n) m_header
      | None => m_header
      end in
    let m_header :=
      match osmosis_replication_base_url pbf_header_block with
      | Some u => Header.set "osmosis_replication_base_url" u m_header
      | None => m_header
      end in
    Ret m_header
  end.

(** The constructor: blob number 0. *)
Definition make (size : Z) (input_queue_reader : InputQueueReader.t)
  : outcome (BlobParser.t * InputQueueReader.t) :=
  BlobParser.make size 0 input_queue_reader.

Definition doit (ext : Externals) (m_header : Header.t) (b : BlobParser.t)
  : outcome Header.t :=
  BlobParser.dispatch ext (handle_blob ext m_header) b.

End HeaderBlobParser.

Module DataBlobParser.

Definition handle_blob (ext : Externals) (m_read_types : flags) (data : string)
  : outcome Buffer :=
  PBFPrimitiveBlockParser.run ext data m_read_types.

Definition make (size blob_num : Z) (input_queue_reader : InputQueueReader.t)
  : outcome (BlobParser.t * InputQueueReader.t) :=
  BlobParser.make size blob_num input_queue_reader.

(** [operator()()]. *)
Definition call (ext : Externals) (m_read_types : flags) (b : BlobParser.t)
  : outcome Buffer :=
  BlobParser.dispatch ext (handle_blob ext m_read_types) b.

End DataBlobParser.

(** ** pbf_input_format.hpp: PBFInputFormat *)

Module PBFInputFormat.
Import OSMPBF.

(** The members that [read_blob_header] and [open] use; [reader_started]
    tells whether [open] has started the thread that reads the data
    blobs. *)
Record t := {
  m_input_queue_reader : InputQueueReader.t;
  m_blob_header : option BlobHeader;
  m_header : Header.t;
  m_read_which_entities : flags;
  reader_started : bool
}.

Definition make (read_which_entities : flags) (input_queue : list string) : t :=
  {| m_input_queue_reader :=
       {| InputQueueReader.m_queue := input_queue;
          InputQueueReader.m_buffer := EmptyString |};
     m_blob_header := None;
     m_header := Header.init;
     m_read_which_entities := read_which_entities;
     reader_started := false |}.

Definition with_reader (f : t) (r : InputQueueReader.t) : t :=
  {| m_input_queue_reader := r; m_blob_header := m_blob_header f;
     m_header := m_header f; m_read_which_entities := m_read_which_entities f;
     reader_started := reader_started f |}.

(** [ntohl] of the four bytes read into a [uint32_t]: the first byte is
    the most significant. *)
Fixpoint ntohl_from (s : string) (acc : Z) : Z :=
  match s with
  | EmptyString => acc
  | String c s' => ntohl_from s' (acc * 256 + byte_value c)
  end.

Definition ntohl (s : string) : Z := ntohl_from s 0.

(** [read_blob_header(expected_type)]: the [size_t] returned (0 on EOF). *)
Definition read_blob_header (ext : Externals) (expected_type : string) (f : t)
  : outcome (Z * t) :=
  '(data, r) <- InputQueueReader.call (m_input_queue_reader f) 4 ;;
  match data with
  | None => Ret (0, with_reader f r)
  | Some size_in_network_byte_order =>
    let size := ntohl size_in_network_byte_order in
    if Int.to_uint32 max_blob_header_size <? size then
      Throw "Invalid BlobHeader size"
    else
      '(data, r) <- InputQueueReader.call r size ;;
      match data with
      | None => Throw "Read error."
      | Some blob_header_buffer =>
        match parse_BlobHeader ext blob_header_buffer with
        | None => Throw "Failed to parse BlobHeader."
        | Some h =>
          if negb (String.eqb (c_str (type h)) expected_type) then
            Throw "Blob does not have expected type (OSMHeader in first Blob, OSMData in following Blobs)."
          else
            Ret (Int.to_uint64 (datasize h),
                 {| m_input_queue_reader := r; m_blob_header := Some h;
                    m_header := m_header f;
                    m_read_which_entities := m_read_which_entities f;
                    reader_started := reader_started f |})
        end
      end
  end.

(** [open()]: the size returned by [read_blob_header] is passed to the
    constructor of the header parser as an [int]. *)
Definition open (ext : Externals) (f : t) : outcome t :=
  '(size, f) <- read_blob_header ext "OSMHeader" f ;;
  '(header_blob_parser, r) <-
    HeaderBlobParser.make (Int.to_int32 size) (m_input_queue_reader f) ;;
  header <- HeaderBlobParser.doit ext (m_header f) header_blob_parser ;;
  Ret {| m_input_queue_reader := r; m_blob_header := m_blob_header f;
         m_header := header;
         m_read_which_entities := m_read_which_entities f;
         reader_started := negb (is_nothing (m_read_which_entities f)) |}.

(** The bounds that the constructor sets. *)
Definition m_max_work_queue_size : Z := 10.
Definition m_max_buffer_queue_size : Z := 20.

(** [parse_osm_data(read_types)], the function of the reader thread.
    [m_queue] is the queue of futures as the thread finds it: for every
    data blob, in the order of the file, the thread pushes the future of
    what the call of the blob's parser in the thread pool returns or
    throws ([m_use_thread_pool] is true from the constructor on), and
    [read()] takes futures from the front.

    After the push the thread waits, first while the work queue of the
    thread pool holds [m_max_work_queue_size] tasks or more, then while
    [m_queue] holds more than [m_max_buffer_queue_size] futures, in both
    loops only as long as [m_done] is not set; it returns when it finds
    [m_done] set.  What it finds is the other threads' doing
    ([destroyed], [pool_drains], [consumed]): a thread that waits for
    something that does not come is [Blocked].

    At the end of the input the function sets [m_done] and returns.  An
    exception of [read_blob_header] or of the constructor of the parser
    leaves the function.  [fuel] bounds the number of blob headers read;
    [None] is a loop cut short by it. *)
Fixpoint parse_osm_data (ext : Externals) (read_types : flags) (fuel : nat) (n : Z)
         (f : t) (m_queue : list (outcome Buffer))
  : option (outcome (list (outcome Buffer) * t)) :=
  match fuel with
  | O => None
  | S fuel' =>
    match read_blob_header ext "OSMData" f with
    | Ret (size, f) =>
      if size =? 0 then Some (Ret (m_queue, f))
      else
        match DataBlobParser.make (Int.to_int32 size) n (m_input_queue_reader f) with
        | Ret (data_blob_parser, r) =>
          let m_queue := m_queue ++ [DataBlobParser.call ext read_types data_blob_parser] in
          let m_done := destroyed ext n in
          if m_done then Some (Ret (skipn (consumed ext n) m_queue, with_reader f r))
          else if negb (pool_drains ext n) then Some Blocked
          else
            let m_queue := skipn (consumed ext n) m_queue in
            if m_max_buffer_queue_size <? Z.of_nat (List.length m_queue) then Some Blocked
            else
              parse_osm_data ext read_types fuel' (Int.to_int32 (n + 1)) (with_reader f r)
                             m_queue
        | Throw what => Some (Throw what)
        | Abort what => Some (Abort what)
        | Blocked => Some Blocked
        end
    | Throw what => Some (Throw what)
    | Abort what => Some (Abort what)
    | Blocked => Some Blocked
    end
  end.

(** [read()]: the buffer returned and the queue afterwards; the future at
    the front of the queue is waited for and its exception thrown again. *)
Definition read (m_done : bool) (m_queue : list (outcome Buffer))
  : outcome (Buffer * list (outcome Buffer)) :=
  match m_queue with
  | buffer_future :: m_queue' =>
    buffer <- buffer_future ;;
    Ret (buffer, m_queue')
  | [] => if negb m_done then Blocked else Ret ([], [])
  end.

End PBFInputFormat.

(** ** geom/factory.hpp: GeometryFactory

    The factory is a template over the class [G] that builds the
    geometries.  What it does with a way is the sequence of its calls of
    [linestring_add_location] between [linestring_start] and
    [linestring_finish]: the locations of the linestring.  The locations
    are of a type [L] with the operations of [osmium::Location] that the
    factory uses: [neq] is [operator!=], [defined] the conversion to
    [bool], [undefined] the location that the default constructor
    gives. *)

Module GeometryFactory.

Section Factory.

Variable L : Type.
Variable neq : L -> L -> bool.
Variable defined : L -> bool.
Variable undefined : L.

(** A node of a way: its reference and its location. *)
Record WayNode := { ref : Z; location : L }.

(** [create_point(location)]; [make_point] is [G]'s. *)
Definition create_point {P : Type} (make_point : L -> P) (location : L) : outcome P :=
  if defined location then Ret (make_point location)
  else Throw "location is undefined".

(** One turn of the two loops that leave out repeated locations:
    [last_location] and the locations added so far, afterwards. *)
Definition unique_turn (last_location : L) (added : list L) (wn : WayNode)
  : outcome (L * list L) :=
  if neq last_location (location wn) then
    let last_location := location wn in
    if defined last_location then Ret (last_location, added ++ [last_location])
    else Throw "location is undefined"
  else Ret (last_location, added).

(** One turn of the two loops that add every location. *)
Definition every_turn (added : list L) (wn : WayNode) : outcome (list L) :=
  if defined (location wn) then Ret (added ++ [location wn])
  else Throw "location is undefined".

(** [for (auto& wn : wnl)], leaving out repeated locations. *)
Fixpoint unique_forward (wnl : list WayNode) (last_location : L) (added : list L)
  : outcome (list L) :=
  match wnl with
  | [] => Ret added
  | wn :: wnl' =>
    '(last_location, added) <- unique_turn last_location added wn ;;
    unique_forward wnl' last_location added
  end.

(** [for (int i = wnl.size()-1; i >= 0; --i)], leaving out repeated
    locations: [k] is [i + 1]. *)
Fixpoint unique_backward (wnl : list WayNode) (k : nat) (last_location : L)
         (added : list L) : outcome (list L) :=
  match k with
  | O => Ret added
  | S i =>
    wn <- get wnl (Z.of_nat i) ;;
    '(last_location, added) <- unique_turn last_location added wn ;;
    unique_backward wnl i last_location added
  end.

Fixpoint every_forward (wnl : list WayNode) (added : list L) : outcome (list L) :=
  match wnl with
  | [] => Ret added
  | wn :: wnl' =>
    added <- every_turn added wn ;;
    every_forward wnl' added
  end.

Fixpoint every_backward (wnl : list WayNode) (k : nat) (added : list L)
  : outcome (list L) :=
  match k with
  | O => Ret added
  | S i =>
    wn <- get wnl (Z.of_nat i) ;;
    added <- every_turn added wn ;;
    every_backward wnl i added
  end.

(** [create_linestring(wnl, unique, reverse)]: the locations of the
    linestring. *)
Definition create_linestring (wnl : list WayNode) (unique reverse : bool)
  : outcome (list L) :=
  if unique then
    let last_location := undefined in
    if reverse then unique_backward wnl (List.length wnl) last_location []
    else unique_forward wnl last_location []
  else
    if reverse then every_backward wnl (List.length wnl) []
    else every_forward wnl [].

End Factory.

End GeometryFactory.

(** ** Vocabulary of the statements *)

(** The sum of a list of deltas. *)
Definition sum (l : list Z) : Z := fold_right Z.add 0 l.

(** The value of a 64-bit accumulator that started at 0, after the first
    [k] deltas of [l]. *)
Definition acc64 (l : list Z) (k : nat) : Z := Int.to_int64 (sum (firstn k l)).

(** The running sums of a delta-coded stream, as signed 64-bit integers. *)
Definition running_sums (l : list Z) : list Z :=
  map (fun k => acc64 l (S k)) (seq 0 (List.length l)).

(** An index that the string table holds. *)
Definition in_table (p : PBFPrimitiveBlockParser.t) (index : Z) : bool :=
  (0 <=? Int.to_int32 index)
  && (Int.to_int32 index <? size (PBFPrimitiveBlockParser.m_stringtable p)).

(** The string of the table at an index, as the builders copy it. *)
Definition table_string (p : PBFPrimitiveBlockParser.t) (index : Z) : string :=
  c_str (nth (Z.to_nat (Int.to_int32 index)) (PBFPrimitiveBlockParser.m_stringtable p)
             EmptyString).

(** The [Info] and the keys and values of a plain node, way or relation
    refer to the string table, and every key has a value. *)
Definition info_ok (p : PBFPrimitiveBlockParser.t) (info : option OSMPBF.Info) : bool :=
  match info with
  | Some i => in_table p (OSMPBF.info_user_sid i)
  | None => true
  end.

Definition tags_ok (p : PBFPrimitiveBlockParser.t) (keys vals : list Z) : bool :=
  forallb (in_table p) keys
  && Nat.leb (List.length keys) (List.length vals)
  && forallb (in_table p) (firstn (List.length keys) vals).

(** The node references of a way of the buffer. *)
Definition way_nodes_of (e : Entity) : list Z :=
  match e with
  | WayItem _ l => l
  | _ => []
  end.

(** The members of a relation of the buffer. *)
Definition members_of (e : Entity) : list (item_type * Z * string) :=
  match e with
  | RelationItem _ l => l
  | _ => []
  end.

(** The location of a node of the buffer. *)
Definition location_of (e : Entity) : option Location.t :=
  match e with
  | NodeItem _ loc => loc
  | _ => None
  end.

(** The required features that the header parser knows. *)
Definition supported_feature (feature : string) : bool :=
  String.eqb feature "OsmSchema-V0.6"
  || String.eqb feature "DenseNodes"
  || String.eqb feature "HistoricalInformation".

(** The uid of an entity of the buffer is not negative. *)
Definition uid_nonneg (e : Entity) : Prop := 0 <= Object.uid (object_of e).

(** The uid of a plain entity: the normalized uid of its [Info], 0 without
    one. *)
Definition plain_uid (info : option OSMPBF.Info) : Z :=
  match info with
  | Some i => Object.uid (Object.uid_from_signed (OSMPBF.info_uid i) Object.init)
  | None => 0
  end.

(** The parallel arrays of a relation are as long as [types], and its
    string indexes are in the table. *)
Definition relation_ok (p : PBFPrimitiveBlockParser.t) (r : OSMPBF.Relation) : bool :=
  info_ok p (OSMPBF.rel_info r)
  && tags_ok p (OSMPBF.rel_keys r) (OSMPBF.rel_vals r)
  && Nat.leb (List.length (OSMPBF.rel_types r)) (List.length (OSMPBF.rel_memids r))
  && Nat.leb (List.length (OSMPBF.rel_types r)) (List.length (OSMPBF.rel_roles_sid r))
  && forallb (in_table p)
             (firstn (List.length (OSMPBF.rel_types r)) (OSMPBF.rel_roles_sid r)).

(** *** Dense nodes

    The [k]-th node of a dense group, from the sums of the deltas. *)

Section DenseVocabulary.
Import OSMPBF PBFPrimitiveBlockParser.
Variable p : PBFPrimitiveBlockParser.t.
Variable d : DenseNodes.

(** An accumulator of [DenseInfo] after [k] nodes; it stays 0 when the
    group has no [DenseInfo]. *)
Definition info_acc64 (field : DenseInfo -> list Z) (k : nat) : Z :=
  match dense_denseinfo d with
  | Some di => acc64 (field di) k
  | None => 0
  end.

(** The locals after [k] nodes, the position in [keys_vals] being
    [cursor]. *)
Definition dense_locals_at (k : nat) (cursor : Z) : dense_locals :=
  {| last_dense_id := acc64 (dense_id d) k;
     last_dense_latitude := acc64 (dense_lat d) k;
     last_dense_longitude := acc64 (dense_lon d) k;
     last_dense_uid := info_acc64 di_uid k;
     last_dense_user_sid := info_acc64 di_user_sid k;
     last_dense_changeset := info_acc64 di_changeset k;
     last_dense_timestamp := info_acc64 di_timestamp k;
     last_dense_tag := cursor |}.

Definition dense_visible (k : nat) : bool :=
  match dense_denseinfo d with
  | Some di => if 0 <? size (di_visible di) then nth k (di_visible di) true else true
  | None => true
  end.

(** The object of node [k] before its tags are added. *)
Definition dense_object (k : nat) : Object.t :=
  let node := Object.id (acc64 (dense_id d) (S k)) Object.init in
  match dense_denseinfo d with
  | Some di =>
    Object.add_user
      (nth (Z.to_nat (Int.to_int32 (acc64 (di_user_sid di) (S k)))) (m_stringtable p)
           EmptyString)
      (Object.set_visible (dense_visible k)
         (Object.uid_from_signed (acc64 (di_uid di) (S k))
            (Object.timestamp
               (Int.to_int64 (acc64 (di_timestamp di) (S k) * m_date_factor p))
               (Object.changeset (acc64 (di_changeset di) (S k))
                  (Object.version (nth k (di_version di) 0) node)))))
  | None => Object.add_user EmptyString node
  end.

Definition dense_location (k : nat) : option Location.t :=
  if dense_visible k
  then Some (location p (acc64 (dense_lon d) (S k)) (acc64 (dense_lat d) (S k)))
  else None.

Definition dense_node (k : nat) (tl : list (string * string)) : Entity :=
  NodeItem (Object.add_tags tl (dense_object k)) (dense_location k).

(** The tag lists of [n] calls of [add_tags], the first at [cursor]. *)
Fixpoint dense_tags (n : nat) (cursor : Z) : outcome (list (list (string * string))) :=
  match n with
  | O => Ret []
  | S n' =>
    '(tl, cursor') <- add_tags p d cursor ;;
    rest <- dense_tags n' cursor' ;;
    Ret (tl :: rest)
  end.

(** The arrays of the group are as long as [id], and the accumulated user
    indexes are in the string table. *)
Definition dense_info_ok (di : DenseInfo) : bool :=
  let n := List.length (dense_id d) in
  Nat.leb n (List.length (di_version di))
  && Nat.leb n (List.length (di_timestamp di))
  && Nat.leb n (List.length (di_changeset di))
  && Nat.leb n (List.length (di_uid di))
  && Nat.leb n (List.length (di_user_sid di))
  && (Nat.eqb (List.length (di_visible di)) 0 || Nat.leb n (List.length (di_visible di)))
  && forallb (fun k => in_table p (acc64 (di_user_sid di) (S k))) (seq 0 n).

Definition dense_ok : bool :=
  let n := List.length (dense_id d) in
  Nat.leb n (List.length (dense_lat d))
  && Nat.leb n (List.length (dense_lon d))
  && match dense_denseinfo d with
     | Some di => dense_info_ok di
     | None => true
     end.

End DenseVocabulary.

(** The tags of one node in [keys_vals]: the pairs of indexes, then 0. *)
Definition encode_tags (l : list (Z * Z)) : list Z :=
  flat_map (fun kv => [fst kv; snd kv]) l ++ [0].

(** Pairs that [keys_vals] can hold for a table: the key is not 0, and
    both indexes are in the table. *)
Definition tag_pair_ok (p : PBFPrimitiveBlockParser.t) (kv : Z * Z) : bool :=
  negb (fst kv =? 0) && in_table p (fst kv) && in_table p (snd kv).

Definition resolve_tags (p : PBFPrimitiveBlockParser.t) (l : list (Z * Z))
  : list (string * string) :=
  map (fun kv => (table_string p (fst kv), table_string p (snd kv))) l.

(** ** The scenarios *)

Module Scenario.
Import OSMPBF PBFPrimitiveBlockParser.

Definition all : flags := {| read_node := true; read_way := true; read_relation := true |}.

(** The parser of a block with granularity 100, offsets 0, a date
    granularity of 1000 and the string table ["", "", "outer", "inner"]. *)
Definition parser : PBFPrimitiveBlockParser.t :=
  {| m_stringtable := [""; ""; "outer"; "inner"]%string;
     m_lon_offset := 0; m_lat_offset := 0; m_date_factor := 1;
     m_granularity := 100; m_read_types := all; m_buffer := [] |}.

(** The way with refs [10, -3, 5], no info, no tags. *)
Definition way_10_7_12 : Way :=
  {| way_id := 1; way_keys := []; way_vals := []; way_info := None;
     way_refs := [10; -3; 5] |}.

(** A group that holds ways only. *)
Definition way_group (ws : list Way) : PrimitiveGroup :=
  {| nodes := []; dense := None; ways := ws; relations := [] |}.

(** The four bytes of a blob header length, most significant first. *)
Definition length_prefix (n : Z) : string :=
  String (ascii_of_N (Z.to_N (n / 16777216 mod 256)))
  (String (ascii_of_N (Z.to_N (n / 65536 mod 256)))
     (String (ascii_of_N (Z.to_N (n / 256 mod 256)))
        (String (ascii_of_N (Z.to_N (n mod 256))) EmptyString))).

(** [n] bytes of padding. *)
Fixpoint padding (n : nat) : string :=
  match n with
  | O => EmptyString
  | S n' => String "x"%char (padding n')
  end.

(** A [Blob] none of whose fields is set: what decoding zero bytes gives. *)
Definition empty_blob : Blob :=
  {| raw := None; raw_size := 0; zlib_data := None; lzma_data := None |}.

Definition header_block (features : list string) : HeaderBlock :=
  {| bbox := None; required_features := features; optional_features := [];
   writingprogram := Some "osmium"%string;
   osmosis_replication_timestamp := None;
   osmosis_replication_sequence_number := None;
   osmosis_replication_base_url := None |}.

(** An input of one frame: a blob header of one byte and the blob [blob]
    of one byte, then the end of the input. *)
Definition one_frame (blob : string) : list string :=
  [(length_prefix 1 ++ "h" ++ blob)%string; EmptyString].

(** The empty input: the end of the input at once. *)
Definition empty_input : list string := [EmptyString].

(** A blob parser that holds the blob [blob]. *)
Definition blob_parser (blob : string) : BlobParser.t :=
  {| BlobParser.m_input_buffer := blob;
   BlobParser.m_size := Z.of_nat (String.length blob);
   BlobParser.m_blob_num := 0 |}.

(** An input whose first blob header has 16 bytes. *)
Definition padded_header_input : list string :=
  [(length_prefix 16 ++ padding 16 ++ "r")%string; EmptyString].


(** The dense group of three nodes: id deltas [1, 1, 1], lat deltas
    [100, 0, -50], lon deltas [200, 0, 0], no [DenseInfo], no tags. *)
Definition dense_1_2_3 : DenseNodes :=
  {| dense_id := [1; 1; 1]; dense_denseinfo := None;
   dense_lat := [100; 0; -50]; dense_lon := [200; 0; 0]; dense_keys_vals := [] |}.

Definition dense_group (d : DenseNodes) : PrimitiveGroup :=
  {| nodes := []; dense := Some d; ways := []; relations := [] |}.

(** A dense group of two nodes whose [keys_vals] holds one tag and one 0
    only. *)
Definition dense_one_sentinel : DenseNodes :=
  {| dense_id := [1; 1]; dense_denseinfo := None;
   dense_lat := [0; 0]; dense_lon := [0; 0]; dense_keys_vals := [2; 3; 0] |}.

(** A dense group with [DenseInfo]: two versions of node 7 by user 3
    ("inner"), the second one deleted. *)
Definition dense_history : DenseNodes :=
  {| dense_id := [7; 0];
   dense_denseinfo :=
     Some {| di_version := [1; 2]; di_timestamp := [1000; 60];
             di_changeset := [50; 1]; di_uid := [3; 0]; di_user_sid := [3; 0];
             di_visible := [true; false] |};
   dense_lat := [100; 0]; dense_lon := [200; 0]; dense_keys_vals := [2; 3; 0; 0] |}.

(** Deltas whose sum leaves the signed 64-bit range. *)
Definition overflowing : list Z := [9223372036854775807; 1].

Definition way_overflow : Way :=
  {| way_id := 1; way_keys := []; way_vals := []; way_info := None;
   way_refs := overflowing |}.

Definition relation_overflow : Relation :=
  {| rel_id := 1; rel_keys := []; rel_vals := []; rel_info := None;
   rel_roles_sid := [2; 3]; rel_memids := overflowing; rel_types := [NODE; WAY] |}.

Definition dense_overflow : DenseNodes :=
  {| dense_id := overflowing; dense_denseinfo := None;
   dense_lat := [0; 0]; dense_lon := [0; 0]; dense_keys_vals := [] |}.

(** The relation with types [0, 1, 2], memids [5, 10, -3] and roles
    [2, 3, 2]. *)
Definition relation_mixed : Relation :=
  {| rel_id := 1; rel_keys := []; rel_vals := []; rel_info := None;
     rel_roles_sid := [2; 3; 2]; rel_memids := [5; 10; -3];
     rel_types := [NODE; WAY; RELATION] |}.

(** A plain node whose [Info] has the uid -1. *)
Definition anonymous_info : Info :=
  {| info_version := 1; info_timestamp := 0; info_changeset := 1; info_uid := -1;
   info_user_sid := 0; info_visible := None |}.

Definition node_anonymous : Node :=
  {| node_id := 1; node_keys := []; node_vals := []; node_info := Some anonymous_info;
   node_lat := 0; node_lon := 0 |}.

(** A block of one dense group and one group of plain nodes. *)
Definition block : PrimitiveBlock :=
  {| stringtable := [""; ""; "outer"; "inner"]%string;
   primitivegroup :=
     [dense_group dense_history;
      {| nodes := [node_anonymous]; dense := None; ways := []; relations := [] |}];
   granularity := 100; date_granularity := 1000; lat_offset := 0; lon_offset := 0 |}.

(** Decoders for the scenarios.  Every non-empty blob header is an
    OSMHeader of data size 1; the blob ["r"] carries the raw payload ["f"],
    ["d"] the raw payload ["g"], ["z"] a zlib payload of raw size 4, ["l"]
    an lzma payload; the payload ["f"] is a header block that requires
    OsmSchema-V0.6 and Sort.Type_then_ID, ["g"] one that requires
    OsmSchema-V0.6, DenseNodes and HistoricalInformation, ["b"] the
    primitive block [block]; every zlib payload inflates to ["data"].
    The build is a debug build; no thread pool stalls, nobody destroys
    the format and nobody reads from the queue of futures. *)
Definition ext : Externals :=
  {| parse_BlobHeader := fun s =>
     if Nat.eqb (String.length s) 0 then None
     else Some {| type := "OSMHeader"; datasize := 1 |};
   parse_Blob := fun s =>
     if String.eqb s "" then Some empty_blob
     else if String.eqb s "r" then
       Some {| raw := Some "f"%string; raw_size := 0; zlib_data := None; lzma_data := None |}
     else if String.eqb s "d" then
       Some {| raw := Some "g"%string; raw_size := 0; zlib_data := None; lzma_data := None |}
     else if String.eqb s "z" then
       Some {| raw := None; raw_size := 4; zlib_data := Some "packed"%string;
               lzma_data := None |}
     else if String.eqb s "l" then
       Some {| raw := None; raw_size := 0; zlib_data := None;
               lzma_data := Some "packed"%string |}
     else None;
   parse_HeaderBlock := fun s =>
     if String.eqb s "f" then
       Some (header_block ["OsmSchema-V0.6"; "Sort.Type_then_ID"]%string)
     else if String.eqb s "g" then
       Some (header_block ["OsmSchema-V0.6"; "DenseNodes"; "HistoricalInformation"]%string)
     else None;
   parse_PrimitiveBlock := fun s => if String.eqb s "b" then Some block else None;
   inflate := fun _ => Some "data"%string;
   to_iso := to_string;
   NDEBUG := false;
   destroyed := fun _ => false;
   pool_drains := fun _ => true;
   consumed := fun _ => 0%nat |}.


End Scenario.

(** ** Vocabulary for the string utilities *)

Section StringVocabulary.
Import StringUtil.

(** The length a lead byte announces, by the range of the byte; 0 for a
    byte that starts no sequence. *)
Definition lead_length (b : Z) : Z :=
  if b <? 0x80 then 1
  else if b <? 0xc0 then 0
  else if b <? 0xe0 then 2
  else if b <? 0xf0 then 3
  else if b <? 0xf8 then 4
  else 0.

Definition payload (b : Z) : Z := b mod 64.

Definition decoded (s : bytes) : Z :=
  match s with
  | b0 :: s1 =>
    match lead_length b0, s1 with
    | 2, b1 :: _ => (b0 - 0xc0) * 64 + payload b1
    | 3, b1 :: b2 :: _ => (b0 - 0xe0) * 4096 + payload b1 * 64 + payload b2
    | 4, b1 :: b2 :: b3 :: _ =>
      (b0 - 0xf0) * 262144 + payload b1 * 4096 + payload b2 * 64 + payload b3
    | _, _ => b0
    end
  | [] => 0
  end.

(** The value of a string of hexadecimal digits. *)
Definition hex_char_value (c : Z) : option Z :=
  if (0x30 <=? c) && (c <=? 0x39) then Some (c - 0x30)
  else if (0x61 <=? c) && (c <=? 0x66) then Some (c - 0x61 + 10)
  else if (0x41 <=? c) && (c <=? 0x46) then Some (c - 0x41 + 10)
  else None.

Definition hex_value (cs : bytes) : option Z :=
  fold_left (fun acc c => match acc, hex_char_value c with
                          | Some a, Some d => Some (a * 16 + d)
                          | _, _ => None
                          end) cs (Some 0).

Definition hex_table (t : bytes) : Prop :=
  forall i, 0 <= i < 16 -> hex_char_value (digit t i) = Some i.

(** The digits that [append_min_4_hex_digits] writes: a digit of the upper
    four is written when it is not 0. *)
Definition optional_digit (d : Z) : list Z := if d =? 0 then [] else [d].

End StringVocabulary.

(** ** Vocabulary for the XML escaping *)

Section XmlVocabulary.
Import StringUtil.

(** What is written for one character. *)
Definition xml_entity (c : Z) : bytes :=
  if c =? 0x26 then literal "&amp;"
  else if c =? 0x22 then literal "&quot;"
  else if c =? 0x27 then literal "&apos;"
  else if c =? 0x3c then literal "&lt;"
  else if c =? 0x3e then literal "&gt;"
  else if c =? 0x0a then literal "&#xA;"
  else if c =? 0x0d then literal "&#xD;"
  else if c =? 0x09 then literal "&#x9;"
  else [c].

(** The characters that end an attribute value or a text node, or that an
    XML parser normalizes away in an attribute value: the two quotes, the
    angle brackets, newline, carriage return and tab; and NUL. *)
Definition xml_markup (c : Z) : bool :=
  (c =? 0x22) || (c =? 0x27) || (c =? 0x3c) || (c =? 0x3e)
  || (c =? 0x0a) || (c =? 0x0d) || (c =? 0x09) || (c =? 0).

Definition xml_special (c : Z) : bool := (c =? 0x26) || xml_markup c.

End XmlVocabulary.

(** ** Vocabulary for the OPL and debug escaping *)

Section EscapeVocabulary.
Import StringUtil.

(** The UTF-8 encoding of a text, a list of code points. *)
Definition utf8 (cps : list Z) : bytes :=
  flat_map (fun cp => append_codepoint_as_utf8 cp []) cps.

(** A code point that a text in a C string can hold and that four bytes
    can encode. *)
Definition text_codepoint (cp : Z) : Prop := 0 < cp < 0x200000.

(** What the OPL escaping writes for one code point. *)
Definition opl_char (cp : Z) : bytes :=
  if opl_plain cp then append_codepoint_as_utf8 cp [] else opl_escape [] cp.

(** What the debug escaping writes for one code point. *)
Definition debug_char (prefix suffix : bytes) (cp : Z) : bytes :=
  if debug_plain cp then append_codepoint_as_utf8 cp []
  else debug_escape prefix suffix [] cp.

(** The bytes with a meaning of their own in an OPL line: the control
    characters, the space that separates fields, the comma and the equals
    sign of the tag list, the at sign of the member list, and DEL. *)
Definition opl_separator (b : Z) : bool :=
  (b <=? 0x20) || (b =? 0x2c) || (b =? 0x3d) || (b =? 0x40) || (b =? 0x7f).

End EscapeVocabulary.

(** ** Vocabulary for the entities of a block *)

Section BlockVocabulary.
Import OSMPBF PBFPrimitiveBlockParser.

(** The results of [f] on the elements of a list, in order, up to the
    first one that fails. *)
Fixpoint each {A B : Type} (f : A -> outcome B) (l : list A) : outcome (list B) :=
  match l with
  | [] => Ret []
  | a :: l' =>
    b <- f a ;;
    bs <- each f l' ;;
    Ret (b :: bs)
  end.

(** The nodes of a dense group, the locals threaded through. *)
Fixpoint dense_each (p : t) (dense : DenseNodes) (ids : list Z) (i : Z)
         (l : dense_locals) : outcome (list Entity) :=
  match ids with
  | [] => Ret []
  | id_i :: ids' =>
    '(l', e) <- dense_step p dense i id_i l ;;
    es <- dense_each p dense ids' (i + 1) l' ;;
    Ret (e :: es)
  end.

Definition all_types : flags :=
  {| read_node := true; read_way := true; read_relation := true |}.

(** Whether the flags ask for an entity. *)
Definition kind_selected (f : flags) (e : Entity) : bool :=
  match e with
  | NodeItem _ _ => read_node f
  | WayItem _ _ => read_way f
  | RelationItem _ _ => read_relation f
  end.

(** Whether the flags ask for a kind of entity. *)
Definition selects (f : flags) (k : item_type) : bool :=
  match k with
  | item_node => read_node f
  | item_way => read_way f
  | item_relation => read_relation f
  end.

Definition kind_of (e : Entity) : item_type :=
  match e with
  | NodeItem _ _ => item_node
  | WayItem _ _ => item_way
  | RelationItem _ _ => item_relation
  end.

(** The kind a group is read as, and the number of objects of that kind
    in it. *)
Definition group_kind (g : PrimitiveGroup) : item_type :=
  match dense g with
  | Some _ => item_node
  | None =>
    match ways g, relations g with
    | _ :: _, _ => item_way
    | [], _ :: _ => item_relation
    | [], [] => item_node
    end
  end.

Definition group_objects (g : PrimitiveGroup) : nat :=
  match dense g with
  | Some d => List.length (dense_id d)
  | None =>
    match ways g, relations g with
    | _ :: _, _ => List.length (ways g)
    | [], _ :: _ => List.length (relations g)
    | [], [] => List.length (nodes g)
    end
  end.

(** Two parsers of the same block: they differ at most in what they read
    and in what they have read. *)
Definition same_block (p q : t) : Prop :=
  m_stringtable p = m_stringtable q
  /\ m_lon_offset p = m_lon_offset q
  /\ m_lat_offset p = m_lat_offset q
  /\ m_date_factor p = m_date_factor q
  /\ m_granularity p = m_granularity q.

(** What a plain object tells about its visibility: visible unless its
    [Info] says otherwise. *)
Definition info_says_visible (info : option Info) : bool :=
  match info with
  | Some i => match info_visible i with
              | Some v => v
              | None => true
              end
  | None => true
  end.

(** The user name of a plain object. *)
Definition info_user (p : t) (info : option Info) : string :=
  match info with
  | Some i => table_string p (info_user_sid i)
  | None => EmptyString
  end.

(** The tags that parallel arrays of keys and values give. *)
Definition plain_tags (p : t) (keys vals : list Z) : list (string * string) :=
  combine (map (table_string p) keys)
          (map (table_string p) (firstn (List.length keys) vals)).

(** The timestamp of every entity is 0. *)
Definition at_epoch (e : Entity) : Prop := Object.m_timestamp (object_of e) = 0.

End BlockVocabulary.

(** A block for the examples: a group of one plain node, deleted, with a
    tag; a group with the way of the refs 10, -3, 5 and, besides, a
    relation; a group with a relation of three members.  Its date
    granularity is one millisecond. *)
Module Sample.
Import OSMPBF PBFPrimitiveBlockParser.

Definition deleted_info : Info :=
  {| info_version := 2; info_timestamp := 1700000000000; info_changeset := 7;
     info_uid := 42; info_user_sid := 3; info_visible := Some false |}.

Definition deleted_node : Node :=
  {| node_id := 17; node_keys := [1]; node_vals := [2]; node_info := Some deleted_info;
     node_lat := 515000000; node_lon := -1000000 |}.

Definition short_relation : Relation :=
  {| rel_id := 2; rel_keys := []; rel_vals := []; rel_info := None;
     rel_roles_sid := [2; 3]; rel_memids := [5]; rel_types := [NODE; WAY] |}.

Definition block : PrimitiveBlock :=
  {| stringtable := [""; "highway"; "residential"; "alice"]%string;
     primitivegroup :=
       [{| nodes := [deleted_node]; dense := None; ways := []; relations := [] |};
        {| nodes := []; dense := None; ways := [Scenario.way_10_7_12];
           relations := [Scenario.relation_mixed] |};
        {| nodes := []; dense := None; ways := [];
           relations := [Scenario.relation_mixed] |}];
     granularity := 100; date_granularity := 1; lat_offset := 0; lon_offset := 0 |}.

Definition parser : PBFPrimitiveBlockParser.t :=
  {| m_stringtable := stringtable block; m_lon_offset := 0; m_lat_offset := 0;
     m_date_factor := 0; m_granularity := 100; m_read_types := all_types;
     m_buffer := [] |}.

(** Decoders that give [block] for every primitive block. *)
Definition ext : Externals :=
  {| parse_BlobHeader := parse_BlobHeader Scenario.ext;
     parse_Blob := parse_Blob Scenario.ext;
     parse_HeaderBlock := parse_HeaderBlock Scenario.ext;
     parse_PrimitiveBlock := fun _ => Some block;
     inflate := inflate Scenario.ext;
     to_iso := to_iso Scenario.ext;
     NDEBUG := NDEBUG Scenario.ext;
     destroyed := destroyed Scenario.ext;
     pool_drains := pool_drains Scenario.ext;
     consumed := consumed Scenario.ext |}.

Definition ways_only : flags :=
  {| read_node := false; read_way := true; read_relation := false |}.

End Sample.

(** ** Vocabulary for the input *)

Section InputVocabulary.
Import InputQueueReader.

(** What the chunks of a queue hold before the end of the input, the first
    empty chunk. *)
Fixpoint pending (queue : list string) : string :=
  match queue with
  | [] => EmptyString
  | chunk :: queue' =>
    if Nat.eqb (String.length chunk) 0 then EmptyString
    else (chunk ++ pending queue')%string
  end.

(** Whether the queue holds the end of the input. *)
Fixpoint ends (queue : list string) : bool :=
  match queue with
  | [] => false
  | chunk :: queue' => Nat.eqb (String.length chunk) 0 || ends queue'
  end.

(** The bytes that a reader has yet to deliver. *)
Definition stream (r : InputQueueReader.t) : string :=
  (m_buffer r ++ pending (m_queue r))%string.

End InputVocabulary.

Section FrameVocabulary.
Import OSMPBF.

(** A frame of a file: the bytes of a blob header and the bytes of the
    blob. *)
Record frame := { frame_header : string; frame_blob : string }.

(** The frame in the file: the length of the blob header in four bytes,
    the most significant first, the blob header, the blob. *)
Definition frame_bytes (fr : frame) : string :=
  (Scenario.length_prefix (Z.of_nat (String.length (frame_header fr)))
   ++ frame_header fr ++ frame_blob fr)%string.

Fixpoint frames_bytes (frames : list frame) : string :=
  match frames with
  | [] => EmptyString
  | fr :: frames' => (frame_bytes fr ++ frames_bytes frames')%string
  end.

(** A frame within the caps whose blob header decodes, has the expected
    type and announces the size of the blob. *)
Definition framed (ext : Externals) (expected_type : string) (fr : frame) : bool :=
  (Z.of_nat (String.length (frame_header fr)) <=? max_blob_header_size)
  && (Z.of_nat (String.length (frame_blob fr)) <=? max_uncompressed_blob_size)
  && match parse_BlobHeader ext (frame_header fr) with
     | Some h =>
       String.eqb (c_str (type h)) expected_type
       && (datasize h =? Z.of_nat (String.length (frame_blob fr)))
     | None => false
     end.

(** The parser that holds a blob. *)
Definition holding (blob : string) (blob_num : Z) : BlobParser.t :=
  {| BlobParser.m_input_buffer := blob;
     BlobParser.m_size := Z.of_nat (String.length blob);
     BlobParser.m_blob_num := blob_num |}.


End FrameVocabulary.

(** Decoders for the examples of frames: the blob header ["H"] is an
    OSMHeader header, every other one an OSMData header, and each
    announces [datasize] bytes; every blob carries its own bytes as raw
    payload; the payload ["g"] is a header block, the payload ["b"] the
    sample block. *)
Module DataSample.
Import OSMPBF.

Definition ext (datasize : Z) : Externals :=
  {| parse_BlobHeader := fun s =>
       if String.eqb s "H" then Some {| type := "OSMHeader"; datasize := datasize |}
       else Some {| type := "OSMData"; datasize := datasize |};
     parse_Blob := fun s =>
       Some {| raw := Some s; raw_size := 0; zlib_data := None; lzma_data := None |};
     parse_HeaderBlock := parse_HeaderBlock Scenario.ext;
     parse_PrimitiveBlock := fun s => if String.eqb s "b" then Some Sample.block else None;
     inflate := inflate Scenario.ext;
     to_iso := to_iso Scenario.ext;
     NDEBUG := NDEBUG Scenario.ext;
     destroyed := destroyed Scenario.ext;
     pool_drains := pool_drains Scenario.ext;
     consumed := consumed Scenario.ext |}.

(** Two frames with blob headers of one byte and blobs of one byte. *)
Definition frames : list frame :=
  [{| frame_header := "h"; frame_blob := "b" |};
   {| frame_header := "h"; frame_blob := "x" |}].

(** The input of [frames], cut into chunks within the frames. *)
Definition input : list string :=
  [String Ascii.zero (String Ascii.zero (String Ascii.zero EmptyString));
   String (ascii_of_nat 1) "hb";
   String Ascii.zero (String Ascii.zero (String Ascii.zero (String (ascii_of_nat 1) "h")));
   "x"; ""]%string.

(** An input that ends within the second blob header. *)
Definition truncated_input : list string :=
  [String Ascii.zero (String Ascii.zero (String Ascii.zero (String (ascii_of_nat 2) "h")));
   ""]%string.

(** A frame whose blob header announces no data, and frames after it. *)
Definition empty_frame : frame := {| frame_header := "h"; frame_blob := "" |}.

(** A frame with a blob header of 16 bytes and the blob ["r"], cut into
    two chunks together with the bytes ["after"]. *)
Definition header_frame : frame :=
  {| frame_header := Scenario.padding 16; frame_blob := "r" |}.

Definition header_input : list string :=
  [(Scenario.length_prefix 16 ++ Scenario.padding 16 ++ "raf")%string;
   "ter"%string; ""%string].

End DataSample.

(** ** Vocabulary for the geometry factory *)

Section GeometryVocabulary.
Import GeometryFactory.

Variable L : Type.
Variable neq : L -> L -> bool.

(** The locations of the nodes of a way. *)
Definition locations (wnl : list (WayNode L)) : list L := map (location L) wnl.

(** A list without the elements that repeat the one before them. *)
Fixpoint squeeze (l : list L) : list L :=
  match l with
  | [] => []
  | a :: l' =>
    match l' with
    | [] => [a]
    | b :: _ => if neq a b then a :: squeeze l' else squeeze l'
    end
  end.

(** No element repeats the one before it. *)
Fixpoint no_repeats (l : list L) : bool :=
  match l with
  | [] => true
  | a :: l' =>
    match l' with
    | [] => true
    | b :: _ => neq a b && no_repeats l'
    end
  end.

End GeometryVocabulary.

(** Locations for the examples: pairs of coordinates, undefined where a
    coordinate is 2147483647. *)
Module GeometrySample.
Import GeometryFactory.

Definition undefined_coordinate : Z := 2147483647.

Definition neq (a b : Location.t) : bool :=
  negb ((Location.x a =? Location.x b) && (Location.y a =? Location.y b)).

Definition defined (a : Location.t) : bool :=
  negb (Location.x a =? undefined_coordinate)
  && negb (Location.y a =? undefined_coordinate).

Definition undefined : Location.t :=
  {| Location.x := undefined_coordinate; Location.y := undefined_coordinate |}.

Definition at_ (r x y : Z) : WayNode Location.t :=
  {| ref := r; location := {| Location.x := x; Location.y := y |} |}.

Definition nowhere (r : Z) : WayNode Location.t := {| ref := r; location := undefined |}.

(** A way that comes back to its second node and stays there. *)
Definition way : list (WayNode Location.t) :=
  [at_ 1 0 0; at_ 2 10 0; at_ 3 10 10; at_ 2 10 0; at_ 4 10 0].

End GeometrySample.

(** Files for the examples: a header frame and the two data frames, and
    a header frame and 21 data frames. *)
Module FileSample.

Definition header_frame : frame := {| frame_header := "H"; frame_blob := "g" |}.

Definition input : list string :=
  [(frame_bytes header_frame ++ frames_bytes DataSample.frames)%string; ""%string].



End FileSample.

(** * Proofs *)

(** ** Bit operations as arithmetic *)

Lemma land_low_mask (a k : Z) : 0 <= k -> Z.land a (2 ^ k - 1) = a mod 2 ^ k.
Proof.
  intros Hk. rewrite <- Z.land_ones by assumption.
  f_equal. rewrite Z.ones_equiv. lia.
Qed.

Lemma lor_above (a k c : Z) :
  0 <= k -> 0 <= a < 2 ^ k -> Z.land (Z.ones k) c = 0 -> Z.lor a c = a + c.
Proof.
  intros Hk Ha Hc.
  assert (Hz : Z.land a c = 0).
  { rewrite <- (Z.mod_small a (2 ^ k)) by assumption.
    rewrite <- Z.land_ones by assumption.
    rewrite <- Z.land_assoc, Hc. apply Z.land_0_r. }
  rewrite (Z.add_nocarry_lxor _ _ Hz). symmetry. apply Z.lxor_lor, Hz.
Qed.

Lemma land_0xff (b : Z) : Z.land 0xff b = b mod 256.
Proof. rewrite Z.land_comm. apply (land_low_mask b 8). lia. Qed.

Lemma land_0x3f (b : Z) : Z.land b 0x3f = b mod 64.
Proof. apply (land_low_mask b 6). lia. Qed.

Lemma land_0x7ff (b : Z) : Z.land b 0x7ff = b mod 2048.
Proof. apply (land_low_mask b 11). lia. Qed.

Lemma land_0xfff (b : Z) : Z.land b 0xfff = b mod 4096.
Proof. apply (land_low_mask b 12). lia. Qed.

Lemma land_0xffff (b : Z) : Z.land b 0xffff = b mod 65536.
Proof. apply (land_low_mask b 16). lia. Qed.

Lemma land_0x3ffff (b : Z) : Z.land b 0x3ffff = b mod 262144.
Proof. apply (land_low_mask b 18). lia. Qed.

Lemma land_0x1fffff (b : Z) : Z.land b 0x1fffff = b mod 2097152.
Proof. apply (land_low_mask b 21). lia. Qed.

Lemma shiftr_lit (a n : Z) : 0 <= n -> Z.shiftr a n = a / 2 ^ n.
Proof. apply Z.shiftr_div_pow2. Qed.

Lemma shiftl_lit (a n : Z) : 0 <= n -> Z.shiftl a n = a * 2 ^ n.
Proof. apply Z.shiftl_mul_pow2. Qed.

Lemma lor_0x80 (a : Z) : 0 <= a < 64 -> Z.lor a 0x80 = a + 128.
Proof. intros H. apply (lor_above a 6); [lia | exact H | reflexivity]. Qed.

Lemma lor_0xc0 (a : Z) : 0 <= a < 32 -> Z.lor a 0xc0 = a + 192.
Proof. intros H. apply (lor_above a 5); [lia | exact H | reflexivity]. Qed.

Lemma lor_0xe0 (a : Z) : 0 <= a < 16 -> Z.lor a 0xe0 = a + 224.
Proof. intros H. apply (lor_above a 4); [lia | exact H | reflexivity]. Qed.

Lemma lor_0xf0 (a : Z) : 0 <= a < 8 -> Z.lor a 0xf0 = a + 240.
Proof. intros H. apply (lor_above a 3); [lia | exact H | reflexivity]. Qed.

(** Division and remainder by literals, for [lia]. *)
Ltac divmod := Z.to_euclidean_division_equations; lia.

(** Booleans of comparisons into hypotheses on [Z]. *)
Ltac bools :=
  repeat match goal with
         | H : _ && _ = true |- _ => apply andb_prop in H; destruct H
         | H : negb _ = true |- _ => apply negb_true_iff in H
         | H : _ && _ = false |- _ => apply andb_false_iff in H
         | H : (_ <=? _) = true |- _ => apply Z.leb_le in H
         | H : (_ <? _) = true |- _ => apply Z.ltb_lt in H
         | H : (_ =? _) = true |- _ => apply Z.eqb_eq in H
         | H : (_ <=? _) = false |- _ => apply Z.leb_gt in H
         | H : (_ <? _) = false |- _ => apply Z.ltb_ge in H
         | H : (_ =? _) = false |- _ => apply Z.eqb_neq in H
         end.

(** ** Conversions between integer types *)

Lemma to_int64_range (x : Z) : Int.in_int64 (Int.to_int64 x).
Proof.
  unfold Int.in_int64, Int.int64_min, Int.int64_max, Int.to_int64, Int.to_signed.
  pose proof (Z.mod_pos_bound (x + 2 ^ (64 - 1)) (2 ^ 64) ltac:(lia)).
  change (2 ^ 64) with (2 * 2 ^ 63) in *. change (64 - 1) with 63 in *. lia.
Qed.

Lemma to_int64_small (x : Z) : Int.in_int64 x -> Int.to_int64 x = x.
Proof.
  unfold Int.in_int64, Int.int64_min, Int.int64_max, Int.to_int64, Int.to_signed.
  intros H. change (64 - 1) with 63. change (2 ^ 64) with (2 * 2 ^ 63).
  rewrite Z.mod_small by lia. lia.
Qed.

Lemma to_int32_range (x : Z) : Int.in_int32 (Int.to_int32 x).
Proof.
  unfold Int.in_int32, Int.int32_min, Int.int32_max, Int.to_int32, Int.to_signed.
  pose proof (Z.mod_pos_bound (x + 2 ^ (32 - 1)) (2 ^ 32) ltac:(lia)).
  change (2 ^ 32) with (2 * 2 ^ 31) in *. change (32 - 1) with 31 in *. lia.
Qed.

Lemma to_int32_small (x : Z) : Int.in_int32 x -> Int.to_int32 x = x.
Proof.
  unfold Int.in_int32, Int.int32_min, Int.int32_max, Int.to_int32, Int.to_signed.
  intros H. change (32 - 1) with 31. change (2 ^ 32) with (2 * 2 ^ 31).
  rewrite Z.mod_small by lia. lia.
Qed.

(** The signed value depends on the residue modulo 2^64 only. *)
Lemma to_int64_congr (a b : Z) :
  a mod 2 ^ 64 = b mod 2 ^ 64 -> Int.to_int64 a = Int.to_int64 b.
Proof.
  intros H. unfold Int.to_int64, Int.to_signed. f_equal.
  rewrite (Z.add_mod a), (Z.add_mod b), H by lia. reflexivity.
Qed.

Lemma to_int64_add_l (a b : Z) : Int.to_int64 (Int.to_int64 a + b) = Int.to_int64 (a + b).
Proof.
  apply to_int64_congr. unfold Int.to_int64, Int.to_signed.
  change (2 ^ (64 - 1)) with 9223372036854775808.
  change (2 ^ 64) with 18446744073709551616.
  divmod.
Qed.

Lemma to_int64_uint64_add (a b : Z) :
  Int.to_int64 (Int.to_uint64 (a + Int.to_uint64 b)) = Int.to_int64 (a + b).
Proof.
  apply to_int64_congr. unfold Int.to_uint64, Int.to_unsigned.
  rewrite Z.mod_mod by lia. apply Zplus_mod_idemp_r.
Qed.

Lemma to_int64_uint64_add_l (a b : Z) :
  Int.to_int64 (Int.to_uint64 a + b) = Int.to_int64 (a + b).
Proof.
  apply to_int64_congr. unfold Int.to_uint64, Int.to_unsigned.
  apply Zplus_mod_idemp_l.
Qed.

(** ** Sums of prefixes *)

Lemma sum_app (l1 l2 : list Z) : sum (l1 ++ l2) = sum l1 + sum l2.
Proof. unfold sum. induction l1 as [| a l1 IH]; cbn; [reflexivity | rewrite IH; lia]. Qed.

Lemma firstn_S_snoc {A : Type} (l : list A) (k : nat) (a : A) :
  nth_error l k = Some a -> firstn (S k) l = firstn k l ++ [a].
Proof.
  revert k. induction l as [| b l IH]; intros [| k] H; try discriminate.
  - injection H as ->. reflexivity.
  - cbn [firstn app]. f_equal. apply IH, H.
Qed.

Lemma acc64_0 (l : list Z) : acc64 l 0 = 0.
Proof. reflexivity. Qed.

(** One more delta: the accumulator is advanced by a 64-bit addition. *)
Lemma acc64_S (l : list Z) (k : nat) (d : Z) :
  nth_error l k = Some d -> acc64 l (S k) = Int.to_int64 (acc64 l k + d).
Proof.
  intros H. unfold acc64. rewrite (firstn_S_snoc _ _ _ H), sum_app. cbn [sum fold_right].
  rewrite to_int64_add_l. f_equal. lia.
Qed.

Lemma acc64_exact (l : list Z) (k : nat) :
  Int.in_int64 (sum (firstn k l)) -> acc64 l k = sum (firstn k l).
Proof. apply to_int64_small. Qed.

Lemma running_sums_length (l : list Z) : List.length (running_sums l) = List.length l.
Proof. unfold running_sums. rewrite length_map, length_seq. reflexivity. Qed.

Lemma running_sums_nth (l : list Z) (k : nat) :
  (k < List.length l)%nat -> nth_error (running_sums l) k = Some (acc64 l (S k)).
Proof.
  intros H. unfold running_sums.
  rewrite nth_error_map, nth_error_seq.
  destruct (Nat.ltb_spec k (List.length l)); [reflexivity | lia].
Qed.

(** ** Outcomes *)

Lemma bind_Ret {A B : Type} (m : outcome A) (k : A -> outcome B) (b : B) :
  bind m k = Ret b -> exists a, m = Ret a /\ k a = Ret b.
Proof. destruct m; cbn; intros H; try discriminate. eauto. Qed.

(** Splits a hypothesis [bind m k = Ret b]. *)
Ltac bind_inv H :=
  let a := fresh "a" in
  let E := fresh "E" in
  apply bind_Ret in H; destruct H as [a [E H]].

(** ** Checked access *)

Lemma get_nth_error {A : Type} (l : list A) (i : nat) :
  get l (Z.of_nat i) = match nth_error l i with
                       | Some a => Ret a
                       | None => Abort "index out of range"
                       end.
Proof.
  unfold get. destruct (Z.ltb_spec (Z.of_nat i) 0); [lia |].
  rewrite Nat2Z.id. reflexivity.
Qed.

Lemma get_Ret {A : Type} (l : list A) (i : nat) (a : A) :
  get l (Z.of_nat i) = Ret a -> nth_error l i = Some a.
Proof.
  rewrite get_nth_error. destruct (nth_error l i); intros H; inversion H; reflexivity.
Qed.

Lemma get_some {A : Type} (l : list A) (i : nat) (a : A) :
  nth_error l i = Some a -> get l (Z.of_nat i) = Ret a.
Proof. intros H. rewrite get_nth_error, H. reflexivity. Qed.

Lemma nth_error_lt {A : Type} (l : list A) (i : nat) :
  (i < List.length l)%nat -> exists a, nth_error l i = Some a.
Proof.
  intros H. destruct (nth_error l i) eqn:E; [eauto |].
  apply nth_error_None in E. lia.
Qed.

Lemma skipn_cons_nth {A : Type} (l : list A) (n : nat) (a : A) :
  nth_error l n = Some a -> skipn n l = a :: skipn (S n) l.
Proof.
  revert n. induction l as [| b l IH]; intros [| n] H; try discriminate.
  - injection H as ->. reflexivity.
  - cbn [skipn]. apply IH, H.
Qed.

Lemma map_seq_S {A : Type} (f : nat -> A) (n : nat) :
  map f (seq 0 (S n)) = f 0%nat :: map (fun k => f (S k)) (seq 0 n).
Proof. cbn [seq map]. rewrite <- seq_shift, map_map. reflexivity. Qed.

(** ** The string table *)

Section Table.
Import PBFPrimitiveBlockParser.
Variable p : PBFPrimitiveBlockParser.t.

Lemma s_in_table (index : Z) :
  in_table p index = true ->
  s p index = Ret (nth (Z.to_nat (Int.to_int32 index)) (m_stringtable p) EmptyString).
Proof.
  unfold in_table, s, get, size. intros H. bools.
  destruct (Z.ltb_spec (Int.to_int32 index) 0); [lia |].
  destruct (nth_error (m_stringtable p) (Z.to_nat (Int.to_int32 index))) eqn:E.
  - rewrite (nth_error_nth _ _ _ E). reflexivity.
  - apply nth_error_None in E. lia.
Qed.

(** The tags of a plain entity whose keys and values are in the table. *)
Lemma tag_loop_ok (keys vals : list Z) (tag : nat) :
  forallb (in_table p) keys = true ->
  (tag + List.length keys <= List.length vals)%nat ->
  forallb (in_table p) (firstn (List.length keys) (skipn tag vals)) = true ->
  tag_loop p keys vals (Z.of_nat tag)
  = Ret (combine (map (table_string p) keys)
                 (map (table_string p) (firstn (List.length keys) (skipn tag vals)))).
Proof.
  revert tag. induction keys as [| k keys IH]; intros tag Hk Hlen Hv; [reflexivity |].
  cbn [List.length] in *. cbn [forallb] in Hk. bools.
  destruct (nth_error_lt vals tag ltac:(lia)) as [v Ev].
  rewrite (skipn_cons_nth _ _ _ Ev) in Hv |- *.
  cbn [firstn forallb] in Hv. bools.
  cbn [tag_loop firstn map combine].
  rewrite (s_in_table _ H). cbn [bind].
  rewrite (get_some _ _ _ Ev). cbn [bind].
  rewrite (s_in_table _ H1). cbn [bind].
  replace (Z.of_nat tag + 1) with (Z.of_nat (S tag)) by lia.
  rewrite (IH (S tag)) by (assumption || lia). reflexivity.
Qed.

Lemma add_tag_list_ok (keys vals : list Z) (o : Object.t) :
  tags_ok p keys vals = true ->
  exists l, add_tag_list p keys vals o = Ret (Object.add_tags l o)
            /\ List.length l = List.length keys.
Proof.
  unfold tags_ok, add_tag_list, size. intros H. bools.
  apply Nat.leb_le in H1.
  destruct keys as [| k keys].
  - exists []. cbn. split; [| reflexivity].
    unfold Object.add_tags. rewrite app_nil_r. destruct o; reflexivity.
  - replace (0 <? Z.of_nat (List.length (k :: keys))) with true
      by (symmetry; apply Z.ltb_lt; cbn [List.length]; lia).
    pose proof (tag_loop_ok (k :: keys) vals 0) as E.
    change (Z.of_nat 0) with 0 in E.
    rewrite E by (assumption || lia). clear E.
    cbn [bind]. eexists. split; [reflexivity |].
    rewrite length_combine, !length_map, length_firstn. cbn [skipn]. lia.
Qed.

End Table.

(** ** Ways and relations *)

Section WayRefs.
Import PBFPrimitiveBlockParser.

Lemma way_node_loop_from (refs : list Z) (ref : Z) :
  way_node_loop refs ref
  = map (fun k => Int.to_int64 (ref + sum (firstn (S k) refs))) (seq 0 (List.length refs)).
Proof.
  revert ref. induction refs as [| r refs IH]; intros ref; [reflexivity |].
  cbn [way_node_loop List.length]. rewrite map_seq_S. f_equal.
  - rewrite to_int64_uint64_add. cbn. f_equal. lia.
  - rewrite IH. apply map_ext. intros k.
    rewrite to_int64_uint64_add_l.
    apply to_int64_congr.
    change (firstn (S (S k)) (r :: refs)) with (r :: firstn (S k) refs).
    change (sum (r :: firstn (S k) refs)) with (r + sum (firstn (S k) refs)).
    unfold Int.to_uint64, Int.to_unsigned.
    change (2 ^ 64) with 18446744073709551616.
    generalize (sum (firstn (S k) refs)). intros x. divmod.
Qed.

Lemma way_node_loop_running_sums (refs : list Z) :
  way_node_loop refs 0 = running_sums refs.
Proof. rewrite way_node_loop_from. reflexivity. Qed.

Lemma parse_way_ok (p : t) (w : OSMPBF.Way) :
  info_ok p (OSMPBF.way_info w) = true ->
  tags_ok p (OSMPBF.way_keys w) (OSMPBF.way_vals w) = true ->
  exists o, parse_way p w = Ret (WayItem o (running_sums (OSMPBF.way_refs w))).
Proof.
  intros Hi Ht. unfold parse_way.
  destruct (OSMPBF.way_info w) as [info |]; cbn in Hi; cbv zeta.
  - rewrite (s_in_table _ _ Hi). cbn [bind].
    match goal with
    | |- context [add_tag_list p _ _ ?o1] =>
      destruct (add_tag_list_ok p _ _ o1 Ht) as [l [-> _]]
    end.
    cbn [bind]. rewrite way_node_loop_running_sums. eauto.
  - cbn [bind].
    match goal with
    | |- context [add_tag_list p _ _ ?o1] =>
      destruct (add_tag_list_ok p _ _ o1 Ht) as [l [-> _]]
    end.
    cbn [bind]. rewrite way_node_loop_running_sums. eauto.
Qed.

Lemma parse_way_nodes (p : t) (w : OSMPBF.Way) (e : Entity) :
  parse_way p w = Ret e -> way_nodes_of e = running_sums (OSMPBF.way_refs w).
Proof.
  unfold parse_way. intros H.
  bind_inv H. bind_inv H. injection H as <-.
  cbn [way_nodes_of]. apply way_node_loop_running_sums.
Qed.

Lemma parse_way_shape (p : t) (w : OSMPBF.Way) (e : Entity) :
  parse_way p w = Ret e ->
  exists o, e = WayItem o (running_sums (OSMPBF.way_refs w)).
Proof.
  unfold parse_way. intros H.
  bind_inv H. bind_inv H. injection H as <-.
  rewrite way_node_loop_running_sums. eauto.
Qed.

(** The loop of [parse_way_group] adds one way to the buffer for each
    way of the group, in the group's order. *)
Lemma parse_way_loop_shape (p : t) (l : list OSMPBF.Way) :
  forall buffer out,
    parse_way_loop p l buffer = Ret out ->
    exists es,
      out = buffer ++ es
      /\ Forall2 (fun w e => exists o, e = WayItem o (running_sums (OSMPBF.way_refs w)))
                 l es.
Proof.
  induction l as [| w l IH]; intros buffer out H; cbn [parse_way_loop] in H.
  - injection H as <-. exists []. rewrite app_nil_r. split; [reflexivity | constructor].
  - bind_inv H.
    destruct (parse_way_shape _ _ _ E) as [o ->].
    destruct (IH _ _ H) as [es [-> F]].
    exists (WayItem o (running_sums (OSMPBF.way_refs w)) :: es).
    rewrite <- app_assoc. split; [reflexivity |].
    constructor; [eauto | exact F].
Qed.

Lemma parse_way_loop_ok (p : t) (l : list OSMPBF.Way) :
  forallb (fun w => info_ok p (OSMPBF.way_info w)
                    && tags_ok p (OSMPBF.way_keys w) (OSMPBF.way_vals w)) l = true ->
  forall buffer, exists out, parse_way_loop p l buffer = Ret out.
Proof.
  induction l as [| w l IH]; intros H buffer; cbn [parse_way_loop forallb] in *.
  - eauto.
  - apply andb_prop in H. destruct H as [H Hl].
    apply andb_prop in H. destruct H as [Hi Ht].
    destruct (parse_way_ok p w Hi Ht) as [o ->]. cbn [bind].
    apply IH, Hl.
Qed.

End WayRefs.

(** ** UTF-8 *)

Section Utf8.
Import StringUtil.

Ltac unbits :=
  rewrite ?land_0xff, ?land_0x3f, ?land_0x7ff, ?land_0xfff, ?land_0xffff,
    ?land_0x3ffff, ?land_0x1fffff;
  rewrite ?shiftr_lit, ?shiftl_lit by lia;
  unfold Int.to_uint32, Int.to_uint8, Int.to_unsigned.

Lemma sequence_length_1 (b : Z) : 0 <= b < 0x80 -> utf8_sequence_length b = 1.
Proof.
  intros H. unfold utf8_sequence_length.
  destruct (Z.ltb_spec b 0x80); [reflexivity | lia].
Qed.

Lemma sequence_length_2 (b : Z) : 0xc0 <= b <= 0xdf -> utf8_sequence_length b = 2.
Proof.
  intros H. unfold utf8_sequence_length.
  destruct (Z.ltb_spec b 0x80); [lia |].
  rewrite shiftr_lit by lia.
  replace (b / 2 ^ 5) with 6 by divmod. reflexivity.
Qed.

Lemma sequence_length_3 (b : Z) : 0xe0 <= b <= 0xef -> utf8_sequence_length b = 3.
Proof.
  intros H. unfold utf8_sequence_length.
  destruct (Z.ltb_spec b 0x80); [lia |].
  rewrite !shiftr_lit by lia.
  replace (b / 2 ^ 5) with 7 by divmod.
  replace (b / 2 ^ 4) with 14 by divmod. reflexivity.
Qed.

Lemma sequence_length_4 (b : Z) : 0xf0 <= b <= 0xf7 -> utf8_sequence_length b = 4.
Proof.
  intros H. unfold utf8_sequence_length.
  destruct (Z.ltb_spec b 0x80); [lia |].
  rewrite !shiftr_lit by lia.
  replace (b / 2 ^ 5) with 7 by divmod.
  replace (b / 2 ^ 4) with 15 by divmod.
  replace (b / 2 ^ 3) with 30 by divmod. reflexivity.
Qed.

Lemma decode_shortest_form (bs rest : bytes) :
  shortest_form bs = true ->
  next_utf8_codepoint (bs ++ rest) = Ret (encoded_codepoint bs, rest).
Proof.
  intros H.
  destruct bs as [| b0 [| b1 [| b2 [| b3 [| b4 bs]]]]]; try discriminate;
    unfold shortest_form, is_continuation in H; bools;
    cbn [app next_utf8_codepoint encoded_codepoint];
    rewrite land_0xff, (Z.mod_small b0 256) by lia.
  - rewrite sequence_length_1 by lia. cbn.
    destruct (Pos.of_succ_nat (List.length rest)); reflexivity.
  - rewrite sequence_length_2 by lia.
    unfold size; cbn [List.length Z.eqb Z.ltb].
    replace (Z.of_nat (S (S (List.length rest))) <? 2) with false
      by (symmetry; apply Z.ltb_ge; lia).
    cbn [Z.eqb Pos.eqb]. unbits. do 2 f_equal. divmod.
  - rewrite sequence_length_3 by lia.
    unfold size; cbn [List.length Z.eqb Z.ltb].
    replace (Z.of_nat (S (S (S (List.length rest)))) <? 3) with false
      by (symmetry; apply Z.ltb_ge; lia).
    cbn [Z.eqb Pos.eqb]. unbits. do 2 f_equal. divmod.
  - rewrite sequence_length_4 by lia.
    unfold size; cbn [List.length Z.eqb Z.ltb].
    replace (Z.of_nat (S (S (S (S (List.length rest))))) <? 4) with false
      by (symmetry; apply Z.ltb_ge; lia).
    cbn [Z.eqb Pos.eqb]. unbits. do 2 f_equal. divmod.
Qed.

Ltac pick_branch :=
  repeat match goal with
         | |- context [?a <? ?b] =>
           first [ replace (a <? b) with true by (symmetry; apply Z.ltb_lt; lia)
                 | replace (a <? b) with false by (symmetry; apply Z.ltb_ge; lia) ]
         end.

Lemma encode_shortest_form (bs out : bytes) :
  shortest_form bs = true ->
  append_codepoint_as_utf8 (encoded_codepoint bs) out = out ++ bs.
Proof.
  intros H.
  destruct bs as [| b0 [| b1 [| b2 [| b3 [| b4 bs]]]]]; try discriminate;
    unfold shortest_form, is_continuation in H; bools;
    unfold append_codepoint_as_utf8, encoded_codepoint, to_char;
    pick_branch; unbits.
  - rewrite Z.mod_small by lia. reflexivity.
  - set (cp := (b0 - 192) * 64 + (b1 - 128)).
    assert (cp / 2 ^ 6 = b0 - 192) as -> by (subst cp; divmod).
    assert (cp mod 64 = b1 - 128) as -> by (subst cp; divmod).
    rewrite lor_0xc0, lor_0x80 by lia.
    rewrite !Z.mod_small by lia. do 3 f_equal; lia.
  - set (cp := (b0 - 224) * 4096 + (b1 - 128) * 64 + (b2 - 128)).
    assert (cp / 2 ^ 12 = b0 - 224) as -> by (subst cp; divmod).
    assert ((cp / 2 ^ 6) mod 64 = b1 - 128) as -> by (subst cp; divmod).
    assert (cp mod 64 = b2 - 128) as -> by (subst cp; divmod).
    rewrite lor_0xe0, !lor_0x80 by lia.
    rewrite !Z.mod_small by lia. do 4 f_equal; lia.
  - set (cp := (b0 - 240) * 262144 + (b1 - 128) * 4096 + (b2 - 128) * 64 + (b3 - 128)).
    assert (cp / 2 ^ 18 = b0 - 240) as -> by (subst cp; divmod).
    assert ((cp / 2 ^ 12) mod 64 = b1 - 128) as -> by (subst cp; divmod).
    assert ((cp / 2 ^ 6) mod 64 = b2 - 128) as -> by (subst cp; divmod).
    assert (cp mod 64 = b3 - 128) as -> by (subst cp; divmod).
    rewrite lor_0xf0, !lor_0x80 by lia.
    rewrite !Z.mod_small by lia. do 5 f_equal; lia.
Qed.

Lemma sequence_length_shortest_form (bs : bytes) :
  shortest_form bs = true -> utf8_sequence_length (hd 0 bs) = size bs.
Proof.
  intros H.
  destruct bs as [| b0 [| b1 [| b2 [| b3 [| b4 bs]]]]]; try discriminate;
    unfold shortest_form, is_continuation in H; bools; cbn [hd].
  - apply sequence_length_1. lia.
  - apply sequence_length_2. lia.
  - apply sequence_length_3. lia.
  - apply sequence_length_4. lia.
Qed.

End Utf8.

Section Members.
Import OSMPBF PBFPrimitiveBlockParser.
Variable p : PBFPrimitiveBlockParser.t.

Lemma member_loop_ok (memids roles_sid : list Z) (types : list MemberType) :
  forall (i : nat) (ref : Z),
    (i + List.length types <= List.length memids)%nat ->
    (i + List.length types <= List.length roles_sid)%nat ->
    forallb (in_table p) (firstn (List.length types) (skipn i roles_sid)) = true ->
    Int.to_int64 ref = acc64 memids i ->
    exists ms,
      member_loop p types memids roles_sid (Z.of_nat i) ref = Ret ms
      /\ map (fun m => snd (fst m)) ms
         = map (fun k => acc64 memids (S (i + k))) (seq 0 (List.length types))
      /\ map (fun m => fst (fst m)) ms = map osmpbf_membertype_to_item_type types
      /\ map snd ms
         = map (table_string p) (firstn (List.length types) (skipn i roles_sid)).
Proof.
  induction types as [| mt types IH]; intros i ref Hm Hr Ht Href.
  - exists []. repeat split; reflexivity.
  - cbn [List.length] in *.
    destruct (nth_error_lt memids i ltac:(lia)) as [memid Em].
    destruct (nth_error_lt roles_sid i ltac:(lia)) as [sid Es].
    rewrite (skipn_cons_nth _ _ _ Es) in Ht |- *.
    cbn [firstn forallb] in Ht. apply andb_prop in Ht. destruct Ht as [Hsid Ht].
    assert (Href' : Int.to_int64 (Int.to_uint64 (ref + Int.to_uint64 memid))
                    = acc64 memids (S i)).
    { rewrite to_int64_uint64_add, (acc64_S _ _ _ Em), <- Href, to_int64_add_l.
      reflexivity. }
    destruct (IH (S i) (Int.to_uint64 (ref + Int.to_uint64 memid))
                 ltac:(lia) ltac:(lia) Ht Href') as [ms [E [R [T U]]]].
    cbn [member_loop].
    rewrite (get_some _ _ _ Em). cbn [bind].
    rewrite (get_some _ _ _ Es). cbn [bind].
    rewrite (s_in_table _ _ Hsid). cbn [bind].
    replace (Z.of_nat i + 1) with (Z.of_nat (S i)) by lia.
    rewrite E. cbn [bind].
    eexists. split; [reflexivity |].
    cbn [map fst snd firstn]. rewrite R, T, U, Href', map_seq_S.
    repeat split.
    f_equal; [f_equal; f_equal; lia |].
    apply map_ext. intros k. f_equal. lia.
Qed.

Lemma parse_relation_ok (r : Relation) :
  relation_ok p r = true ->
  exists o ms,
    parse_relation p r = Ret (RelationItem o ms)
    /\ map (fun m => snd (fst m)) ms
       = map (fun k => acc64 (rel_memids r) (S k)) (seq 0 (List.length (rel_types r)))
    /\ map (fun m => fst (fst m)) ms = map osmpbf_membertype_to_item_type (rel_types r)
    /\ map snd ms
       = map (table_string p) (firstn (List.length (rel_types r)) (rel_roles_sid r)).
Proof.
  unfold relation_ok. intros H.
  apply andb_prop in H. destruct H as [H Hroles].
  apply andb_prop in H. destruct H as [H Hr]. apply Nat.leb_le in Hr.
  apply andb_prop in H. destruct H as [H Hm]. apply Nat.leb_le in Hm.
  apply andb_prop in H. destruct H as [Hi Ht].
  destruct (member_loop_ok (rel_memids r) (rel_roles_sid r) (rel_types r) 0 0
                           ltac:(lia) ltac:(lia) Hroles eq_refl) as [ms [E F]].
  change (Z.of_nat 0) with 0 in E.
  unfold parse_relation.
  destruct (rel_info r) as [info |]; cbn in Hi; cbv zeta.
  - rewrite (s_in_table _ _ Hi). cbn [bind]. rewrite E. cbn [bind].
    match goal with
    | |- context [add_tag_list p _ _ ?o1] =>
      destruct (add_tag_list_ok p _ _ o1 Ht) as [l [-> _]]
    end.
    cbn [bind]. eauto.
  - cbn [bind]. rewrite E. cbn [bind].
    match goal with
    | |- context [add_tag_list p _ _ ?o1] =>
      destruct (add_tag_list_ok p _ _ o1 Ht) as [l [-> _]]
    end.
    cbn [bind]. eauto.
Qed.

End Members.

(** ** Dense nodes *)

Section DenseStep.
Import OSMPBF PBFPrimitiveBlockParser.
Variable p : PBFPrimitiveBlockParser.t.
Variable d : DenseNodes.

Lemma add64_acc64 (l : list Z) (k : nat) (v : Z) :
  nth_error l k = Some v -> add64 (acc64 l k) v = acc64 l (S k).
Proof. intros H. symmetry. apply acc64_S, H. Qed.

Lemma visible_after_user (u : string) (v : bool) (o : Object.t) :
  Object.visible (Object.add_user u (Object.set_visible v o)) = v.
Proof. unfold Object.visible, Object.deleted. cbn. apply negb_involutive. Qed.

Ltac nat_bools :=
  repeat match goal with
         | H : _ && _ = true |- _ => apply andb_prop in H; destruct H
         | H : Nat.leb _ _ = true |- _ => apply Nat.leb_le in H
         end.

Lemma dense_step_at (i : nat) (id_i c c' : Z) (tl : list (string * string)) :
  dense_ok p d = true ->
  nth_error (dense_id d) i = Some id_i ->
  add_tags p d c = Ret (tl, c') ->
  dense_step p d (Z.of_nat i) id_i (dense_locals_at d i c)
  = Ret (dense_locals_at d (S i) c', dense_node p d i tl).
Proof.
  intros Hok Hid Htags.
  assert (Hi : (i < List.length (dense_id d))%nat)
    by (apply nth_error_Some; rewrite Hid; discriminate).
  unfold dense_ok in Hok. nat_bools.
  destruct (nth_error_lt (dense_lat d) i ltac:(lia)) as [lat_i Elat].
  destruct (nth_error_lt (dense_lon d) i ltac:(lia)) as [lon_i Elon].
  unfold dense_step, dense_node, dense_object, dense_location, dense_visible,
    dense_locals_at, info_acc64.
  cbn [last_dense_id last_dense_latitude last_dense_longitude last_dense_uid
       last_dense_user_sid last_dense_changeset last_dense_timestamp last_dense_tag].
  rewrite (get_some _ _ _ Elat), (get_some _ _ _ Elon). cbn [bind].
  rewrite (add64_acc64 _ _ _ Hid), (add64_acc64 _ _ _ Elat), (add64_acc64 _ _ _ Elon).
  destruct (dense_denseinfo d) as [di |].
  - unfold dense_info_ok in *. nat_bools.
    destruct (nth_error_lt (di_version di) i ltac:(lia)) as [ver_i Ever].
    destruct (nth_error_lt (di_timestamp di) i ltac:(lia)) as [ts_i Ets].
    destruct (nth_error_lt (di_changeset di) i ltac:(lia)) as [cs_i Ecs].
    destruct (nth_error_lt (di_uid di) i ltac:(lia)) as [uid_i Euid].
    destruct (nth_error_lt (di_user_sid di) i ltac:(lia)) as [usid_i Eusid].
    rewrite (get_some _ _ _ Ecs), (get_some _ _ _ Ets), (get_some _ _ _ Euid),
      (get_some _ _ _ Eusid). cbn [bind].
    rewrite (add64_acc64 _ _ _ Ecs), (add64_acc64 _ _ _ Ets), (add64_acc64 _ _ _ Euid),
      (add64_acc64 _ _ _ Eusid).
    assert (Hvis : (if 0 <? size (di_visible di) then get (di_visible di) (Z.of_nat i)
                    else Ret true)
                   = Ret (if 0 <? size (di_visible di) then nth i (di_visible di) true
                          else true)).
    { unfold size. destruct (Z.ltb_spec 0 (Z.of_nat (List.length (di_visible di)))); [| reflexivity].
      match goal with Hor : _ || _ = true |- _ =>
                      apply orb_prop in Hor; destruct Hor as [Hv | Hv] end.
      - apply Nat.eqb_eq in Hv. lia.
      - apply Nat.leb_le in Hv.
        destruct (nth_error_lt (di_visible di) i ltac:(lia)) as [v Ev].
        rewrite (get_some _ _ _ Ev), (nth_error_nth _ _ _ Ev). reflexivity. }
    rewrite Hvis. cbn [bind].
    rewrite (get_some _ _ _ Ever). cbn [bind].
    assert (Ht : in_table p (acc64 (di_user_sid di) (S i)) = true).
    { match goal with Hall : forallb _ _ = true |- _ =>
                      rewrite forallb_forall in Hall; apply Hall end.
      apply in_seq. lia. }
    rewrite (s_in_table _ _ Ht). cbn [bind].
    rewrite Htags. cbn [bind].
    rewrite (nth_error_nth _ _ _ Ever), visible_after_user. reflexivity.
  - cbn [bind]. rewrite Htags. cbn [bind]. reflexivity.
Qed.

End DenseStep.

Section DenseLoop.
Import OSMPBF PBFPrimitiveBlockParser.
Variable p : PBFPrimitiveBlockParser.t.
Variable d : DenseNodes.
Hypothesis Hok : dense_ok p d = true.

Lemma dense_loop_at (rest : list Z) :
  forall (done : list Z) (c : Z) (tls : list (list (string * string))) (buffer : Buffer),
    dense_id d = done ++ rest ->
    dense_tags p d (List.length rest) c = Ret tls ->
    dense_loop p d rest (Z.of_nat (List.length done))
               (dense_locals_at d (List.length done) c) buffer
    = Ret (buffer ++ map (fun kt => dense_node p d (fst kt) (snd kt))
                         (combine (seq (List.length done) (List.length rest)) tls)).
Proof.
  induction rest as [| id_i rest IH]; intros done c tls buffer Hid Htags.
  - cbn. rewrite app_nil_r. reflexivity.
  - cbn [List.length dense_tags] in Htags.
    apply bind_Ret in Htags. destruct Htags as [[tl c'] [Et Htags]].
    apply bind_Ret in Htags. destruct Htags as [tls' [Ets Htags]].
    injection Htags as <-.
    cbn [dense_loop].
    rewrite (dense_step_at p d _ id_i c c' tl Hok).
    + cbn [bind].
      replace (Z.of_nat (List.length done) + 1) with (Z.of_nat (List.length (done ++ [id_i])))
        by (rewrite length_app; cbn [List.length]; lia).
      replace (S (List.length done)) with (List.length (done ++ [id_i]))
        by (rewrite length_app; cbn [List.length]; lia).
      rewrite (IH (done ++ [id_i]) c' tls').
      * rewrite <- app_assoc. cbn [List.length seq combine map app fst snd].
        replace (List.length (done ++ [id_i])) with (S (List.length done))
          by (rewrite length_app; cbn [List.length]; lia).
        reflexivity.
      * rewrite <- app_assoc. exact Hid.
      * exact Ets.
    + rewrite Hid. rewrite nth_error_app2 by lia. rewrite Nat.sub_diag. reflexivity.
    + exact Et.
Qed.

End DenseLoop.

Section DenseTags.
Import OSMPBF PBFPrimitiveBlockParser.
Variable p : PBFPrimitiveBlockParser.t.

Lemma encode_tags_cons (kv : Z * Z) (ts : list (Z * Z)) :
  encode_tags (kv :: ts) = fst kv :: snd kv :: encode_tags ts.
Proof. reflexivity. Qed.

Lemma add_tags_loop_encoded (ts : list (Z * Z)) :
  forall (rest : list Z) (n : Z) (l : list (string * string)),
    forallb (tag_pair_ok p) ts = true ->
    add_tags_loop p (encode_tags ts ++ rest) n l
    = Ret (l ++ resolve_tags p ts, n + 2 * size ts + 1).
Proof.
  induction ts as [| [k v] ts IH]; intros rest n l H.
  - cbn. rewrite app_nil_r. do 2 f_equal. lia.
  - cbn [forallb] in H. apply andb_prop in H. destruct H as [Hkv Hts].
    unfold tag_pair_ok in Hkv. cbn [fst snd] in Hkv.
    apply andb_prop in Hkv. destruct Hkv as [Hkv Hv].
    apply andb_prop in Hkv. destruct Hkv as [Hk0 Hk].
    apply negb_true_iff in Hk0.
    rewrite encode_tags_cons. cbn [fst snd app add_tags_loop].
    rewrite Hk0, (s_in_table _ _ Hk). cbn [bind].
    rewrite (s_in_table _ _ Hv). cbn [bind].
    rewrite (IH rest (n + 2) _ Hts).
    unfold resolve_tags, table_string, size. cbn [map List.length].
    rewrite <- app_assoc. cbn [app]. do 2 f_equal. lia.
Qed.

Variable d : DenseNodes.

Lemma add_tags_exhausted (n : Z) :
  size (dense_keys_vals d) <= n -> add_tags p d n = Ret ([], n).
Proof.
  intros H. unfold add_tags. apply Z.leb_le in H. rewrite H. reflexivity.
Qed.

Lemma add_tags_encoded (pre rest : list Z) (ts : list (Z * Z)) :
  dense_keys_vals d = pre ++ encode_tags ts ++ rest ->
  forallb (tag_pair_ok p) ts = true ->
  add_tags p d (size pre) = Ret (resolve_tags p ts, size (pre ++ encode_tags ts)).
Proof.
  intros Hkv Hts. unfold add_tags.
  assert (Hsz : size (pre ++ encode_tags ts) = size pre + 2 * size ts + 1).
  { unfold size, encode_tags. rewrite !length_app. cbn [List.length].
    rewrite (flat_map_constant_length (c := 2%nat)) by reflexivity. lia. }
  assert (Hlt : size pre < size (dense_keys_vals d)).
  { rewrite Hkv, app_assoc. unfold size in *. rewrite (length_app (pre ++ encode_tags ts)). lia. }
  destruct (Z.leb_spec (size (dense_keys_vals d)) (size pre)); [lia |].
  unfold size at 1. rewrite get_nth_error, Hkv, nth_error_app2, Nat.sub_diag by lia.
  rewrite Hsz.
  destruct ts as [| [k v] ts].
  - cbn. f_equal. f_equal. unfold size. cbn. lia.
  - pose proof Hts as Hts'. cbn [forallb] in Hts.
    apply andb_prop in Hts. destruct Hts as [Hkv' _].
    unfold tag_pair_ok in Hkv'. cbn [fst snd] in Hkv'.
    apply andb_prop in Hkv'. destruct Hkv' as [Hkv' _].
    apply andb_prop in Hkv'. destruct Hkv' as [Hk0 _].
    apply negb_true_iff in Hk0.
    rewrite encode_tags_cons. cbn [fst snd app nth_error bind]. rewrite Hk0.
    unfold size. rewrite Nat2Z.id, skipn_app, skipn_all, Nat.sub_diag. cbn [skipn app].
    change (k :: v :: encode_tags ts ++ rest) with (encode_tags ((k, v) :: ts) ++ rest).
    rewrite (add_tags_loop_encoded _ _ _ _ Hts'). reflexivity.
Qed.

(** The tag lists of [n] nodes when [keys_vals] holds the tags of
    [tagsets] from the cursor on: nodes beyond [tagsets] get no tags. *)
Lemma dense_tags_encoded (n : nat) :
  forall (pre : list Z) (tagsets : list (list (Z * Z))),
    dense_keys_vals d = pre ++ flat_map encode_tags tagsets ->
    forallb (forallb (tag_pair_ok p)) tagsets = true ->
    dense_tags p d n (size pre)
    = Ret (map (fun k => resolve_tags p (nth k tagsets [])) (seq 0 n)).
Proof.
  induction n as [| n IH]; intros pre tagsets Hkv Hts; [reflexivity |].
  cbn [dense_tags]. rewrite map_seq_S.
  destruct tagsets as [| ts tagsets].
  - cbn [flat_map] in Hkv. rewrite app_nil_r in Hkv.
    rewrite add_tags_exhausted by (rewrite Hkv; lia). cbn [bind].
    rewrite (IH pre []) by (rewrite ?app_nil_r; assumption). cbn [bind].
    do 2 f_equal. apply map_ext. intros k. destruct k; reflexivity.
  - cbn [flat_map] in Hkv. cbn [forallb] in Hts.
    apply andb_prop in Hts. destruct Hts as [Hts Hrest].
    rewrite (add_tags_encoded pre (flat_map encode_tags tagsets) ts Hkv Hts). cbn [bind].
    rewrite (IH (pre ++ encode_tags ts) tagsets) by (rewrite <- ?app_assoc; assumption).
    reflexivity.
Qed.

Hypothesis Hok : dense_ok p d = true.

Lemma combine_seq_map {A : Type} (f : nat -> A) (l : list nat) :
  combine l (map f l) = map (fun k => (k, f k)) l.
Proof. induction l as [| a l IH]; cbn; [reflexivity | rewrite IH; reflexivity]. Qed.

(** A dense group whose arrays fit and whose [keys_vals] holds the tags of
    [tagsets]: the buffer receives one node for each id. *)
Lemma parse_dense_ok (g : PrimitiveGroup) (tagsets : list (list (Z * Z))) :
  dense g = Some d ->
  dense_keys_vals d = flat_map encode_tags tagsets ->
  forallb (forallb (tag_pair_ok p)) tagsets = true ->
  parse_dense_node_group p g
  = Ret (m_buffer p
         ++ map (fun k => dense_node p d k (resolve_tags p (nth k tagsets [])))
                (seq 0 (List.length (dense_id d)))).
Proof.
  intros Hd Hkv Hts. unfold parse_dense_node_group, dense_of. rewrite Hd.
  pose proof (dense_tags_encoded (List.length (dense_id d)) [] tagsets Hkv Hts) as Ht.
  pose proof (dense_loop_at p d Hok (dense_id d) [] 0 _ (m_buffer p) eq_refl Ht) as Hl.
  cbn [List.length Z.of_nat] in Hl.
  assert (E0 : dense_locals_at d 0 0 = dense_locals_init)
    by (unfold dense_locals_at, info_acc64; destruct (dense_denseinfo d); reflexivity).
  rewrite E0 in Hl.
  rewrite Hl, combine_seq_map, map_map. reflexivity.
Qed.

End DenseTags.

Lemma to_int64_idem (x : Z) : Int.to_int64 (Int.to_int64 x) = Int.to_int64 x.
Proof. apply to_int64_small, to_int64_range. Qed.

Lemma nth_error_map_seq {A : Type} (f : nat -> A) (n k : nat) :
  (k < n)%nat -> nth_error (map f (seq 0 n)) k = Some (f k).
Proof.
  intros H. rewrite nth_error_map, nth_error_seq.
  destruct (Nat.ltb_spec k n); [reflexivity | lia].
Qed.

Section DenseFields.
Import OSMPBF PBFPrimitiveBlockParser.
Variable p : PBFPrimitiveBlockParser.t.
Variable d : DenseNodes.

Lemma visible_dense_object (k : nat) (tl : list (string * string)) :
  Object.visible (Object.add_tags tl (dense_object p d k)) = dense_visible d k.
Proof.
  unfold dense_object, dense_visible. destruct (dense_denseinfo d) as [di |].
  - change (Object.visible (Object.add_tags tl ?o)) with (Object.visible o).
    apply visible_after_user.
  - reflexivity.
Qed.

Lemma coordinate_exact (raw offset : Z) :
  Int.in_int64 (raw * m_granularity p) ->
  Int.in_int64 (raw * m_granularity p + offset) ->
  coordinate p raw offset = Z.quot (raw * m_granularity p + offset) 100.
Proof.
  intros H1 H2. unfold coordinate.
  rewrite (to_int64_small _ H1), (to_int64_small _ H2). reflexivity.
Qed.

End DenseFields.


Lemma tags_dense_node (p : PBFPrimitiveBlockParser.t) (d : OSMPBF.DenseNodes) (k : nat)
      (tl : list (string * string)) :
  Object.tags (object_of (dense_node p d k tl)) = tl.
Proof.
  unfold dense_node, dense_object. cbn [object_of].
  destruct (OSMPBF.dense_denseinfo d); reflexivity.
Qed.

(** ** User ids *)

Section Uid.
Import OSMPBF PBFPrimitiveBlockParser.

Lemma uid_from_signed_spec (u : Z) (o : Object.t) :
  Int.in_int32 u ->
  Object.uid (Object.uid_from_signed u o) = (if u <? 0 then 0 else u).
Proof.
  intros H. unfold Object.uid, Object.uid_from_signed. cbn.
  rewrite (to_int32_small _ H). reflexivity.
Qed.

Lemma uid_from_signed_nonneg (u : Z) (o : Object.t) :
  0 <= Object.uid (Object.uid_from_signed u o).
Proof.
  unfold Object.uid, Object.uid_from_signed. cbn.
  destruct (Z.ltb_spec (Int.to_int32 u) 0); lia.
Qed.

Variable p : PBFPrimitiveBlockParser.t.

Lemma uid_set_info (info : Info) (o : Object.t) :
  Object.uid (set_info p info o) = Object.uid (Object.uid_from_signed (info_uid info) o).
Proof. reflexivity. Qed.

Lemma uid_add_tag_list (keys vals : list Z) (o o' : Object.t) :
  add_tag_list p keys vals o = Ret o' -> Object.uid o' = Object.uid o.
Proof.
  unfold add_tag_list. destruct (0 <? size keys); intros H.
  - bind_inv H. injection H as <-. reflexivity.
  - injection H as <-. reflexivity.
Qed.

Lemma uid_parse_node (n : Node) (e : Entity) :
  parse_node p n = Ret e -> Object.uid (object_of e) = plain_uid (node_info n).
Proof.
  unfold parse_node, plain_uid. intros H.
  bind_inv H. bind_inv H. injection H as <-. cbn [object_of].
  rewrite (uid_add_tag_list _ _ _ _ E0).
  destruct (node_info n) as [info |].
  - bind_inv E. injection E as <-. destruct (info_visible info); reflexivity.
  - injection E as <-. reflexivity.
Qed.

Lemma uid_parse_way (w : Way) (e : Entity) :
  parse_way p w = Ret e -> Object.uid (object_of e) = plain_uid (way_info w).
Proof.
  unfold parse_way, plain_uid. intros H.
  bind_inv H. bind_inv H. injection H as <-. cbn [object_of].
  rewrite (uid_add_tag_list _ _ _ _ E0).
  destruct (way_info w) as [info |].
  - bind_inv E. injection E as <-. destruct (info_visible info); reflexivity.
  - injection E as <-. reflexivity.
Qed.

Lemma uid_parse_relation (r : Relation) (e : Entity) :
  parse_relation p r = Ret e -> Object.uid (object_of e) = plain_uid (rel_info r).
Proof.
  unfold parse_relation, plain_uid. intros H.
  bind_inv H. bind_inv H. bind_inv H. injection H as <-. cbn [object_of].
  rewrite (uid_add_tag_list _ _ _ _ E1).
  destruct (rel_info r) as [info |].
  - bind_inv E. injection E as <-. destruct (info_visible info); reflexivity.
  - injection E as <-. reflexivity.
Qed.

Lemma plain_uid_nonneg (info : option Info) : 0 <= plain_uid info.
Proof.
  destruct info; cbn [plain_uid]; [apply uid_from_signed_nonneg | lia].
Qed.

Lemma uid_dense_step (d : DenseNodes) (i id_i : Z) (l l' : dense_locals) (e : Entity) :
  dense_step p d i id_i l = Ret (l', e) ->
  Object.uid (object_of e)
  = match dense_denseinfo d with
    | Some _ => Object.uid (Object.uid_from_signed (last_dense_uid l') Object.init)
    | None => 0
    end.
Proof.
  unfold dense_step. intros H.
  bind_inv H. bind_inv H. bind_inv H.
  destruct a1 as [[[[cs ts] uid] usid] vis].
  bind_inv H. bind_inv H. destruct a2 as [tl c']. injection H as <- <-.
  cbn [object_of last_dense_uid].
  destruct (dense_denseinfo d) as [di |].
  - bind_inv E1. bind_inv E1. bind_inv E1. bind_inv E1. bind_inv E1.
    injection E1 as <- <- <- <- <-.
    bind_inv E2. bind_inv E2. injection E2 as <-. reflexivity.
  - injection E1 as <- <- <- <- <-. injection E2 as <-. reflexivity.
Qed.

Lemma uid_nonneg_snoc (buffer : Buffer) (e : Entity) :
  Forall uid_nonneg buffer -> uid_nonneg e -> Forall uid_nonneg (buffer ++ [e]).
Proof. intros Hb He. apply Forall_app. split; [exact Hb | constructor; [exact He | constructor]]. Qed.

Lemma uid_parse_node_loop (l : list Node) :
  forall buffer out,
    Forall uid_nonneg buffer -> parse_node_loop p l buffer = Ret out -> Forall uid_nonneg out.
Proof.
  induction l as [| n l IH]; intros buffer out Hb H; cbn [parse_node_loop] in H.
  - injection H as <-. exact Hb.
  - bind_inv H. apply (IH _ _ (uid_nonneg_snoc _ _ Hb ltac:(
      unfold uid_nonneg; rewrite (uid_parse_node _ _ E); apply plain_uid_nonneg)) H).
Qed.

Lemma uid_parse_way_loop (l : list Way) :
  forall buffer out,
    Forall uid_nonneg buffer -> parse_way_loop p l buffer = Ret out -> Forall uid_nonneg out.
Proof.
  induction l as [| n l IH]; intros buffer out Hb H; cbn [parse_way_loop] in H.
  - injection H as <-. exact Hb.
  - bind_inv H. apply (IH _ _ (uid_nonneg_snoc _ _ Hb ltac:(
      unfold uid_nonneg; rewrite (uid_parse_way _ _ E); apply plain_uid_nonneg)) H).
Qed.

Lemma uid_parse_relation_loop (l : list Relation) :
  forall buffer out,
    Forall uid_nonneg buffer -> parse_relation_loop p l buffer = Ret out ->
    Forall uid_nonneg out.
Proof.
  induction l as [| n l IH]; intros buffer out Hb H; cbn [parse_relation_loop] in H.
  - injection H as <-. exact Hb.
  - bind_inv H. apply (IH _ _ (uid_nonneg_snoc _ _ Hb ltac:(
      unfold uid_nonneg; rewrite (uid_parse_relation _ _ E); apply plain_uid_nonneg)) H).
Qed.

Lemma uid_dense_loop (d : DenseNodes) (ids : list Z) :
  forall i l buffer out,
    Forall uid_nonneg buffer -> dense_loop p d ids i l buffer = Ret out ->
    Forall uid_nonneg out.
Proof.
  induction ids as [| id_i ids IH]; intros i l buffer out Hb H; cbn [dense_loop] in H.
  - injection H as <-. exact Hb.
  - bind_inv H. destruct a as [l' e].
    refine (IH _ _ _ _ (uid_nonneg_snoc _ _ Hb _) H).
    unfold uid_nonneg. rewrite (uid_dense_step _ _ _ _ _ _ E).
    destruct (dense_denseinfo d); [apply uid_from_signed_nonneg | lia].
Qed.

End Uid.

Section UidBlock.
Import OSMPBF PBFPrimitiveBlockParser.

Lemma uid_parse_group (p : PBFPrimitiveBlockParser.t) (g : PrimitiveGroup) (out : Buffer) :
  Forall uid_nonneg (m_buffer p) -> parse_group p g = Ret out -> Forall uid_nonneg out.
Proof.
  intros Hb. unfold parse_group.
  destruct (dense g) as [d |].
  - destruct (read_node (m_read_types p)); intros H.
    + apply (uid_dense_loop p _ _ _ _ _ _ Hb H).
    + injection H as <-. exact Hb.
  - destruct (negb (size (ways g) =? 0)).
    { destruct (read_way (m_read_types p)); intros H.
      - apply (uid_parse_way_loop p _ _ _ Hb H).
      - injection H as <-. exact Hb. }
    destruct (negb (size (relations g) =? 0)).
    { destruct (read_relation (m_read_types p)); intros H.
      - apply (uid_parse_relation_loop p _ _ _ Hb H).
      - injection H as <-. exact Hb. }
    destruct (negb (size (nodes g) =? 0)).
    { destruct (read_node (m_read_types p)); intros H.
      - apply (uid_parse_node_loop p _ _ _ Hb H).
      - injection H as <-. exact Hb. }
    discriminate.
Qed.

Lemma uid_parse_groups (groups : list PrimitiveGroup) :
  forall p out,
    Forall uid_nonneg (m_buffer p) -> parse_groups p groups = Ret out ->
    Forall uid_nonneg out.
Proof.
  induction groups as [| g groups IH]; intros p out Hb H; cbn [parse_groups] in H.
  - injection H as <-. exact Hb.
  - bind_inv H. apply (IH (with_buffer p a) out); [| exact H].
    cbn [with_buffer m_buffer]. apply (uid_parse_group p g a Hb E).
Qed.

Lemma uid_run (ext : Externals) (data : string) (which : flags) (out : Buffer) :
  run ext data which = Ret out -> Forall uid_nonneg out.
Proof.
  unfold run. destruct (parse_PrimitiveBlock ext data) as [block |]; [| discriminate].
  apply uid_parse_groups. constructor.
Qed.

End UidBlock.

(** ** The scenarios, evaluated *)

Section Scenarios.
Import OSMPBF PBFPrimitiveBlockParser.

(** A header that requires the three known features: [open] returns, with
    the generator and both flags set, and starts the reader. *)
Example open_header_only :
  exists f,
    PBFInputFormat.open Scenario.ext
                        (PBFInputFormat.make Scenario.all (Scenario.one_frame "d"))
    = Ret f
    /\ Header.get (PBFInputFormat.m_header f) "generator" = Some "osmium"%string
    /\ Header.get (PBFInputFormat.m_header f) "pbf_dense_nodes" = Some "true"%string
    /\ Header.m_has_multiple_object_versions (PBFInputFormat.m_header f) = true
    /\ PBFInputFormat.reader_started f = true.
Proof. eexists. split; [vm_compute; reflexivity | repeat split]. Qed.

(** A header whose blob is packed with lzma. *)
Example open_lzma_header :
  PBFInputFormat.open Scenario.ext
                      (PBFInputFormat.make Scenario.all (Scenario.one_frame "l"))
  = Throw "lzma blobs not implemented".
Proof. vm_compute. reflexivity. Qed.

(** The blob header is read up to its announced length, the blob stays in
    the reader. *)
Example read_padded_header :
  exists f,
    PBFInputFormat.read_blob_header
      Scenario.ext "OSMHeader"
      (PBFInputFormat.make Scenario.all Scenario.padded_header_input)
    = Ret (1, f)
    /\ InputQueueReader.m_buffer (PBFInputFormat.m_input_queue_reader f) = "r"%string.
Proof. eexists. split; [vm_compute; reflexivity | reflexivity]. Qed.

(** A blob header of another type than the expected one. *)
Example read_header_of_other_type :
  PBFInputFormat.read_blob_header
    Scenario.ext "OSMData" (PBFInputFormat.make Scenario.all (Scenario.one_frame "r"))
  = Throw "Blob does not have expected type (OSMHeader in first Blob, OSMData in following Blobs).".
Proof. vm_compute. reflexivity. Qed.

(** The members of the relation with mixed member types. *)
Example relation_mixed_members :
  exists o,
    parse_relation Scenario.parser Scenario.relation_mixed
    = Ret (RelationItem o [(item_node, 5, "outer"%string);
                           (item_way, 15, "inner"%string);
                           (item_relation, 12, "outer"%string)]).
Proof. eexists. vm_compute. reflexivity. Qed.

(** A group that holds nothing. *)
Example group_of_unknown_type :
  parse_group Scenario.parser {| nodes := []; dense := None; ways := []; relations := [] |}
  = Throw "Group of unknown type.".
Proof. reflexivity. Qed.

(** The block of the scenarios read for ways only: both of its groups are
    skipped. *)
Example block_read_for_ways_only :
  run Scenario.ext "b" {| read_node := false; read_way := true; read_relation := false |}
  = Ret [].
Proof. vm_compute. reflexivity. Qed.

End Scenarios.

(** * The claims *)

(** ** Way references *)

Section WayClaim.
Import OSMPBF PBFPrimitiveBlockParser.

(** C2, as the code has it: a group that holds ways, read for ways, is
    decoded by [parse_way_group]; for every group, [parse_way_group]
    returns whenever the string indexes of the group's ways are in the
    table; when it returns, it has added to the buffer one way for each
    way of the group, in the group's order, and the [k]-th node reference
    of each is the sum of the first [k+1] deltas of the way's [refs] as a
    signed 64-bit integer, which is the sum itself when that is
    representable; and the group of the way with refs [10, -3, 5] decodes
    to the way with the references [10, 7, 12]. *)
Theorem way_refs_are_running_sums :
  (forall p group,
      dense group = None -> ways group <> [] -> read_way (m_read_types p) = true ->
      parse_group p group = parse_way_group p group)
  /\ (forall p group,
         forallb (fun w => info_ok p (way_info w) && tags_ok p (way_keys w) (way_vals w))
                 (ways group) = true ->
         exists out, parse_way_group p group = Ret out)
  /\ (forall p group out,
         parse_way_group p group = Ret out ->
         exists es,
           out = m_buffer p ++ es
           /\ Forall2
                (fun w e =>
                   exists o nodes,
                     e = WayItem o nodes
                     /\ List.length nodes = List.length (way_refs w)
                     /\ forall k,
                         (k < List.length (way_refs w))%nat ->
                         nth_error nodes k
                         = Some (Int.to_int64 (sum (firstn (S k) (way_refs w))))
                         /\ (Int.in_int64 (sum (firstn (S k) (way_refs w))) ->
                             nth_error nodes k = Some (sum (firstn (S k) (way_refs w)))))
                (ways group) es)
  /\ (forall p,
         exists o,
           parse_way_group p (Scenario.way_group [Scenario.way_10_7_12])
           = Ret (m_buffer p ++ [WayItem o [10; 7; 12]])).
Proof.
  split; [| split; [| split]].
  - intros p group D W R. unfold parse_group. rewrite D, R.
    destruct (ways group) as [| w l]; [contradiction | reflexivity].
  - intros p group H. apply parse_way_loop_ok, H.
  - intros p group out H.
    destruct (parse_way_loop_shape _ _ _ _ H) as [es [-> F]].
    exists es. split; [reflexivity |].
    clear H. induction F as [| w e l es' [o ->] F IH]; [constructor |].
    constructor; [| exact IH].
    exists o, (running_sums (way_refs w)).
    split; [reflexivity |]. split; [apply running_sums_length |].
    intros k Hk. rewrite (running_sums_nth _ _ Hk).
    split; [reflexivity |].
    intros Hr. rewrite (acc64_exact _ _ Hr). reflexivity.
  - intros p. eexists. reflexivity.
Qed.

(** The scenario's way in a group of its own, read through the general
    statement. *)
Lemma way_refs_are_running_sums_witness :
  exists o nodes,
    parse_way_group Scenario.parser (Scenario.way_group [Scenario.way_10_7_12])
    = Ret [WayItem o nodes]
    /\ nth_error nodes 2 = Some 12.
Proof.
  destruct (proj1 (proj2 way_refs_are_running_sums)
                  Scenario.parser (Scenario.way_group [Scenario.way_10_7_12]) eq_refl)
    as [out E].
  destruct (proj1 (proj2 (proj2 way_refs_are_running_sums)) _ _ _ E) as [es [-> F]].
  cbn [Scenario.way_group ways] in F.
  inversion F as [| w e l es' [o [nodes [-> [_ K]]]] F']; subst.
  inversion F'; subst.
  exists o, nodes. split; [exact E |].
  apply (K 2%nat).
  - cbn. lia.
  - cbn. unfold Int.in_int64, Int.int64_min, Int.int64_max. lia.
Defined.

(** C2 as the claim words it: the second reference of the way with refs
    [2^63 - 1, 1] is not the sum of its first two deltas. *)
Lemma way_reference_not_the_sum_counterexample :
  sum (firstn 2 (way_refs Scenario.way_overflow)) = 9223372036854775808
  /\ exists o,
      parse_way_group Scenario.parser (Scenario.way_group [Scenario.way_overflow])
      = Ret [WayItem o [9223372036854775807; -9223372036854775808]].
Proof. split; [reflexivity |]. eexists. reflexivity. Qed.

End WayClaim.

(** ** UTF-8 round trip *)

Section RoundTrip.
Import StringUtil.

(** C10: for every shortest-form UTF-8 sequence [bs] of one to four bytes,
    [utf8_sequence_length] of its first byte is its length,
    [next_utf8_codepoint] on [bs] followed by anything consumes [bs] and
    returns the code point that [bs] encodes, and
    [append_codepoint_as_utf8] of that code point appends [bs] again. *)
Theorem utf8_decode_encode_round_trip (bs rest out : bytes) :
  shortest_form bs = true ->
  utf8_sequence_length (hd 0 bs) = size bs
  /\ next_utf8_codepoint (bs ++ rest) = Ret (encoded_codepoint bs, rest)
  /\ append_codepoint_as_utf8 (encoded_codepoint bs) out = out ++ bs.
Proof.
  intros H. split; [| split].
  - apply sequence_length_shortest_form, H.
  - apply decode_shortest_form, H.
  - apply encode_shortest_form, H.
Qed.

(** The euro sign U+20AC, three bytes, followed by the letter A. *)
Lemma utf8_decode_encode_round_trip_witness :
  utf8_sequence_length 0xe2 = 3
  /\ next_utf8_codepoint [0xe2; 0x82; 0xac; 0x41] = Ret (0x20ac, [0x41])
  /\ append_codepoint_as_utf8 0x20ac [] = [0xe2; 0x82; 0xac].
Proof.
  exact (utf8_decode_encode_round_trip [0xe2; 0x82; 0xac] [0x41] [] eq_refl).
Defined.

End RoundTrip.

(** ** Blobs *)

Section Blobs.
Import OSMPBF BlobParser.

(** C3: for every decoded blob, a raw payload is handed to [handle_blob]
    as it is; a zlib payload is inflated and handed on when the inflation
    has exactly [raw_size] bytes, and fails when it has more or fewer or
    when the inflation fails; an lzma payload fails with "lzma blobs not
    implemented"; a blob with no payload fails with "Blob contains no
    data". *)
Theorem blob_payload_dispatch (R : Type) (ext : Externals)
        (handle_blob : string -> outcome R) (b : BlobParser.t) (pbf_blob : Blob) :
  parse_Blob ext (m_input_buffer b) = Some pbf_blob ->
  (forall data, raw pbf_blob = Some data -> dispatch ext handle_blob b = handle_blob data)
  /\ (forall packed,
         raw pbf_blob = None -> zlib_data pbf_blob = Some packed ->
         Int.to_uint64 (raw_size pbf_blob) <= Int.to_uint64 max_uncompressed_blob_size ->
         (forall output,
             inflate ext packed = Some output ->
             Z.of_nat (String.length output) = Int.to_uint64 (raw_size pbf_blob) ->
             dispatch ext handle_blob b = handle_blob output)
         /\ (forall output,
                inflate ext packed = Some output ->
                Z.of_nat (String.length output) <> Int.to_uint64 (raw_size pbf_blob) ->
                dispatch ext handle_blob b = Throw "failed to uncompress data")
         /\ (inflate ext packed = None ->
             dispatch ext handle_blob b = Throw "failed to uncompress data"))
  /\ (forall packed,
         raw pbf_blob = None -> zlib_data pbf_blob = None ->
         lzma_data pbf_blob = Some packed ->
         dispatch ext handle_blob b = Throw "lzma blobs not implemented")
  /\ (raw pbf_blob = None -> zlib_data pbf_blob = None -> lzma_data pbf_blob = None ->
      dispatch ext handle_blob b = Throw "Blob contains no data").
Proof.
  intros Hp. unfold dispatch. rewrite Hp.
  split; [| split; [| split]].
  - intros data ->. reflexivity.
  - intros packed -> -> Hcap.
    apply Z.leb_le in Hcap. rewrite Hcap.
    replace (assert (NDEBUG ext) true "raw_size <= max_uncompressed_blob_size")
      with (Ret tt) by (unfold assert; destruct (NDEBUG ext); reflexivity).
    cbn [bind].
    unfold zlib_uncompress.
    split; [| split].
    + intros output -> Hlen. apply Z.eqb_eq in Hlen. rewrite Hlen. reflexivity.
    + intros output -> Hlen. apply Z.eqb_neq in Hlen. rewrite Hlen. reflexivity.
    + intros ->. reflexivity.
  - intros packed -> -> ->. reflexivity.
  - intros -> -> ->. reflexivity.
Qed.

(** The zlib blob of the scenarios: raw size 4, inflated to four bytes. *)
Lemma blob_payload_dispatch_witness :
  dispatch Scenario.ext (fun data => Ret data) (Scenario.blob_parser "z") = Ret "data"%string.
Proof.
  refine (proj1 (proj1 (proj2 (blob_payload_dispatch string Scenario.ext
                                 (fun data => Ret data) (Scenario.blob_parser "z") _ eq_refl))
                       "packed"%string eq_refl eq_refl _) "data"%string eq_refl eq_refl).
  vm_compute. discriminate.
Defined.

End Blobs.

(** ** Size caps *)

Section Caps.
Import OSMPBF BlobParser PBFInputFormat.





End Caps.

(** ** The header *)

Section HeaderFeatures.
Import OSMPBF HeaderBlobParser.

Lemma get_set (key value : string) (h : Header.t) :
  Header.get (Header.set key value h) key = Some value.
Proof. unfold Header.get, Header.set. cbn. rewrite String.eqb_refl. reflexivity. Qed.

Lemma features_set_flags (l : list string) (h h' : Header.t) :
  required_features_loop l h = Ret h' ->
  (In "DenseNodes"%string l \/ Header.get h "pbf_dense_nodes" = Some "true"%string ->
   Header.get h' "pbf_dense_nodes" = Some "true"%string)
  /\ (In "HistoricalInformation"%string l \/ Header.m_has_multiple_object_versions h = true ->
      Header.m_has_multiple_object_versions h' = true).
Proof.
  revert h. induction l as [| f l IH]; intros h H; cbn [required_features_loop] in H.
  - injection H as <-. split; intros [[] | E]; exact E.
  - destruct (String.eqb_spec f "OsmSchema-V0.6") as [-> | N1].
    { destruct (IH _ H) as [D V]. split; intros [[E | I] | E]; try discriminate; auto. }
    destruct (String.eqb_spec f "DenseNodes") as [-> | N2].
    { destruct (IH _ H) as [D V]. split.
      - intros _. apply D. right. apply get_set.
      - intros [[E | I] | E]; try discriminate; auto. }
    destruct (String.eqb_spec f "HistoricalInformation") as [-> | N3].
    { destruct (IH _ H) as [D V]. split.
      - intros [[E | I] | E]; try discriminate; auto.
      - intros _. apply V. right. reflexivity. }
    discriminate.
Qed.

Lemma features_supported (l : list string) (h : Header.t) :
  forallb supported_feature l = true -> exists h', required_features_loop l h = Ret h'.
Proof.
  revert h. induction l as [| f l IH]; intros h H; cbn [required_features_loop].
  - eauto.
  - cbn [forallb] in H. apply andb_prop in H. destruct H as [Hf Hl].
    unfold supported_feature in Hf.
    destruct (String.eqb f "OsmSchema-V0.6"); [apply IH, Hl |].
    destruct (String.eqb f "DenseNodes"); [apply IH, Hl |].
    destruct (String.eqb f "HistoricalInformation"); [apply IH, Hl | discriminate].
Qed.

Lemma features_unsupported (pre post : list string) (f : string) (h : Header.t) :
  forallb supported_feature pre = true ->
  supported_feature f = false ->
  required_features_loop (pre ++ f :: post) h
  = Throw ("Required feature not supported: " ++ f).
Proof.
  intros Hpre Hf. revert h.
  induction pre as [| g pre IH]; intros h; cbn [app required_features_loop].
  - unfold supported_feature in Hf.
    destruct (String.eqb f "OsmSchema-V0.6"); [discriminate |].
    destruct (String.eqb f "DenseNodes"); [discriminate |].
    destruct (String.eqb f "HistoricalInformation"); [discriminate | reflexivity].
  - cbn [forallb] in Hpre. apply andb_prop in Hpre. destruct Hpre as [Hg Hpre].
    unfold supported_feature in Hg.
    destruct (String.eqb g "OsmSchema-V0.6"); [apply (IH Hpre) |].
    destruct (String.eqb g "DenseNodes"); [apply (IH Hpre) |].
    destruct (String.eqb g "HistoricalInformation"); [apply (IH Hpre) | discriminate].
Qed.

(** C6, as the code has it: "OsmSchema-V0.6" is skipped, "DenseNodes" sets
    the option pbf_dense_nodes, "HistoricalInformation" sets the flag for
    multiple object versions; when every required feature is one of these
    the loop returns with the flags of the features that occur; the first
    other feature makes [handle_blob], and so [open], throw
    "Required feature not supported: " followed by the feature, which for
    the header that requires OsmSchema-V0.6 and Sort.Type_then_ID is
    "Required feature not supported: Sort.Type_then_ID". *)
Theorem required_features_handling :
  (forall l h,
      required_features_loop ("OsmSchema-V0.6"%string :: l) h = required_features_loop l h)
  /\ (forall l h,
         required_features_loop ("DenseNodes"%string :: l) h
         = required_features_loop l (Header.set_bool "pbf_dense_nodes" true h))
  /\ (forall l h,
         required_features_loop ("HistoricalInformation"%string :: l) h
         = required_features_loop l (Header.has_multiple_object_versions true h))
  /\ (forall l h,
         forallb supported_feature l = true ->
         exists h',
           required_features_loop l h = Ret h'
           /\ (In "DenseNodes"%string l ->
               Header.get h' "pbf_dense_nodes" = Some "true"%string)
           /\ (In "HistoricalInformation"%string l ->
               Header.m_has_multiple_object_versions h' = true))
  /\ (forall ext h data block pre feature post,
         parse_HeaderBlock ext data = Some block ->
         required_features block = pre ++ feature :: post ->
         forallb supported_feature pre = true ->
         supported_feature feature = false ->
         handle_blob ext h data = Throw ("Required feature not supported: " ++ feature))
  /\ PBFInputFormat.open Scenario.ext
                         (PBFInputFormat.make Scenario.all (Scenario.one_frame "r"))
     = Throw "Required feature not supported: Sort.Type_then_ID".
Proof.
  split; [| split; [| split; [| split; [| split]]]].
  - reflexivity.
  - reflexivity.
  - reflexivity.
  - intros l h Hl. destruct (features_supported l h Hl) as [h' E].
    exists h'. destruct (features_set_flags _ _ _ E) as [D V].
    split; [exact E | split; intros I; [apply D | apply V]; left; exact I].
  - intros ext h data block pre feature post Hp Hr Hpre Hf.
    unfold handle_blob. rewrite Hp, Hr, (features_unsupported _ _ _ _ Hpre Hf).
    reflexivity.
  - vm_compute. reflexivity.
Qed.

(** The header block of the scenario, handed to [handle_blob]. *)
Lemma required_features_handling_witness :
  handle_blob Scenario.ext Header.init "f"
  = Throw "Required feature not supported: Sort.Type_then_ID".
Proof.
  exact (proj1 (proj2 (proj2 (proj2 (proj2 required_features_handling))))
               Scenario.ext Header.init "f"%string
               (Scenario.header_block ["OsmSchema-V0.6"; "Sort.Type_then_ID"]%string)
               ["OsmSchema-V0.6"%string] "Sort.Type_then_ID"%string []
               eq_refl eq_refl eq_refl eq_refl).
Defined.

(** C6 as the claim words it: on the header that requires OsmSchema-V0.6
    and Sort.Type_then_ID, [open] does not fail with
    "required feature not supported: Sort.Type_then_ID"; the message of the
    code starts with a capital letter. *)
Lemma required_feature_message_counterexample :
  PBFInputFormat.open Scenario.ext
                      (PBFInputFormat.make Scenario.all (Scenario.one_frame "r"))
  <> Throw "required feature not supported: Sort.Type_then_ID".
Proof. vm_compute. discriminate. Qed.

End HeaderFeatures.

(** ** The empty input *)

Section EmptyInput.
Import OSMPBF PBFInputFormat.

(** C7, as the code has it: [open] fails on an input that ends at once.
    At the end of the input [read_blob_header] returns 0; [open] passes
    this 0 to the header parser as the size of a blob, which reads no
    byte, decodes the empty blob and throws "Blob contains no data". *)
Theorem open_on_empty_input (ext : Externals) (which : flags) (rest : list string)
        (pbf_blob : Blob) :
  parse_Blob ext EmptyString = Some pbf_blob ->
  raw pbf_blob = None -> zlib_data pbf_blob = None -> lzma_data pbf_blob = None ->
  (exists f', read_blob_header ext "OSMHeader" (make which (EmptyString :: rest))
              = Ret (0, f'))
  /\ open ext (make which (EmptyString :: rest)) = Throw "Blob contains no data".
Proof.
  intros Hp Hr Hz Hl. split.
  - eexists. reflexivity.
  - unfold open.
    assert (E1 : read_blob_header ext "OSMHeader" (make which (EmptyString :: rest))
                 = Ret (0, with_reader (make which (EmptyString :: rest))
                                       {| InputQueueReader.m_queue := rest;
                                          InputQueueReader.m_buffer := EmptyString |}))
      by reflexivity.
    rewrite E1. cbn [bind with_reader m_input_queue_reader].
    assert (E2 : HeaderBlobParser.make (Int.to_int32 0)
                   {| InputQueueReader.m_queue := rest;
                      InputQueueReader.m_buffer := EmptyString |}
                 = Ret ({| BlobParser.m_input_buffer := EmptyString;
                           BlobParser.m_size := 0; BlobParser.m_blob_num := 0 |},
                        {| InputQueueReader.m_queue := rest;
                           InputQueueReader.m_buffer := EmptyString |}))
      by (destruct rest; reflexivity).
    rewrite E2. cbn [bind].
    unfold HeaderBlobParser.doit, BlobParser.dispatch.
    cbn [BlobParser.m_input_buffer]. rewrite Hp, Hr, Hz, Hl. reflexivity.
Qed.

Lemma open_on_empty_input_witness :
  open Scenario.ext (make Scenario.all Scenario.empty_input) = Throw "Blob contains no data".
Proof.
  exact (proj2 (open_on_empty_input Scenario.ext Scenario.all [] Scenario.empty_blob
                                    eq_refl eq_refl eq_refl eq_refl)).
Defined.

(** C7 as the claim words it: the error of [open] on the empty input is
    not "EOF before OSMHeader". *)
Lemma open_on_empty_input_message_counterexample :
  PBFInputFormat.open Scenario.ext (PBFInputFormat.make Scenario.all Scenario.empty_input)
  <> Throw "EOF before OSMHeader".
Proof. vm_compute. discriminate. Qed.

End EmptyInput.

(** ** Dense nodes *)

Section DenseClaim.
Import OSMPBF PBFPrimitiveBlockParser.

(** C1, with the locations that the formula gives: decoding a dense group
    whose arrays are as long as [id] and whose [keys_vals] holds tag lists
    returns one node for each id.  Node [k] has as id the 64-bit sum of
    the first [k+1] id deltas; when it is visible its location is
    [(sum * granularity + offset) / 100] of the 64-bit sums of the lon and
    lat deltas, computed in 64-bit arithmetic and stored in 32 bits (the
    exact quotient when nothing overflows); with a [DenseInfo] its
    changeset, timestamp, uid and user come from the sums of their deltas
    and its version is [version[k]] itself; without one these fields keep
    their defaults.  The group with id deltas [1,1,1], lat deltas
    [100,0,-50], lon deltas [200,0,0], granularity 100 and offsets 0 gives
    the ids 1, 2, 3 and the (lon, lat) locations (200,100), (200,100),
    (200,50). *)
Theorem dense_nodes_accumulate :
  (forall p g d tagsets,
      dense g = Some d ->
      dense_ok p d = true ->
      dense_keys_vals d = flat_map encode_tags tagsets ->
      forallb (forallb (tag_pair_ok p)) tagsets = true ->
      exists l,
        parse_dense_node_group p g = Ret (m_buffer p ++ l)
        /\ List.length l = List.length (dense_id d)
        /\ forall k,
            (k < List.length (dense_id d))%nat ->
            exists o loc,
              nth_error l k = Some (NodeItem o loc)
              /\ Object.m_id o = acc64 (dense_id d) (S k)
              /\ loc = (if Object.visible o
                        then Some
                               {| Location.x :=
                                    Int.to_int32
                                      (Z.quot
                                         (Int.to_int64
                                            (Int.to_int64
                                               (acc64 (dense_lon d) (S k) * m_granularity p)
                                             + m_lon_offset p)) 100);
                                  Location.y :=
                                    Int.to_int32
                                      (Z.quot
                                         (Int.to_int64
                                            (Int.to_int64
                                               (acc64 (dense_lat d) (S k) * m_granularity p)
                                             + m_lat_offset p)) 100) |}
                        else None)
              /\ match dense_denseinfo d with
                 | Some di =>
                   Object.m_version o
                   = Int.to_unsigned 31 (Int.to_uint32 (nth k (di_version di) 0))
                   /\ Object.m_changeset o = Int.to_uint32 (acc64 (di_changeset di) (S k))
                   /\ Object.m_timestamp o
                      = Int.to_int64 (acc64 (di_timestamp di) (S k) * m_date_factor p)
                   /\ Object.m_uid o
                      = (let uid := Int.to_int32 (acc64 (di_uid di) (S k)) in
                         if uid <? 0 then 0 else uid)
                   /\ Object.user o = table_string p (acc64 (di_user_sid di) (S k))
                   /\ Object.visible o
                      = (if 0 <? size (di_visible di) then nth k (di_visible di) true
                         else true)
                 | None =>
                   Object.m_version o = 0 /\ Object.m_changeset o = 0
                   /\ Object.m_timestamp o = 0 /\ Object.m_uid o = 0
                   /\ Object.user o = EmptyString /\ Object.visible o = true
                 end)
  /\ (forall p raw offset,
         Int.in_int64 (raw * m_granularity p) ->
         Int.in_int64 (raw * m_granularity p + offset) ->
         coordinate p raw offset = Z.quot (raw * m_granularity p + offset) 100)
  /\ (forall l k, Int.in_int64 (sum (firstn k l)) -> acc64 l k = sum (firstn k l))
  /\ exists o1 o2 o3,
      parse_dense_node_group Scenario.parser (Scenario.dense_group Scenario.dense_1_2_3)
      = Ret [NodeItem o1 (Some {| Location.x := 200; Location.y := 100 |});
             NodeItem o2 (Some {| Location.x := 200; Location.y := 100 |});
             NodeItem o3 (Some {| Location.x := 200; Location.y := 50 |})]
      /\ Object.m_id o1 = 1 /\ Object.m_id o2 = 2 /\ Object.m_id o3 = 3.
Proof.
  split; [| split; [| split]].
  - intros p g d tagsets Hd Hok Hkv Hts.
    rewrite (parse_dense_ok p d Hok g tagsets Hd Hkv Hts).
    eexists. split; [reflexivity |]. split; [rewrite length_map, length_seq; reflexivity |].
    intros k Hk. rewrite (nth_error_map_seq _ _ _ Hk). unfold dense_node.
    eexists. eexists. split; [reflexivity |].
    split; [| split].
    + unfold dense_object. destruct (dense_denseinfo d); cbn; unfold acc64; apply to_int64_idem.
    + rewrite visible_dense_object. reflexivity.
    + rewrite visible_dense_object. unfold dense_object, dense_visible.
      destruct (dense_denseinfo d) as [di |].
      * cbn. rewrite to_int64_idem. repeat split; reflexivity.
      * cbn. repeat split; reflexivity.
  - intros p. apply coordinate_exact.
  - apply acc64_exact.
  - do 3 eexists. split; [vm_compute; reflexivity |]. repeat split; reflexivity.
Qed.

(** The group with a [DenseInfo], two versions of node 7. *)
Lemma dense_nodes_accumulate_witness :
  exists l,
    parse_dense_node_group Scenario.parser (Scenario.dense_group Scenario.dense_history)
    = Ret l
    /\ List.length l = 2%nat.
Proof.
  destruct (proj1 dense_nodes_accumulate Scenario.parser
                  (Scenario.dense_group Scenario.dense_history) Scenario.dense_history
                  [[(2, 3)]; []] eq_refl eq_refl eq_refl eq_refl) as [l [E [L _]]].
  exists l. split; [exact E | exact L].
Defined.

(** C1 as the claim words it: the group of the scenario does not decode to
    the locations (20000,10000), (20000,10000), (20000,5000). *)
Lemma dense_example_locations_counterexample :
  ~ exists l,
      parse_dense_node_group Scenario.parser (Scenario.dense_group Scenario.dense_1_2_3)
      = Ret l
      /\ map location_of l
         = [Some {| Location.x := 20000; Location.y := 10000 |};
            Some {| Location.x := 20000; Location.y := 10000 |};
            Some {| Location.x := 20000; Location.y := 5000 |}].
Proof.
  intros [l [E H]]. vm_compute in E. injection E as <-. discriminate H.
Qed.

End DenseClaim.

(** ** The tags of dense nodes *)

Section DenseTagsClaim.
Import OSMPBF PBFPrimitiveBlockParser.

(** C5, as the code has it: when the arrays of a dense group are as long
    as [id] and [keys_vals] is a sequence of tag lists, each a sequence of
    (key, value) index pairs into the string table closed by a 0, decoding
    returns one node for each id; node [k] has the strings of the [k]-th
    tag list as tags, and the nodes after the last tag list have no tags.
    A [keys_vals] with fewer 0s than there are nodes is no error:
    [add_tags] returns at once when [keys_vals] is used up. *)
Theorem dense_tags_follow_keys_vals :
  (forall p g d tagsets,
      dense g = Some d ->
      dense_ok p d = true ->
      dense_keys_vals d = flat_map encode_tags tagsets ->
      forallb (forallb (tag_pair_ok p)) tagsets = true ->
      exists l,
        parse_dense_node_group p g = Ret (m_buffer p ++ l)
        /\ List.length l = List.length (dense_id d)
        /\ forall k,
            (k < List.length (dense_id d))%nat ->
            exists e,
              nth_error l k = Some e
              /\ Object.tags (object_of e) = resolve_tags p (nth k tagsets [])
              /\ ((List.length tagsets <= k)%nat -> Object.tags (object_of e) = []))
  /\ (forall p d n, size (dense_keys_vals d) <= n -> add_tags p d n = Ret ([], n))
  /\ exists o1 o2 loc1 loc2,
      parse_dense_node_group Scenario.parser
                             (Scenario.dense_group Scenario.dense_one_sentinel)
      = Ret [NodeItem o1 loc1; NodeItem o2 loc2]
      /\ Object.tags o1 = [("outer"%string, "inner"%string)]
      /\ Object.tags o2 = [].
Proof.
  split; [| split].
  - intros p g d tagsets Hd Hok Hkv Hts.
    rewrite (parse_dense_ok p d Hok g tagsets Hd Hkv Hts).
    eexists. split; [reflexivity |]. split; [rewrite length_map, length_seq; reflexivity |].
    intros k Hk. rewrite (nth_error_map_seq _ _ _ Hk).
    eexists. split; [reflexivity |]. rewrite tags_dense_node.
    split; [reflexivity |].
    intros Hlen. rewrite nth_overflow by exact Hlen. reflexivity.
  - intros p d n. apply add_tags_exhausted.
  - do 4 eexists. split; [vm_compute; reflexivity |]. split; reflexivity.
Qed.

(** Two nodes, and tag lists for both in [keys_vals]. *)
Lemma dense_tags_follow_keys_vals_witness :
  exists l,
    parse_dense_node_group Scenario.parser (Scenario.dense_group Scenario.dense_history)
    = Ret l
    /\ map (fun e => Object.tags (object_of e)) l = [[("outer"%string, "inner"%string)]; []].
Proof.
  destruct (proj1 dense_tags_follow_keys_vals Scenario.parser
                  (Scenario.dense_group Scenario.dense_history) Scenario.dense_history
                  [[(2, 3)]; []] eq_refl eq_refl eq_refl eq_refl) as [l [E _]].
  exists l. split; [exact E |].
  vm_compute in E. injection E as <-. reflexivity.
Defined.

(** C5 as the claim words it: two nodes and a [keys_vals] with one 0
    only, and decoding returns two nodes. *)
Lemma dense_misaligned_counterexample :
  List.length (dense_id Scenario.dense_one_sentinel) = 2%nat
  /\ count_occ Z.eq_dec (dense_keys_vals Scenario.dense_one_sentinel) 0 = 1%nat
  /\ exists l,
      parse_dense_node_group Scenario.parser
                             (Scenario.dense_group Scenario.dense_one_sentinel)
      = Ret l
      /\ List.length l = 2%nat.
Proof.
  split; [reflexivity | split; [reflexivity |]].
  eexists. split; [vm_compute; reflexivity | reflexivity].
Qed.

End DenseTagsClaim.

(** ** Overflow of the accumulators *)

Section Overflow.
Import OSMPBF PBFPrimitiveBlockParser.

(** C8, as the code has it: the accumulators of way references and of
    relation member ids are unsigned 64-bit integers whose additions wrap,
    those of dense nodes signed 64-bit integers, and no decoder tests an
    accumulator.  Whenever the string indexes are in the table and the
    parallel arrays are long enough, decoding returns, whatever the deltas
    are: a way's [k]-th reference and a relation's [k]-th member id are the
    sum of the first [k+1] deltas reduced to a signed 64-bit integer, and
    node [k] of a dense group is built from the sums of the first [k+1]
    deltas of its seven streams, each reduced in the same way
    ([dense_node]).  Deltas whose sum is 2^63 decode to the id -2^63. *)
Theorem accumulators_wrap_unchecked :
  (forall p w,
      info_ok p (way_info w) = true ->
      tags_ok p (way_keys w) (way_vals w) = true ->
      exists o,
        parse_way p w
        = Ret (WayItem o (map (fun k => Int.to_int64 (sum (firstn (S k) (way_refs w))))
                              (seq 0 (List.length (way_refs w))))))
  /\ (forall p r,
         relation_ok p r = true ->
         exists o ms,
           parse_relation p r = Ret (RelationItem o ms)
           /\ map (fun m => snd (fst m)) ms
              = map (fun k => Int.to_int64 (sum (firstn (S k) (rel_memids r))))
                    (seq 0 (List.length (rel_types r))))
  /\ (forall p g d tagsets,
         dense g = Some d ->
         dense_ok p d = true ->
         dense_keys_vals d = flat_map encode_tags tagsets ->
         forallb (forallb (tag_pair_ok p)) tagsets = true ->
         parse_dense_node_group p g
         = Ret (m_buffer p
                ++ map (fun k => dense_node p d k (resolve_tags p (nth k tagsets [])))
                       (seq 0 (List.length (dense_id d)))))
  /\ (sum Scenario.overflowing = 2 ^ 63
      /\ (exists o, parse_way Scenario.parser Scenario.way_overflow
                    = Ret (WayItem o [2 ^ 63 - 1; - 2 ^ 63]))
      /\ (exists o, parse_relation Scenario.parser Scenario.relation_overflow
                    = Ret (RelationItem o [(item_node, 2 ^ 63 - 1, "outer"%string);
                                           (item_way, - 2 ^ 63, "inner"%string)]))
      /\ (exists o1 o2 loc1 loc2,
             parse_dense_node_group Scenario.parser
                                    (Scenario.dense_group Scenario.dense_overflow)
             = Ret [NodeItem o1 loc1; NodeItem o2 loc2]
             /\ Object.m_id o1 = 2 ^ 63 - 1 /\ Object.m_id o2 = - 2 ^ 63)).
Proof.
  split; [| split; [| split]].
  - intros p w Hi Ht. destruct (parse_way_ok p w Hi Ht) as [o E]. exists o. exact E.
  - intros p r H. destruct (parse_relation_ok p r H) as [o [ms [E [R _]]]].
    exists o, ms. split; [exact E | exact R].
  - intros p g d tagsets Hd Hok Hkv Hts. apply (parse_dense_ok p d Hok g tagsets Hd Hkv Hts).
  - split; [reflexivity |]. split; [| split].
    + eexists. vm_compute. reflexivity.
    + eexists. vm_compute. reflexivity.
    + do 4 eexists. split; [vm_compute; reflexivity |]. split; reflexivity.
Qed.

(** The way whose deltas sum to 2^63, through the general statement. *)
Lemma accumulators_wrap_unchecked_witness :
  exists o, parse_way Scenario.parser Scenario.way_overflow
            = Ret (WayItem o [2 ^ 63 - 1; - 2 ^ 63]).
Proof.
  exact (proj1 accumulators_wrap_unchecked Scenario.parser Scenario.way_overflow
               eq_refl eq_refl).
Defined.

(** C8 as the claim words it: the sum of the deltas of this way leaves the
    signed 64-bit range, and decoding returns the way, with the reference
    -2^63. *)
Lemma accumulator_overflow_counterexample :
  Int.int64_max < sum (way_refs Scenario.way_overflow)
  /\ exists o, parse_way Scenario.parser Scenario.way_overflow
               = Ret (WayItem o [9223372036854775807; -9223372036854775808]).
Proof.
  split; [vm_compute; reflexivity |]. eexists. vm_compute. reflexivity.
Qed.

End Overflow.

(** ** User ids *)

Section UidClaim.
Import OSMPBF PBFPrimitiveBlockParser.

(** C9: [uid_from_signed u] stores 0 when [u < 0] and [u] otherwise, for
    every 32-bit [u]; the uid of a plain node, way or relation with an
    [Info] is its [uid] normalized in this way, the uid of a dense node
    with a [DenseInfo] is the accumulated uid normalized in this way; and
    every entity of a buffer that the block parser returns has a uid that
    is not negative. *)
Theorem stored_uid_is_normalized :
  (forall u o,
      Int.in_int32 u -> Object.uid (Object.uid_from_signed u o) = (if u <? 0 then 0 else u))
  /\ (forall p n e i,
         parse_node p n = Ret e -> node_info n = Some i -> Int.in_int32 (info_uid i) ->
         Object.uid (object_of e) = (if info_uid i <? 0 then 0 else info_uid i))
  /\ (forall p w e i,
         parse_way p w = Ret e -> way_info w = Some i -> Int.in_int32 (info_uid i) ->
         Object.uid (object_of e) = (if info_uid i <? 0 then 0 else info_uid i))
  /\ (forall p r e i,
         parse_relation p r = Ret e -> rel_info r = Some i -> Int.in_int32 (info_uid i) ->
         Object.uid (object_of e) = (if info_uid i <? 0 then 0 else info_uid i))
  /\ (forall p d i id_i l l' e di,
         dense_step p d i id_i l = Ret (l', e) -> dense_denseinfo d = Some di ->
         Int.in_int32 (last_dense_uid l') ->
         Object.uid (object_of e)
         = (if last_dense_uid l' <? 0 then 0 else last_dense_uid l'))
  /\ (forall ext data which out,
         run ext data which = Ret out -> Forall uid_nonneg out).
Proof.
  split; [| split; [| split; [| split; [| split]]]].
  - apply uid_from_signed_spec.
  - intros p n e i H Hi Hr. rewrite (uid_parse_node _ _ _ H), Hi.
    apply uid_from_signed_spec, Hr.
  - intros p w e i H Hi Hr. rewrite (uid_parse_way _ _ _ H), Hi.
    apply uid_from_signed_spec, Hr.
  - intros p r e i H Hi Hr. rewrite (uid_parse_relation _ _ _ H), Hi.
    apply uid_from_signed_spec, Hr.
  - intros p d i id_i l l' e di H Hd Hr. rewrite (uid_dense_step _ _ _ _ _ _ _ H), Hd.
    apply uid_from_signed_spec, Hr.
  - apply uid_run.
Qed.

(** The block of the scenarios: its last node has the uid -1 on the wire
    and 0 in the buffer. *)
Lemma stored_uid_is_normalized_witness :
  exists out,
    run Scenario.ext "b" Scenario.all = Ret out
    /\ Forall uid_nonneg out
    /\ option_map (fun e => Object.uid (object_of e)) (nth_error out 2) = Some 0.
Proof.
  eexists. split; [vm_compute; reflexivity |]. split.
  - exact (proj2 (proj2 (proj2 (proj2 (proj2 stored_uid_is_normalized))))
                 Scenario.ext "b"%string Scenario.all _ eq_refl).
  - reflexivity.
Defined.

End UidClaim.

(** * Further properties *)

(** ** The UTF-8 decoder and encoder *)

Section Utf8Decoder.
Import StringUtil.

Ltac unbits :=
  rewrite ?land_0xff, ?land_0x3f, ?land_0x7ff, ?land_0xfff, ?land_0xffff,
    ?land_0x3ffff, ?land_0x1fffff;
  rewrite ?shiftr_lit, ?shiftl_lit by lia;
  unfold Int.to_uint32, Int.to_uint8, Int.to_unsigned.

Lemma sequence_length_lead (b : Z) :
  0 <= b <= 255 -> utf8_sequence_length b = lead_length b.
Proof.
  intros H. unfold lead_length.
  destruct (Z.ltb_spec b 0x80); [apply sequence_length_1; lia |].
  destruct (Z.ltb_spec b 0xc0).
  { unfold utf8_sequence_length.
    destruct (Z.ltb_spec b 0x80); [lia |].
    rewrite !shiftr_lit by lia.
    replace (b / 2 ^ 5 =? 6) with false by (symmetry; apply Z.eqb_neq; divmod).
    replace (b / 2 ^ 4 =? 14) with false by (symmetry; apply Z.eqb_neq; divmod).
    replace (b / 2 ^ 3 =? 30) with false by (symmetry; apply Z.eqb_neq; divmod).
    reflexivity. }
  destruct (Z.ltb_spec b 0xe0); [apply sequence_length_2; lia |].
  destruct (Z.ltb_spec b 0xf0); [apply sequence_length_3; lia |].
  destruct (Z.ltb_spec b 0xf8); [apply sequence_length_4; lia |].
  unfold utf8_sequence_length.
  destruct (Z.ltb_spec b 0x80); [lia |].
  rewrite !shiftr_lit by lia.
  replace (b / 2 ^ 5 =? 6) with false by (symmetry; apply Z.eqb_neq; divmod).
  replace (b / 2 ^ 4 =? 14) with false by (symmetry; apply Z.eqb_neq; divmod).
  replace (b / 2 ^ 3 =? 30) with false by (symmetry; apply Z.eqb_neq; divmod).
  reflexivity.
Qed.

Lemma lead_length_cases (b : Z) :
  0 <= b <= 255 ->
  (lead_length b = 0 /\ (0x80 <= b < 0xc0 \/ 0xf8 <= b))
  \/ (lead_length b = 1 /\ b < 0x80)
  \/ (lead_length b = 2 /\ 0xc0 <= b < 0xe0)
  \/ (lead_length b = 3 /\ 0xe0 <= b < 0xf0)
  \/ (lead_length b = 4 /\ 0xf0 <= b < 0xf8).
Proof.
  intros H. unfold lead_length.
  destruct (Z.ltb_spec b 0x80); [right; left; split; [reflexivity | lia] |].
  destruct (Z.ltb_spec b 0xc0); [left; split; [reflexivity | lia] |].
  destruct (Z.ltb_spec b 0xe0); [right; right; left; split; [reflexivity | lia] |].
  destruct (Z.ltb_spec b 0xf0); [right; right; right; left; split; [reflexivity | lia] |].
  destruct (Z.ltb_spec b 0xf8); [right; right; right; right; split; [reflexivity | lia] |].
  left. split; [reflexivity | lia].
Qed.

Lemma next_codepoint_outcome (b0 : Z) (s1 : bytes) :
  0 <= b0 <= 255 ->
  next_utf8_codepoint (b0 :: s1)
  = if lead_length b0 =? 0 then Throw "invalid Unicode codepoint"
    else if size (b0 :: s1) <? lead_length b0 then Throw "incomplete Unicode codepoint"
    else Ret (decoded (b0 :: s1), skipn (Z.to_nat (lead_length b0)) (b0 :: s1)).
Proof.
  intros H. unfold next_utf8_codepoint.
  rewrite land_0xff, (Z.mod_small b0 256), sequence_length_lead by lia.
  destruct (lead_length_cases b0 H) as [[E R] | [[E R] | [[E R] | [[E R] | [E R]]]]];
    unfold decoded; rewrite E; cbn [Z.eqb Pos.eqb Z.to_nat Pos.to_nat Pos.iter_op Nat.add skipn];
    try reflexivity.
  - destruct (Z.ltb_spec (size (b0 :: s1)) 2) as [L | L]; [reflexivity |].
    destruct s1 as [| b1 s2]; [unfold size in L; cbn in L; lia |].
    cbn [skipn]. unbits. unfold payload. do 2 f_equal. divmod.
  - destruct (Z.ltb_spec (size (b0 :: s1)) 3) as [L | L]; [reflexivity |].
    destruct s1 as [| b1 [| b2 s3]]; try (unfold size in L; cbn in L; lia).
    cbn [skipn]. unbits. unfold payload. do 2 f_equal. divmod.
  - destruct (Z.ltb_spec (size (b0 :: s1)) 4) as [L | L]; [reflexivity |].
    destruct s1 as [| b1 [| b2 [| b3 s4]]]; try (unfold size in L; cbn in L; lia).
    cbn [skipn]. unbits. unfold payload. do 2 f_equal. divmod.
Qed.

Lemma decoded_range (b0 : Z) (s1 : bytes) :
  0 <= b0 <= 255 -> lead_length b0 <> 0 -> 0 <= decoded (b0 :: s1) < 0x200000.
Proof.
  intros H N. unfold decoded, payload.
  destruct (lead_length_cases b0 H) as [[E R] | [[E R] | [[E R] | [[E R] | [E R]]]]];
    rewrite E; try congruence.
  - lia.
  - destruct s1 as [| b1 s2]; [lia |].
    pose proof (Z.mod_pos_bound b1 64 ltac:(lia)). lia.
  - destruct s1 as [| b1 [| b2 s3]]; try lia.
    pose proof (Z.mod_pos_bound b1 64 ltac:(lia)).
    pose proof (Z.mod_pos_bound b2 64 ltac:(lia)). lia.
  - destruct s1 as [| b1 [| b2 [| b3 s4]]]; try lia.
    pose proof (Z.mod_pos_bound b1 64 ltac:(lia)).
    pose proof (Z.mod_pos_bound b2 64 ltac:(lia)).
    pose proof (Z.mod_pos_bound b3 64 ltac:(lia)). lia.
Qed.

Lemma lead_length_2 (b : Z) : 0xc0 <= b < 0xe0 -> lead_length b = 2.
Proof.
  intros H. unfold lead_length.
  destruct (Z.ltb_spec b 0x80); [lia |]. destruct (Z.ltb_spec b 0xc0); [lia |].
  destruct (Z.ltb_spec b 0xe0); [reflexivity | lia].
Qed.

Lemma lead_length_3 (b : Z) : 0xe0 <= b < 0xf0 -> lead_length b = 3.
Proof.
  intros H. unfold lead_length.
  destruct (Z.ltb_spec b 0x80); [lia |]. destruct (Z.ltb_spec b 0xc0); [lia |].
  destruct (Z.ltb_spec b 0xe0); [lia |].
  destruct (Z.ltb_spec b 0xf0); [reflexivity | lia].
Qed.

Lemma lead_length_4 (b : Z) : 0xf0 <= b < 0xf8 -> lead_length b = 4.
Proof.
  intros H. unfold lead_length.
  destruct (Z.ltb_spec b 0x80); [lia |]. destruct (Z.ltb_spec b 0xc0); [lia |].
  destruct (Z.ltb_spec b 0xe0); [lia |]. destruct (Z.ltb_spec b 0xf0); [lia |].
  destruct (Z.ltb_spec b 0xf8); [reflexivity | lia].
Qed.

Lemma size_cons (b : Z) (s : bytes) : size (b :: s) = 1 + size s.
Proof. unfold size. cbn [List.length]. lia. Qed.

Lemma size_nonneg (s : bytes) : 0 <= size s.
Proof. unfold size. lia. Qed.

(** What is read from two, three and four bytes, whatever the bytes after
    the lead byte are. *)
Lemma decode_2 (b0 b1 : Z) (rest : bytes) :
  0xc0 <= b0 < 0xe0 ->
  next_utf8_codepoint (b0 :: b1 :: rest) = Ret ((b0 - 0xc0) * 64 + b1 mod 64, rest).
Proof.
  intros H. rewrite next_codepoint_outcome by lia.
  unfold decoded. rewrite (lead_length_2 b0 H), !size_cons.
  pose proof (size_nonneg rest).
  destruct (Z.ltb_spec (1 + (1 + size rest)) 2); [lia |]. reflexivity.
Qed.

Lemma decode_3 (b0 b1 b2 : Z) (rest : bytes) :
  0xe0 <= b0 < 0xf0 ->
  next_utf8_codepoint (b0 :: b1 :: b2 :: rest)
  = Ret ((b0 - 0xe0) * 4096 + b1 mod 64 * 64 + b2 mod 64, rest).
Proof.
  intros H. rewrite next_codepoint_outcome by lia.
  unfold decoded. rewrite (lead_length_3 b0 H), !size_cons.
  pose proof (size_nonneg rest).
  destruct (Z.ltb_spec (1 + (1 + (1 + size rest))) 3); [lia |]. reflexivity.
Qed.

Lemma decode_4 (b0 b1 b2 b3 : Z) (rest : bytes) :
  0xf0 <= b0 < 0xf8 ->
  next_utf8_codepoint (b0 :: b1 :: b2 :: b3 :: rest)
  = Ret ((b0 - 0xf0) * 262144 + b1 mod 64 * 4096 + b2 mod 64 * 64 + b3 mod 64, rest).
Proof.
  intros H. rewrite next_codepoint_outcome by lia.
  unfold decoded. rewrite (lead_length_4 b0 H), !size_cons.
  pose proof (size_nonneg rest).
  destruct (Z.ltb_spec (1 + (1 + (1 + (1 + size rest)))) 4); [lia |]. reflexivity.
Qed.

End Utf8Decoder.

Section Utf8Encoder.
Import StringUtil.

Ltac unbits :=
  rewrite ?land_0xff, ?land_0x3f, ?land_0x7ff, ?land_0xfff, ?land_0xffff,
    ?land_0x3ffff, ?land_0x1fffff;
  rewrite ?shiftr_lit, ?shiftl_lit by lia;
  unfold Int.to_uint32, Int.to_uint8, Int.to_unsigned.

Ltac pows :=
  change (2 ^ 6) with 64 in *; change (2 ^ 12) with 4096 in *;
  change (2 ^ 18) with 262144 in *; change (2 ^ 8) with 256 in *.

Ltac list_eq :=
  repeat (apply (f_equal2 (@cons Z)); [divmod |]); reflexivity.

Ltac pick_branch :=
  repeat match goal with
         | |- context [?a <? ?b] =>
           first [ replace (a <? b) with true by (symmetry; apply Z.ltb_lt; lia)
                 | replace (a <? b) with false by (symmetry; apply Z.ltb_ge; lia) ]
         end.

Lemma append_codepoint_prefix (cp : Z) (out : bytes) :
  append_codepoint_as_utf8 cp out = out ++ append_codepoint_as_utf8 cp [].
Proof.
  unfold append_codepoint_as_utf8.
  destruct (cp <? 0x80); [reflexivity |].
  destruct (cp <? 0x800); [reflexivity |].
  destruct (cp <? 0x10000); reflexivity.
Qed.

(** The bytes written for a code point below 0x200000. *)
Lemma append_codepoint_bytes (cp : Z) :
  0 <= cp < 0x200000 ->
  append_codepoint_as_utf8 cp []
  = if cp <? 0x80 then [cp]
    else if cp <? 0x800 then [0xc0 + cp / 64; 0x80 + cp mod 64]
    else if cp <? 0x10000 then
      [0xe0 + cp / 4096; 0x80 + (cp / 64) mod 64; 0x80 + cp mod 64]
    else [0xf0 + cp / 262144; 0x80 + (cp / 4096) mod 64; 0x80 + (cp / 64) mod 64;
          0x80 + cp mod 64].
Proof.
  intros H. unfold append_codepoint_as_utf8, to_char. cbn [app].
  destruct (Z.ltb_spec cp 0x80).
  { unbits. pows. rewrite Z.mod_small by lia. reflexivity. }
  destruct (Z.ltb_spec cp 0x800).
  { unbits. pows. rewrite lor_0xc0, lor_0x80 by divmod.
    rewrite !(Z.mod_small _ 256) by divmod.
    list_eq. }
  destruct (Z.ltb_spec cp 0x10000).
  { unbits. pows. rewrite lor_0xe0, !lor_0x80 by divmod.
    rewrite !(Z.mod_small _ 256) by divmod.
    list_eq. }
  unbits. pows. rewrite lor_0xf0, !lor_0x80 by divmod.
  rewrite !(Z.mod_small _ 256) by divmod.
  list_eq.
Qed.

Lemma append_codepoint_shortest_form (cp : Z) :
  0 <= cp < 0x200000 ->
  shortest_form (append_codepoint_as_utf8 cp []) = true
  /\ encoded_codepoint (append_codepoint_as_utf8 cp []) = cp.
Proof.
  intros H. rewrite (append_codepoint_bytes cp H).
  destruct (Z.ltb_spec cp 0x80).
  { split; [| reflexivity]. cbn [shortest_form].
    apply andb_true_intro. split; [apply Z.leb_le | apply Z.ltb_lt]; lia. }
  destruct (Z.ltb_spec cp 0x800).
  { split; [| cbn [encoded_codepoint]; divmod].
    cbn [shortest_form]. unfold is_continuation.
    repeat (apply andb_true_intro; split); apply Z.leb_le; divmod. }
  destruct (Z.ltb_spec cp 0x10000).
  { split; [| cbn [encoded_codepoint]; divmod].
    cbn [shortest_form]. unfold is_continuation.
    repeat (apply andb_true_intro; split); try (apply Z.leb_le; divmod).
    apply negb_true_iff, andb_false_iff.
    destruct (Z.eqb_spec (0xe0 + cp / 4096) 0xe0); [right | left; reflexivity].
    apply Z.ltb_ge. divmod. }
  split; [| cbn [encoded_codepoint]; divmod].
  cbn [shortest_form]. unfold is_continuation.
  repeat (apply andb_true_intro; split); try (apply Z.leb_le; divmod).
  apply negb_true_iff, andb_false_iff.
  destruct (Z.eqb_spec (0xf0 + cp / 262144) 0xf0); [right | left; reflexivity].
  apply Z.ltb_ge. divmod.
Qed.

Lemma encode_then_decode (cp : Z) (rest : bytes) :
  0 <= cp < 0x200000 ->
  next_utf8_codepoint (append_codepoint_as_utf8 cp [] ++ rest) = Ret (cp, rest).
Proof.
  intros H. destruct (append_codepoint_shortest_form cp H) as [S E].
  rewrite (decode_shortest_form _ rest S), E. reflexivity.
Qed.

(** The first byte written for a code point is a byte. *)
Lemma append_codepoint_head (cp : Z) :
  exists b0 s1, append_codepoint_as_utf8 cp [] = b0 :: s1 /\ 0 <= b0 <= 255.
Proof.
  unfold append_codepoint_as_utf8, to_char, Int.to_uint8, Int.to_unsigned. cbn [app].
  change (2 ^ 8) with 256.
  destruct (cp <? 0x80); [| destruct (cp <? 0x800); [| destruct (cp <? 0x10000)]];
    eexists; eexists; (split; [reflexivity |]);
    match goal with |- 0 <= ?x mod 256 <= 255 =>
                    pose proof (Z.mod_pos_bound x 256 ltac:(lia)); lia end.
Qed.

Lemma encode_beyond_range (cp : Z) (rest : bytes) :
  0x200000 <= cp ->
  next_utf8_codepoint (append_codepoint_as_utf8 cp [] ++ rest) <> Ret (cp, rest).
Proof.
  intros H. destruct (append_codepoint_head cp) as [b0 [s1 [E R]]].
  rewrite E. cbn [app]. rewrite (next_codepoint_outcome b0 (s1 ++ rest) R).
  destruct (Z.eqb_spec (lead_length b0) 0) as [Z0 | N]; [discriminate |].
  destruct (size (b0 :: s1 ++ rest) <? lead_length b0); [discriminate |].
  intros C. injection C as C _.
  change (decoded (b0 :: s1 ++ rest) = cp) in C.
  pose proof (decoded_range b0 (s1 ++ rest) R N) as B. rewrite C in B. lia.
Qed.

End Utf8Encoder.


Section Utf8Claims.
Import StringUtil.

(** X1: on a buffer that starts with a byte, [next_utf8_codepoint] never
    reads beyond the end.  It throws "invalid Unicode codepoint" when the
    first byte is a continuation byte (0x80..0xbf) or above 0xf7, throws
    "incomplete Unicode codepoint" when fewer bytes are left than the first
    byte announces, and otherwise consumes exactly the announced number of
    bytes and returns a code point below 0x200000 made of the payload bits
    of the lead byte and the low six bits of each following byte. *)
Theorem next_codepoint_outcomes (b0 : Z) (s1 : bytes) :
  0 <= b0 <= 255 ->
  (0x80 <= b0 < 0xc0 \/ 0xf8 <= b0 ->
   next_utf8_codepoint (b0 :: s1) = Throw "invalid Unicode codepoint")
  /\ (lead_length b0 <> 0 -> size (b0 :: s1) < lead_length b0 ->
      next_utf8_codepoint (b0 :: s1) = Throw "incomplete Unicode codepoint")
  /\ (lead_length b0 <> 0 -> lead_length b0 <= size (b0 :: s1) ->
      next_utf8_codepoint (b0 :: s1)
      = Ret (decoded (b0 :: s1), skipn (Z.to_nat (lead_length b0)) (b0 :: s1))
      /\ 0 <= decoded (b0 :: s1) < 0x200000).
Proof.
  intros H. rewrite (next_codepoint_outcome b0 s1 H). split; [| split].
  - intros R.
    replace (lead_length b0) with 0; [reflexivity |].
    destruct (lead_length_cases b0 H) as [[E _] | [[_ R'] | [[_ R'] | [[_ R'] | [_ R']]]]];
      [symmetry; exact E | lia ..].
  - intros N L.
    destruct (Z.eqb_spec (lead_length b0) 0); [contradiction |].
    destruct (Z.ltb_spec (size (b0 :: s1)) (lead_length b0)); [reflexivity | lia].
  - intros N L.
    destruct (Z.eqb_spec (lead_length b0) 0); [contradiction |].
    destruct (Z.ltb_spec (size (b0 :: s1)) (lead_length b0)); [lia |].
    split; [reflexivity | apply decoded_range; assumption].
Qed.

(** A three-byte lead with one byte after it. *)
Lemma next_codepoint_outcomes_witness :
  0 <= 0xe2 <= 255
  /\ lead_length 0xe2 <> 0
  /\ size [0xe2; 0x82] < lead_length 0xe2
  /\ next_utf8_codepoint [0xe2; 0x82] = Throw "incomplete Unicode codepoint".
Proof.
  assert (R : 0 <= 0xe2 <= 255) by lia.
  assert (N : lead_length 0xe2 <> 0) by discriminate.
  assert (L : size [0xe2; 0x82] < lead_length 0xe2) by reflexivity.
  split; [exact R |]. split; [exact N |]. split; [exact L |].
  exact (proj1 (proj2 (next_codepoint_outcomes 0xe2 [0x82] R)) N L).
Defined.

(** X2: for every code point below 0x200000, [append_codepoint_as_utf8]
    appends a shortest-form sequence that encodes the code point, and
    [next_utf8_codepoint] reads the code point back from it and leaves what
    follows untouched.  From 0x200000 on the round trip fails: what is read
    back is never the code point that was written. *)
Theorem encode_decode_round_trip (cp : Z) (out rest : bytes) :
  0 <= cp ->
  append_codepoint_as_utf8 cp out = out ++ append_codepoint_as_utf8 cp []
  /\ (cp < 0x200000 ->
      shortest_form (append_codepoint_as_utf8 cp []) = true
      /\ encoded_codepoint (append_codepoint_as_utf8 cp []) = cp
      /\ next_utf8_codepoint (append_codepoint_as_utf8 cp [] ++ rest) = Ret (cp, rest))
  /\ (0x200000 <= cp ->
      next_utf8_codepoint (append_codepoint_as_utf8 cp [] ++ rest) <> Ret (cp, rest)).
Proof.
  intros H. split; [apply append_codepoint_prefix |]. split.
  - intros L. assert (R : 0 <= cp < 0x200000) by lia.
    destruct (append_codepoint_shortest_form cp R) as [S E].
    split; [exact S |]. split; [exact E |]. apply encode_then_decode, R.
  - apply encode_beyond_range.
Qed.

(** U+1F600, four bytes. *)
Lemma encode_decode_round_trip_witness :
  0 <= 0x1f600
  /\ append_codepoint_as_utf8 0x1f600 [] = [0xf0; 0x9f; 0x98; 0x80]
  /\ next_utf8_codepoint (append_codepoint_as_utf8 0x1f600 [] ++ [0x41])
     = Ret (0x1f600, [0x41]).
Proof.
  assert (H : 0 <= 0x1f600) by lia.
  split; [exact H |]. split; [reflexivity |].
  apply (proj1 (proj2 (encode_decode_round_trip 0x1f600 [] [0x41] H))). lia.
Defined.

(** X3: [next_utf8_codepoint] accepts overlong forms: a code point that has
    a shorter encoding is also read from the two-, three- and four-byte
    sequences that carry its bits, none of which is in shortest form. *)
Theorem overlong_forms_are_read (cp : Z) (rest : bytes) :
  0 <= cp ->
  (cp < 0x80 ->
   next_utf8_codepoint ([0xc0 + cp / 64; 0x80 + cp mod 64] ++ rest) = Ret (cp, rest)
   /\ shortest_form [0xc0 + cp / 64; 0x80 + cp mod 64] = false)
  /\ (cp < 0x800 ->
      next_utf8_codepoint ([0xe0; 0x80 + cp / 64; 0x80 + cp mod 64] ++ rest)
      = Ret (cp, rest)
      /\ shortest_form [0xe0; 0x80 + cp / 64; 0x80 + cp mod 64] = false)
  /\ (cp < 0x10000 ->
      next_utf8_codepoint
        ([0xf0; 0x80 + cp / 4096; 0x80 + (cp / 64) mod 64; 0x80 + cp mod 64] ++ rest)
      = Ret (cp, rest)
      /\ shortest_form [0xf0; 0x80 + cp / 4096; 0x80 + (cp / 64) mod 64; 0x80 + cp mod 64]
         = false).
Proof.
  intros H. split; [| split]; intros L.
  - split.
    + cbn [app]. rewrite decode_2 by divmod. do 2 f_equal. divmod.
    + cbn [shortest_form].
      replace (0xc2 <=? 0xc0 + cp / 64) with false; [reflexivity |].
      symmetry. apply Z.leb_gt. divmod.
  - split.
    + cbn [app]. rewrite decode_3 by lia. do 2 f_equal. divmod.
    + cbn [shortest_form].
      replace (0x80 + cp / 64 <? 0xa0) with true by (symmetry; apply Z.ltb_lt; divmod).
      change (0xe0 =? 0xe0) with true. cbn [andb negb]. apply andb_false_r.
  - split.
    + cbn [app]. rewrite decode_4 by lia. do 2 f_equal. divmod.
    + cbn [shortest_form].
      replace (0x80 + cp / 4096 <? 0x90) with true by (symmetry; apply Z.ltb_lt; divmod).
      change (0xf0 =? 0xf0) with true. cbn [andb negb]. apply andb_false_r.
Qed.

(** The slash, U+002F, read from [0xc0; 0xaf]. *)
Lemma overlong_forms_are_read_witness :
  0 <= 0x2f
  /\ next_utf8_codepoint [0xc0; 0xaf] = Ret (0x2f, [])
  /\ next_utf8_codepoint [0x2f] = Ret (0x2f, []).
Proof.
  assert (H : 0 <= 0x2f) by lia.
  split; [exact H |]. split; [| reflexivity].
  apply (proj1 (proj1 (overlong_forms_are_read 0x2f [] H) ltac:(lia))).
Defined.

End Utf8Claims.

(** ** Hexadecimal digits *)

Section Hex.
Import StringUtil.

Lemma small_cases (P : Z -> Prop) (n : nat) :
  (forall k, (k < n)%nat -> P (Z.of_nat k)) -> forall i, 0 <= i < Z.of_nat n -> P i.
Proof. intros H i Hi. rewrite <- (Z2Nat.id i) by lia. apply H. lia. Qed.

Lemma hex_table_lower : hex_table lookup_hex_lower.
Proof.
  unfold hex_table. apply (small_cases _ 16). intros k Hk.
  do 16 (destruct k as [| k]; [reflexivity |]). lia.
Qed.

Lemma hex_table_upper : hex_table lookup_hex_upper.
Proof.
  unfold hex_table. apply (small_cases _ 16). intros k Hk.
  do 16 (destruct k as [| k]; [reflexivity |]). lia.
Qed.

Lemma land_nibble (v k : Z) :
  0 <= k -> Z.land v (15 * 2 ^ k) = ((v / 2 ^ k) mod 16) * 2 ^ k.
Proof.
  intros Hk.
  replace ((v / 2 ^ k) mod 16) with (Z.land (v / 2 ^ k) 15)
    by (apply (land_low_mask _ 4); lia).
  rewrite <- Z.shiftr_div_pow2, <- !Z.shiftl_mul_pow2 by lia.
  apply Z.bits_inj'. intros n Hn.
  rewrite Z.land_spec.
  destruct (Z.lt_ge_cases n k) as [L | G].
  - rewrite !Z.shiftl_spec_low by lia. apply andb_false_r.
  - rewrite !Z.shiftl_spec, Z.land_spec, Z.shiftr_spec by lia.
    replace (n - k + k) with n by lia. reflexivity.
Qed.

Lemma nibble_range (v k : Z) : 0 <= (v / 2 ^ k) mod 16 < 16.
Proof. apply Z.mod_pos_bound. lia. Qed.

(** The digit of a masked nibble, and the test that skips it. *)
Lemma masked_digit (v k : Z) :
  0 <= k ->
  Z.shiftr (Z.land v (15 * 2 ^ k)) k = (v / 2 ^ k) mod 16
  /\ (Z.land v (15 * 2 ^ k) =? 0) = ((v / 2 ^ k) mod 16 =? 0).
Proof.
  intros Hk. rewrite (land_nibble v k Hk).
  assert (P : 0 < 2 ^ k) by (apply Z.pow_pos_nonneg; lia).
  split.
  - rewrite Z.shiftr_div_pow2 by lia. apply Z.div_mul. lia.
  - destruct (Z.eqb_spec ((v / 2 ^ k) mod 16) 0) as [E | N].
    + rewrite E. reflexivity.
    + apply Z.eqb_neq. nia.
Qed.

Lemma low_digit (v k : Z) :
  0 <= k -> Z.land (Z.shiftr v k) 0xf = (v / 2 ^ k) mod 16.
Proof.
  intros Hk. rewrite Z.shiftr_div_pow2 by lia. apply (land_low_mask _ 4). lia.
Qed.

Lemma append_min_4_digits (out : bytes) (v : Z) (t : bytes) :
  append_min_4_hex_digits out v t
  = out ++ map (digit t)
               (optional_digit ((v / 2 ^ 28) mod 16)
                ++ optional_digit ((v / 2 ^ 24) mod 16)
                ++ optional_digit ((v / 2 ^ 20) mod 16)
                ++ optional_digit ((v / 2 ^ 16) mod 16)
                ++ [(v / 2 ^ 12) mod 16; (v / 2 ^ 8) mod 16; (v / 2 ^ 4) mod 16; v mod 16]).
Proof.
  unfold append_min_4_hex_digits.
  change 0xf0000000 with (15 * 2 ^ 28). change 0x0f000000 with (15 * 2 ^ 24).
  change 0x00f00000 with (15 * 2 ^ 20). change 0x000f0000 with (15 * 2 ^ 16).
  destruct (masked_digit v 28 ltac:(lia)) as [-> ->].
  destruct (masked_digit v 24 ltac:(lia)) as [-> ->].
  destruct (masked_digit v 20 ltac:(lia)) as [-> ->].
  destruct (masked_digit v 16 ltac:(lia)) as [-> ->].
  rewrite !low_digit by lia.
  replace (Z.land v 15) with (v mod 16) by (symmetry; apply (land_low_mask v 4); lia).
  unfold optional_digit.
  destruct (_ =? 0); destruct (_ =? 0); destruct (_ =? 0); destruct (_ =? 0);
    cbn [app map]; rewrite <- ?app_assoc; reflexivity.
Qed.

Lemma append_2_digits (out : bytes) (v : Z) (t : bytes) :
  append_2_hex_digits out v t = out ++ map (digit t) [(v / 2 ^ 4) mod 16; v mod 16].
Proof.
  unfold append_2_hex_digits. rewrite low_digit by lia.
  replace (Z.land v 15) with (v mod 16) by (symmetry; apply (land_low_mask v 4); lia).
  rewrite <- app_assoc. reflexivity.
Qed.

Variable t : bytes.
Hypothesis Ht : hex_table t.

Lemma hex_value_digits (ds : list Z) :
  Forall (fun d => 0 <= d < 16) ds ->
  forall a, fold_left (fun acc c => match acc, hex_char_value c with
                                    | Some a, Some d => Some (a * 16 + d)
                                    | _, _ => None
                                    end) (map (digit t) ds) (Some a)
            = Some (fold_left (fun a d => a * 16 + d) ds a).
Proof.
  induction 1 as [| d ds Hd _ IH]; intros a; [reflexivity |].
  cbn [map fold_left]. rewrite (Ht d Hd). apply IH.
Qed.

End Hex.

Lemma div_nibble (v k j : Z) :
  0 <= k -> j = k + 4 -> v / 2 ^ k = 16 * (v / 2 ^ j) + (v / 2 ^ k) mod 16.
Proof.
  intros Hk ->. rewrite Z.pow_add_r by lia. change (2 ^ 4) with 16.
  rewrite <- Z.div_div by lia. apply Z.div_mod. lia.
Qed.

(** The eight nibbles of a 32-bit value. *)
Lemma nibbles_of (v : Z) :
  0 <= v < 2 ^ 32 ->
  v = (v / 2 ^ 28) mod 16 * 268435456 + (v / 2 ^ 24) mod 16 * 16777216
      + (v / 2 ^ 20) mod 16 * 1048576 + (v / 2 ^ 16) mod 16 * 65536
      + (v / 2 ^ 12) mod 16 * 4096 + (v / 2 ^ 8) mod 16 * 256
      + (v / 2 ^ 4) mod 16 * 16 + v mod 16.
Proof.
  intros Hv.
  pose proof (div_nibble v 0 4 ltac:(lia) eq_refl) as E0.
  pose proof (div_nibble v 4 8 ltac:(lia) eq_refl) as E4.
  pose proof (div_nibble v 8 12 ltac:(lia) eq_refl) as E8.
  pose proof (div_nibble v 12 16 ltac:(lia) eq_refl) as E12.
  pose proof (div_nibble v 16 20 ltac:(lia) eq_refl) as E16.
  pose proof (div_nibble v 20 24 ltac:(lia) eq_refl) as E20.
  pose proof (div_nibble v 24 28 ltac:(lia) eq_refl) as E24.
  pose proof (div_nibble v 28 32 ltac:(lia) eq_refl) as E28.
  rewrite (Z.div_small v (2 ^ 32)) in E28 by lia.
  change (2 ^ 0) with 1 in E0. rewrite Z.div_1_r in E0.
  lia.
Qed.

Section HexClaims.
Import StringUtil.

Ltac nibble_facts v :=
  pose proof (nibbles_of v ltac:(change (2 ^ 32) with 4294967296; lia));
  pose proof (nibble_range v 28); pose proof (nibble_range v 24);
  pose proof (nibble_range v 20); pose proof (nibble_range v 16);
  pose proof (nibble_range v 12); pose proof (nibble_range v 8);
  pose proof (nibble_range v 4);
  pose proof (Z.mod_pos_bound v 16 ltac:(lia)).

Ltac zero_nibble n := replace n with 0 by lia; cbn [optional_digit Z.eqb app].

Ltac digits_ok := repeat (constructor; [lia |]); constructor.

(** X4: with a table of the sixteen hexadecimal digits,
    [append_2_hex_digits] appends two digits whose value is the low byte
    of the value; [append_min_4_hex_digits] appends four digits of value
    [v] for [v] below 0x10000 and five for [v] below 0x100000.  For [v]
    from 0x100000 to 0x10ffff it appends five digits, not six: the digit 0
    after the leading 1 is left out, and what is written reads
    [v - 0xf0000]. *)
Theorem hex_digits_written (t out : bytes) (v : Z) :
  hex_table t ->
  (0 <= v < 0x100000000 ->
   exists ds, append_2_hex_digits out v t = out ++ ds
              /\ List.length ds = 2%nat /\ hex_value ds = Some (v mod 256))
  /\ (0 <= v < 0x10000 ->
      exists ds, append_min_4_hex_digits out v t = out ++ ds
                 /\ List.length ds = 4%nat /\ hex_value ds = Some v)
  /\ (0x10000 <= v < 0x100000 ->
      exists ds, append_min_4_hex_digits out v t = out ++ ds
                 /\ List.length ds = 5%nat /\ hex_value ds = Some v)
  /\ (0x100000 <= v < 0x110000 ->
      exists ds, append_min_4_hex_digits out v t = out ++ ds
                 /\ List.length ds = 5%nat /\ hex_value ds = Some (v - 0xf0000)).
Proof.
  intros Ht. split; [| split; [| split]]; intros Hv; nibble_facts v.
  - rewrite append_2_digits. eexists. split; [reflexivity |]. split; [reflexivity |].
    unfold hex_value. rewrite (hex_value_digits t Ht) by digits_ok.
    cbn [fold_left]. f_equal.
    assert (E : v mod 256 = (v / 2 ^ 4) mod 16 * 16 + v mod 16).
    { symmetry. apply Z.mod_unique_pos with
        (q := (v / 2 ^ 28) mod 16 * 1048576 + (v / 2 ^ 24) mod 16 * 65536
              + (v / 2 ^ 20) mod 16 * 4096 + (v / 2 ^ 16) mod 16 * 256
              + (v / 2 ^ 12) mod 16 * 16 + (v / 2 ^ 8) mod 16); lia. }
    lia.
  - rewrite append_min_4_digits.
    zero_nibble ((v / 2 ^ 28) mod 16). zero_nibble ((v / 2 ^ 24) mod 16).
    zero_nibble ((v / 2 ^ 20) mod 16). zero_nibble ((v / 2 ^ 16) mod 16).
    eexists. split; [reflexivity |]. split; [reflexivity |].
    unfold hex_value. rewrite (hex_value_digits t Ht) by digits_ok.
    cbn [fold_left]. f_equal. lia.
  - rewrite append_min_4_digits.
    zero_nibble ((v / 2 ^ 28) mod 16). zero_nibble ((v / 2 ^ 24) mod 16).
    zero_nibble ((v / 2 ^ 20) mod 16).
    unfold optional_digit.
    replace ((v / 2 ^ 16) mod 16 =? 0) with false by (symmetry; apply Z.eqb_neq; lia).
    cbn [app].
    eexists. split; [reflexivity |]. split; [reflexivity |].
    unfold hex_value. rewrite (hex_value_digits t Ht) by digits_ok.
    cbn [fold_left]. f_equal. lia.
  - rewrite append_min_4_digits.
    zero_nibble ((v / 2 ^ 28) mod 16). zero_nibble ((v / 2 ^ 24) mod 16).
    zero_nibble ((v / 2 ^ 16) mod 16).
    replace ((v / 2 ^ 20) mod 16) with 1 by lia.
    cbn [optional_digit Z.eqb app].
    eexists. split; [reflexivity |]. split; [reflexivity |].
    unfold hex_value. rewrite (hex_value_digits t Ht) by digits_ok.
    cbn [fold_left]. f_equal. lia.
Qed.

Lemma hex_digits_written_witness :
  hex_table lookup_hex_lower
  /\ exists ds, append_min_4_hex_digits [] 0x10ffff lookup_hex_lower = [] ++ ds
                /\ List.length ds = 5%nat /\ hex_value ds = Some 0x1ffff.
Proof.
  split; [exact hex_table_lower |].
  apply (hex_digits_written lookup_hex_lower [] 0x10ffff hex_table_lower). lia.
Defined.

End HexClaims.

(** ** XML escaping *)

Section Xml.
Import StringUtil.

Lemma append_xml_entities (data out : bytes) :
  append_xml_encoded_string out data = out ++ flat_map xml_entity (c_bytes data).
Proof.
  revert out. induction data as [| c data IH]; intros out.
  - cbn. rewrite app_nil_r. reflexivity.
  - cbn [append_xml_encoded_string c_bytes].
    destruct (Z.eqb_spec c 0) as [Z0 | N0]; [cbn; rewrite app_nil_r; reflexivity |].
    rewrite IH. cbn [flat_map]. rewrite app_assoc. f_equal.
    unfold xml_entity.
    repeat match goal with |- context [c =? ?k] => destruct (c =? k) end; reflexivity.
Qed.

Lemma c_bytes_no_nul (data : bytes) : Forall (fun c => c <> 0) (c_bytes data).
Proof.
  induction data as [| c data IH]; [constructor |].
  cbn [c_bytes]. destruct (Z.eqb_spec c 0); [constructor |]. constructor; assumption.
Qed.

Lemma xml_entity_clean (c : Z) :
  c <> 0 -> Forall (fun b => xml_markup b = false) (xml_entity c).
Proof.
  intros N. unfold xml_entity.
  repeat match goal with |- context [c =? ?k] => destruct (Z.eqb_spec c k) end;
    try (repeat constructor).
  unfold xml_markup.
  repeat match goal with |- context [c =? ?k] => destruct (Z.eqb_spec c k) end;
    try reflexivity; lia.
Qed.

Lemma xml_entity_plain (c : Z) : xml_special c = false -> xml_entity c = [c].
Proof.
  unfold xml_special, xml_markup, xml_entity.
  repeat match goal with |- context [c =? ?k] => destruct (Z.eqb_spec c k) end;
    cbn; try discriminate; reflexivity.
Qed.

Lemma xml_entity_injective (c1 c2 : Z) (r1 r2 : bytes) :
  xml_entity c1 ++ r1 = xml_entity c2 ++ r2 -> c1 = c2 /\ r1 = r2.
Proof.
  unfold xml_entity.
  repeat match goal with |- context [c1 =? ?k] => destruct (Z.eqb_spec c1 k) end;
    repeat match goal with |- context [c2 =? ?k] => destruct (Z.eqb_spec c2 k) end;
    cbn; intros H; try discriminate H;
    injection H as; subst; try lia; split; (reflexivity || assumption || lia).
Qed.

Lemma xml_entity_nonempty (c : Z) (r : bytes) : xml_entity c ++ r <> [].
Proof.
  unfold xml_entity.
  repeat match goal with |- context [c =? ?k] => destruct (c =? k) end; discriminate.
Qed.

Lemma xml_entities_injective (l1 l2 : bytes) :
  flat_map xml_entity l1 = flat_map xml_entity l2 -> l1 = l2.
Proof.
  revert l2. induction l1 as [| c1 l1 IH]; intros [| c2 l2] H; cbn [flat_map] in H.
  - reflexivity.
  - symmetry in H. apply xml_entity_nonempty in H. contradiction.
  - apply xml_entity_nonempty in H. contradiction.
  - apply xml_entity_injective in H. destruct H as [-> H]. f_equal. apply IH, H.
Qed.

(** X5: what [append_xml_encoded_string] appends, for any input, holds no
    quote, no apostrophe, no angle bracket, no newline, carriage return or
    tab and no NUL; what was in [out] stays in front; and a string
    without [&] and without these characters is appended as it is. *)
Theorem xml_encoding_has_no_markup (out data : bytes) :
  exists added,
    append_xml_encoded_string out data = out ++ added
    /\ Forall (fun b => xml_markup b = false) added
    /\ (forallb (fun c => negb (xml_special c)) (c_bytes data) = true ->
        added = c_bytes data).
Proof.
  exists (flat_map xml_entity (c_bytes data)).
  split; [apply append_xml_entities |]. split.
  - pose proof (c_bytes_no_nul data) as N.
    induction N as [| c l Hc _ IH]; [constructor |].
    cbn [flat_map]. apply Forall_app. split; [apply xml_entity_clean, Hc | exact IH].
  - generalize (c_bytes data) as l.
    induction l as [| c l IH]; [reflexivity |].
    cbn [forallb flat_map]. intros H. apply andb_prop in H. destruct H as [Hc Hl].
    rewrite xml_entity_plain by (apply negb_true_iff, Hc).
    cbn [app]. f_equal. apply IH, Hl.
Qed.

(** X6: [append_xml_encoded_string] loses nothing: two inputs for which it
    appends the same hold the same C string. *)
Theorem xml_encoding_is_injective (out data1 data2 : bytes) :
  append_xml_encoded_string out data1 = append_xml_encoded_string out data2 ->
  c_bytes data1 = c_bytes data2.
Proof.
  rewrite !append_xml_entities. intros H.
  apply app_inv_head in H. apply xml_entities_injective, H.
Qed.

(** The same string, once with bytes after the NUL. *)
Lemma xml_encoding_is_injective_witness :
  append_xml_encoded_string [] (literal "a<b" ++ [0; 0x3c])
  = append_xml_encoded_string [] (literal "a<b")
  /\ c_bytes (literal "a<b" ++ [0; 0x3c]) = c_bytes (literal "a<b").
Proof.
  assert (H : append_xml_encoded_string [] (literal "a<b" ++ [0; 0x3c])
              = append_xml_encoded_string [] (literal "a<b")) by reflexivity.
  split; [exact H |].
  exact (xml_encoding_is_injective [] _ _ H).
Defined.

End Xml.

(** ** OPL and debug escaping *)

Section EncodedLoop.
Import StringUtil.

Lemma next_codepoint_consumes (s rest : bytes) (c : Z) :
  next_utf8_codepoint s = Ret (c, rest) ->
  exists pre, s = pre ++ rest /\ (0 < List.length pre)%nat.
Proof.
  unfold next_utf8_codepoint.
  destruct s as [| b0 s1]; [discriminate |].
  destruct (_ =? 0); [discriminate |].
  destruct (_ <? _); [discriminate |].
  destruct (_ =? 1).
  { intros H. injection H as _ <-. exists [b0]. split; [reflexivity | cbn; lia]. }
  destruct (_ =? 2).
  { destruct s1 as [| b1 s2]; [discriminate |].
    intros H. injection H as _ <-. exists [b0; b1]. split; [reflexivity | cbn; lia]. }
  destruct (_ =? 3).
  { destruct s1 as [| b1 [| b2 s3]]; try discriminate.
    intros H. injection H as _ <-. exists [b0; b1; b2]. split; [reflexivity | cbn; lia]. }
  destruct s1 as [| b1 [| b2 [| b3 s4]]]; try discriminate.
  intros H. injection H as _ <-. exists [b0; b1; b2; b3]. split; [reflexivity | cbn; lia].
Qed.

Lemma firstn_consumed (pre rest : bytes) :
  firstn (List.length (pre ++ rest) - List.length rest) (pre ++ rest) = pre.
Proof.
  rewrite length_app.
  replace (List.length pre + List.length rest - List.length rest)%nat
    with (List.length pre + 0)%nat by lia.
  rewrite firstn_app_2. cbn [firstn]. apply app_nil_r.
Qed.

Variable plain : Z -> bool.
Variable escape : bytes -> Z -> bytes.

(** Fuel beyond the length of the data changes nothing. *)
Lemma encoded_loop_fuel (fuel1 : nat) :
  forall (fuel2 : nat) (out data : bytes),
    (List.length data <= fuel1)%nat -> (List.length data <= fuel2)%nat ->
    encoded_loop plain escape fuel1 out data = encoded_loop plain escape fuel2 out data.
Proof.
  induction fuel1 as [| fuel1 IH]; intros fuel2 out data L1 L2.
  - destruct data; [destruct fuel2; reflexivity | cbn in L1; lia].
  - destruct data as [| b0 s1]; [destruct fuel2; reflexivity |].
    destruct fuel2 as [| fuel2]; [cbn in L2; lia |].
    cbn [encoded_loop].
    destruct (next_utf8_codepoint (b0 :: s1)) as [[c rest] | | |] eqn:E; try reflexivity.
    destruct (next_codepoint_consumes _ _ _ E) as [pre [P Lp]].
    assert (Lr : (List.length rest < List.length (b0 :: s1))%nat)
      by (rewrite P, length_app; lia).
    cbn [List.length] in Lr, L1, L2.
    destruct (plain c); apply IH; lia.
Qed.

(** One turn of the loop. *)
Lemma encoded_loop_turn (pre rest out : bytes) (c : Z) (fuel : nat) :
  next_utf8_codepoint (pre ++ rest) = Ret (c, rest) ->
  (0 < List.length pre)%nat ->
  (List.length (pre ++ rest) <= fuel)%nat ->
  encoded_loop plain escape fuel out (pre ++ rest)
  = encoded_loop plain escape (List.length rest)
                 (if plain c then out ++ pre else escape out c) rest.
Proof.
  intros E Lp Lf. rewrite length_app in Lf.
  destruct fuel as [| fuel]; [lia |].
  destruct (pre ++ rest) as [| b0 s1] eqn:D.
  { destruct pre; [cbn in Lp; lia | discriminate]. }
  cbn [encoded_loop]. rewrite E. rewrite <- D, firstn_consumed.
  destruct (plain c); apply encoded_loop_fuel; lia.
Qed.

(** The loop always comes to an end: with the length of the data as fuel it
    returns what it appended after [out], or throws one of the two errors
    of [next_utf8_codepoint]. *)
Lemma encoded_loop_outcome (Hescape : forall out c, exists e, escape out c = out ++ e) :
  forall (fuel : nat) (out data : bytes),
    (List.length data <= fuel)%nat ->
    (exists added, encoded_loop plain escape fuel out data = Some (Ret (out ++ added)))
    \/ encoded_loop plain escape fuel out data = Some (Throw "invalid Unicode codepoint")
    \/ encoded_loop plain escape fuel out data
       = Some (Throw "incomplete Unicode codepoint").
Proof.
  induction fuel as [| fuel IH]; intros out data L.
  - destruct data; [| cbn in L; lia]. left. exists []. cbn. rewrite app_nil_r. reflexivity.
  - destruct data as [| b0 s1].
    { left. exists []. cbn. rewrite app_nil_r. reflexivity. }
    cbn [encoded_loop].
    destruct (next_utf8_codepoint (b0 :: s1)) as [[c rest] | what | what |] eqn:E.
    + destruct (next_codepoint_consumes _ _ _ E) as [pre [P Lp]].
      assert (Lr : (List.length rest <= fuel)%nat).
      { rewrite P, length_app in L. lia. }
      destruct (plain c).
      * destruct (IH (out ++ firstn (List.length (b0 :: s1) - List.length rest) (b0 :: s1))
                     rest Lr) as [[added A] | [A | A]]; rewrite A.
        -- left. eexists. rewrite <- app_assoc. reflexivity.
        -- right. left. reflexivity.
        -- right. right. reflexivity.
      * destruct (Hescape out c) as [e ->].
        destruct (IH (out ++ e) rest Lr) as [[added A] | [A | A]]; rewrite A.
        -- left. eexists. rewrite <- app_assoc. reflexivity.
        -- right. left. reflexivity.
        -- right. right. reflexivity.
    + revert E. unfold next_utf8_codepoint.
      destruct (_ =? 0); [intros H; injection H as <-; right; left; reflexivity |].
      destruct (_ <? _); [intros H; injection H as <-; right; right; reflexivity |].
      destruct (_ =? 1); [discriminate |].
      destruct (_ =? 2); [destruct s1; discriminate |].
      destruct (_ =? 3); [destruct s1 as [| ? [| ? ?]]; discriminate |].
      destruct s1 as [| ? [| ? [| ? ?]]]; discriminate.
    + exfalso. revert E. unfold next_utf8_codepoint.
      set (n := utf8_sequence_length (Z.land 0xff b0)).
      assert (Hn : n = 0 \/ n = 1 \/ n = 2 \/ n = 3 \/ n = 4).
      { unfold n, utf8_sequence_length.
        repeat match goal with |- context [if ?b then _ else _] => destruct b end; lia. }
      unfold size.
      destruct Hn as [-> | [-> | [-> | [-> | ->]]]]; cbn [Z.eqb Pos.eqb].
      * discriminate.
      * destruct (_ <? _); discriminate.
      * destruct (Z.ltb_spec (Z.of_nat (List.length (b0 :: s1))) 2); [discriminate |].
        destruct s1; [cbn in *; lia | discriminate].
      * destruct (Z.ltb_spec (Z.of_nat (List.length (b0 :: s1))) 3); [discriminate |].
        destruct s1 as [| ? [| ? ?]]; try (cbn in *; lia); discriminate.
      * destruct (Z.ltb_spec (Z.of_nat (List.length (b0 :: s1))) 4); [discriminate |].
        destruct s1 as [| ? [| ? [| ? ?]]]; try (cbn in *; lia); discriminate.
    + exfalso. revert E. unfold next_utf8_codepoint.
      repeat match goal with
             | |- context [if ?b then _ else _] => destruct b
             | |- context [match ?l with [] => _ | _ :: _ => _ end] => destruct l
             end; discriminate.
Qed.

End EncodedLoop.

Section Escapes.
Import StringUtil.

Lemma optional_digit_range (d : Z) :
  0 <= d < 16 -> Forall (fun d => 0 <= d < 16) (optional_digit d).
Proof. intros H. unfold optional_digit. destruct (d =? 0); repeat constructor; lia. Qed.

(** The digits of the two writers are digits of the table. *)
Lemma hex_digits_of (v : Z) :
  (exists ds, (forall out t, append_2_hex_digits out v t = out ++ map (digit t) ds)
              /\ Forall (fun d => 0 <= d < 16) ds)
  /\ (exists ds, (forall out t, append_min_4_hex_digits out v t = out ++ map (digit t) ds)
                 /\ Forall (fun d => 0 <= d < 16) ds).
Proof.
  pose proof (Z.mod_pos_bound v 16 ltac:(lia)) as R0.
  split.
  - eexists. split; [intros out t; apply append_2_digits |].
    repeat (apply Forall_cons; [first [apply nibble_range | exact R0] |]).
    apply Forall_nil.
  - eexists. split; [intros out t; apply append_min_4_digits |].
    repeat (apply Forall_app; split; [apply optional_digit_range, nibble_range |]).
    repeat (apply Forall_cons; [first [apply nibble_range | exact R0] |]).
    apply Forall_nil.
Qed.

Lemma opl_escape_prefix (out : bytes) (c : Z) :
  opl_escape out c = out ++ opl_escape [] c.
Proof.
  unfold opl_escape.
  destruct (hex_digits_of c) as [[d2 [E2 _]] [d4 [E4 _]]].
  destruct (c <=? 0xff); rewrite ?E2, ?E4, <- ?app_assoc; reflexivity.
Qed.

Lemma debug_escape_prefix (prefix suffix out : bytes) (c : Z) :
  debug_escape prefix suffix out c = out ++ debug_escape prefix suffix [] c.
Proof.
  unfold debug_escape.
  destruct (hex_digits_of c) as [_ [d4 [E4 _]]].
  rewrite !E4, <- ?app_assoc. reflexivity.
Qed.

Lemma c_bytes_app (a t : bytes) :
  Forall (fun b => b <> 0) a -> c_bytes (a ++ t) = a ++ c_bytes t.
Proof.
  induction 1 as [| b a Hb _ IH]; [reflexivity |].
  cbn [app c_bytes]. destruct (Z.eqb_spec b 0); [contradiction |]. f_equal. exact IH.
Qed.

(** The bytes of an encoded code point: the code point itself below 0x80,
    bytes from 0x80 to 0xf7 otherwise. *)
Lemma encoded_bytes (cp : Z) :
  0 <= cp < 0x200000 ->
  Forall (fun b => (cp < 0x80 /\ b = cp) \/ 0x80 <= b <= 0xf7)
         (append_codepoint_as_utf8 cp []).
Proof.
  intros H. rewrite (append_codepoint_bytes cp H).
  destruct (Z.ltb_spec cp 0x80); [apply Forall_cons; [left; lia | apply Forall_nil] |].
  destruct (Z.ltb_spec cp 0x800);
    [| destruct (Z.ltb_spec cp 0x10000)];
    repeat (apply Forall_cons; [right; divmod |]); apply Forall_nil.
Qed.

Lemma utf8_no_nul (cps : list Z) :
  Forall text_codepoint cps -> Forall (fun b => b <> 0) (utf8 cps).
Proof.
  induction 1 as [| cp cps Hcp _ IH]; [constructor |].
  unfold utf8. cbn [flat_map]. apply Forall_app. split; [| exact IH].
  unfold text_codepoint in Hcp.
  eapply Forall_impl; [| apply encoded_bytes; lia].
  cbn beta. intros b [[_ ->] | R]; lia.
Qed.

Lemma utf8_cons (cp : Z) (cps : list Z) :
  utf8 (cp :: cps) = append_codepoint_as_utf8 cp [] ++ utf8 cps.
Proof. reflexivity. Qed.

Variable plain : Z -> bool.
Variable escape : bytes -> Z -> bytes.
Hypothesis escape_prefix : forall out c, escape out c = out ++ escape [] c.

(** The loop on an encoded text followed by other data. *)
Lemma encoded_loop_text (cps : list Z) :
  forall (out rest : bytes),
    Forall text_codepoint cps ->
    encoded_loop plain escape (List.length (utf8 cps ++ rest)) out (utf8 cps ++ rest)
    = encoded_loop plain escape (List.length rest)
        (out ++ flat_map (fun cp => if plain cp then append_codepoint_as_utf8 cp []
                                    else escape [] cp) cps) rest.
Proof.
  induction cps as [| cp cps IH]; intros out rest H.
  - cbn. rewrite app_nil_r. reflexivity.
  - inversion H as [| ? ? Hcp Hcps]; subst. unfold text_codepoint in Hcp.
    rewrite utf8_cons, <- app_assoc.
    destruct (append_codepoint_head cp) as [b0 [s1 [E _]]].
    rewrite (encoded_loop_turn plain escape _ _ out cp).
    + rewrite IH by exact Hcps. cbn [flat_map]. rewrite app_assoc.
      destruct (plain cp); [reflexivity |]. rewrite escape_prefix. reflexivity.
    + apply encode_then_decode. lia.
    + rewrite E. cbn. lia.
    + lia.
Qed.

End Escapes.

Section EscapeClaims.
Import StringUtil.

(** Tests on numbers, as propositions. *)
Ltac props H :=
  rewrite ?orb_true_iff, ?andb_true_iff, ?Z.leb_le, ?Z.eqb_eq, ?Z.ltb_lt in H.

Ltac no_separator :=
  match goal with
  | |- opl_separator ?b = false =>
    let S := fresh "S" in
    destruct (opl_separator b) eqn:S; [exfalso; unfold opl_separator in S; props S
                                      | reflexivity]
  end.

Lemma opl_text (cps : list Z) (out rest : bytes) :
  Forall text_codepoint cps ->
  append_utf8_encoded_string out (utf8 cps ++ rest)
  = append_utf8_encoded_string (out ++ flat_map opl_char cps) rest.
Proof.
  intros H. unfold append_utf8_encoded_string. cbv zeta.
  rewrite c_bytes_app by (apply utf8_no_nul, H).
  apply (encoded_loop_text opl_plain opl_escape opl_escape_prefix cps out (c_bytes rest) H).
Qed.

Lemma debug_text (cps : list Z) (out rest prefix suffix : bytes) :
  Forall text_codepoint cps ->
  append_debug_encoded_string out (utf8 cps ++ rest) prefix suffix
  = append_debug_encoded_string
      (out ++ flat_map (debug_char (c_bytes prefix) (c_bytes suffix)) cps)
      rest prefix suffix.
Proof.
  intros H. unfold append_debug_encoded_string. cbv zeta.
  rewrite c_bytes_app by (apply utf8_no_nul, H).
  apply (encoded_loop_text debug_plain (debug_escape (c_bytes prefix) (c_bytes suffix))
                           (debug_escape_prefix _ _) cps out (c_bytes rest) H).
Qed.

Lemma opl_end (out rest : bytes) :
  c_bytes rest = [] -> append_utf8_encoded_string out rest = Some (Ret out).
Proof. intros E. unfold append_utf8_encoded_string. rewrite E. reflexivity. Qed.

Lemma debug_end (out rest prefix suffix : bytes) :
  c_bytes rest = [] -> append_debug_encoded_string out rest prefix suffix = Some (Ret out).
Proof. intros E. unfold append_debug_encoded_string. rewrite E. reflexivity. Qed.

Lemma lower_digit_no_separator (i : Z) :
  0 <= i < 16 -> opl_separator (digit lookup_hex_lower i) = false.
Proof.
  revert i. apply (small_cases _ 16). intros k Hk.
  do 16 (destruct k as [| k]; [vm_compute; reflexivity |]). lia.
Qed.

Lemma plain_no_separator (cp : Z) : opl_plain cp = true -> opl_separator cp = false.
Proof. intros P. unfold opl_plain in P. props P. no_separator. lia. Qed.

Lemma high_no_separator (b : Z) : 0x80 <= b -> opl_separator b = false.
Proof. intros H. no_separator. lia. Qed.

Lemma opl_char_no_separator (cp : Z) :
  text_codepoint cp -> Forall (fun b => opl_separator b = false) (opl_char cp).
Proof.
  intros H. unfold text_codepoint in H. unfold opl_char.
  destruct (opl_plain cp) eqn:P.
  - eapply Forall_impl; [| apply encoded_bytes; lia].
    cbn beta. intros b [[_ ->] | R].
    + apply plain_no_separator, P.
    + apply high_no_separator. lia.
  - unfold opl_escape.
    destruct (hex_digits_of cp) as [[d2 [E2 R2]] [d4 [E4 R4]]].
    assert (D : forall ds, Forall (fun d => 0 <= d < 16) ds ->
                           Forall (fun b => opl_separator b = false)
                                  (([] ++ [0x25]) ++ map (digit lookup_hex_lower) ds)).
    { intros ds R. apply Forall_app. split; [repeat constructor |].
      apply Forall_map. eapply Forall_impl; [| exact R].
      intros d. apply lower_digit_no_separator. }
    destruct (cp <=? 0xff); rewrite ?E2, ?E4; apply Forall_app; split; auto;
      repeat constructor.
Qed.

(** X7: when the string holds the UTF-8 encoding of a text (code points
    from 1 to 0x1fffff), [append_utf8_encoded_string] appends for every
    code point either its encoding, when the OPL format lets it through,
    or its escape between percent signs; the string ends at the first NUL;
    and nothing that is appended is a control character, a space, a comma,
    an equals sign, an at sign or DEL. *)
Theorem opl_encoding_of_text (cps : list Z) (out rest : bytes) :
  Forall text_codepoint cps ->
  append_utf8_encoded_string out (utf8 cps ++ rest)
  = append_utf8_encoded_string (out ++ flat_map opl_char cps) rest
  /\ (c_bytes rest = [] ->
      append_utf8_encoded_string out (utf8 cps ++ rest)
      = Some (Ret (out ++ flat_map opl_char cps)))
  /\ Forall (fun b => opl_separator b = false) (flat_map opl_char cps).
Proof.
  intros H. split; [apply opl_text, H |]. split.
  - intros E. rewrite opl_text by exact H. apply opl_end, E.
  - induction H as [| cp cps Hcp _ IH]; [constructor |].
    cbn [flat_map]. apply Forall_app. split; [apply opl_char_no_separator, Hcp | exact IH].
Qed.

(** "a b" with an e acute after it, and bytes after the NUL. *)
Lemma opl_encoding_of_text_witness :
  Forall text_codepoint [0x61; 0x20; 0x62; 0xe9]
  /\ c_bytes [0; 0x2c] = []
  /\ append_utf8_encoded_string [] (utf8 [0x61; 0x20; 0x62; 0xe9] ++ [0; 0x2c])
     = Some (Ret (literal "a%20%b" ++ [0xc3; 0xa9])).
Proof.
  assert (H : Forall text_codepoint [0x61; 0x20; 0x62; 0xe9])
    by (repeat constructor; unfold text_codepoint; lia).
  split; [exact H |]. split; [reflexivity |].
  exact (proj1 (proj2 (opl_encoding_of_text [0x61; 0x20; 0x62; 0xe9] [] [0; 0x2c] H))
               eq_refl).
Defined.


Ltac nibble_facts v :=
  pose proof (nibbles_of v ltac:(change (2 ^ 32) with 4294967296; lia));
  pose proof (nibble_range v 28); pose proof (nibble_range v 24);
  pose proof (nibble_range v 20); pose proof (nibble_range v 16);
  pose proof (nibble_range v 12); pose proof (nibble_range v 8);
  pose proof (nibble_range v 4);
  pose proof (Z.mod_pos_bound v 16 ltac:(lia)).

(** From 0x100000 to 0x10ffff the digits written are those of the value
    less 0xf0000. *)
Lemma min_4_digits_collide (cp : Z) (out t : bytes) :
  0x100000 <= cp < 0x110000 ->
  append_min_4_hex_digits out cp t = append_min_4_hex_digits out (cp - 0xf0000) t.
Proof.
  intros H. rewrite !append_min_4_digits.
  nibble_facts cp. nibble_facts (cp - 0xf0000).
  replace ((cp / 2 ^ 28) mod 16) with 0 by lia.
  replace ((cp / 2 ^ 24) mod 16) with 0 by lia.
  replace ((cp / 2 ^ 20) mod 16) with 1 by lia.
  replace ((cp / 2 ^ 16) mod 16) with 0 by lia.
  replace (((cp - 0xf0000) / 2 ^ 28) mod 16) with 0 by lia.
  replace (((cp - 0xf0000) / 2 ^ 24) mod 16) with 0 by lia.
  replace (((cp - 0xf0000) / 2 ^ 20) mod 16) with 0 by lia.
  replace (((cp - 0xf0000) / 2 ^ 16) mod 16) with 1 by lia.
  replace (((cp - 0xf0000) / 2 ^ 12) mod 16) with ((cp / 2 ^ 12) mod 16) by lia.
  replace (((cp - 0xf0000) / 2 ^ 8) mod 16) with ((cp / 2 ^ 8) mod 16) by lia.
  replace (((cp - 0xf0000) / 2 ^ 4) mod 16) with ((cp / 2 ^ 4) mod 16) by lia.
  replace ((cp - 0xf0000) mod 16) with (cp mod 16) by lia.
  reflexivity.
Qed.

Lemma escaped (cp : Z) :
  0x600 <= cp -> opl_plain cp = false /\ debug_plain cp = false /\ (cp <=? 0xff) = false.
Proof.
  intros H. split; [| split].
  - destruct (opl_plain cp) eqn:P; [| reflexivity].
    unfold opl_plain in P. props P. lia.
  - destruct (debug_plain cp) eqn:P; [| reflexivity].
    unfold debug_plain in P. props P. lia.
  - apply Z.leb_gt. lia.
Qed.

(** X8: the escapes of the code points of plane 16 collide with those of
    plane 1.  For a code point from U+100000 to U+10FFFF, both
    [append_utf8_encoded_string] and [append_debug_encoded_string] append
    the escape of the code point less 0xf0000, five hexadecimal digits, so
    two different strings give the same output. *)
Theorem plane_16_escapes_collide (cp : Z) (out prefix suffix : bytes) :
  0x100000 <= cp < 0x110000 ->
  utf8 [cp] <> utf8 [cp - 0xf0000]
  /\ append_utf8_encoded_string out (utf8 [cp])
     = Some (Ret (out ++ opl_escape [] (cp - 0xf0000)))
  /\ append_utf8_encoded_string out (utf8 [cp - 0xf0000])
     = Some (Ret (out ++ opl_escape [] (cp - 0xf0000)))
  /\ append_debug_encoded_string out (utf8 [cp]) prefix suffix
     = append_debug_encoded_string out (utf8 [cp - 0xf0000]) prefix suffix.
Proof.
  intros H.
  assert (T : Forall text_codepoint [cp])
    by (repeat constructor; unfold text_codepoint; lia).
  assert (T' : Forall text_codepoint [cp - 0xf0000])
    by (repeat constructor; unfold text_codepoint; lia).
  destruct (escaped cp ltac:(lia)) as [P [D B]].
  destruct (escaped (cp - 0xf0000) ltac:(lia)) as [P' [D' B']].
  assert (O : opl_char cp = opl_escape [] (cp - 0xf0000)).
  { unfold opl_char, opl_escape. rewrite P, B, B'.
    rewrite (min_4_digits_collide cp) by exact H. reflexivity. }
  assert (O' : opl_char (cp - 0xf0000) = opl_escape [] (cp - 0xf0000)).
  { unfold opl_char. rewrite P'. reflexivity. }
  split; [| split; [| split]].
  - intros E. unfold utf8 in E. cbn [flat_map] in E. rewrite !app_nil_r in E.
    assert (N : next_utf8_codepoint (append_codepoint_as_utf8 cp [] ++ [])
                = Ret (cp, [])) by (apply encode_then_decode; lia).
    rewrite E, encode_then_decode in N by lia. injection N as N. lia.
  - rewrite <- (app_nil_r (utf8 [cp])), opl_text by exact T.
    rewrite opl_end by reflexivity. cbn [flat_map]. rewrite O, app_nil_r. reflexivity.
  - rewrite <- (app_nil_r (utf8 [cp - 0xf0000])), opl_text by exact T'.
    rewrite opl_end by reflexivity. cbn [flat_map]. rewrite O', app_nil_r. reflexivity.
  - rewrite <- (app_nil_r (utf8 [cp])), <- (app_nil_r (utf8 [cp - 0xf0000])).
    rewrite !debug_text by assumption.
    cbn [flat_map]. unfold debug_char, debug_escape. rewrite D, D'.
    rewrite (min_4_digits_collide cp) by exact H. reflexivity.
Qed.

(** U+100000 and U+10000. *)
Lemma plane_16_escapes_collide_witness :
  0x100000 <= 0x100000 < 0x110000
  /\ append_utf8_encoded_string [] (utf8 [0x100000]) = Some (Ret (literal "%10000%"))
  /\ append_utf8_encoded_string [] (utf8 [0x10000]) = Some (Ret (literal "%10000%")).
Proof.
  assert (H : 0x100000 <= 0x100000 < 0x110000) by lia.
  split; [exact H |].
  destruct (plane_16_escapes_collide 0x100000 [] [] [] H) as [_ [A [B _]]].
  split; [exact A | exact B].
Defined.

(** X9: the escaping can be passed by.  After a lead byte from 0xc3 to
    0xd7, [append_utf8_encoded_string] copies the next byte to the output
    whatever it is: a space, a comma or a newline too. *)
Theorem byte_after_lead_is_copied (b0 b1 : Z) (out rest : bytes) :
  0xc3 <= b0 <= 0xd7 -> b1 <> 0 ->
  append_utf8_encoded_string out (b0 :: b1 :: rest)
  = append_utf8_encoded_string (out ++ [b0; b1]) rest.
Proof.
  intros H0 H1. unfold append_utf8_encoded_string. cbv zeta.
  cbn [c_bytes].
  destruct (Z.eqb_spec b0 0); [lia |]. destruct (Z.eqb_spec b1 0); [contradiction |].
  change (b0 :: b1 :: c_bytes rest) with ([b0; b1] ++ c_bytes rest).
  rewrite (encoded_loop_turn opl_plain opl_escape [b0; b1] (c_bytes rest) out
                             ((b0 - 0xc0) * 64 + b1 mod 64)).
  - replace (opl_plain ((b0 - 0xc0) * 64 + b1 mod 64)) with true; [reflexivity |].
    symmetry. unfold opl_plain.
    pose proof (Z.mod_pos_bound b1 64 ltac:(lia)).
    rewrite !orb_true_iff, !andb_true_iff, !Z.leb_le. lia.
  - apply decode_2. lia.
  - cbn. lia.
  - lia.
Qed.

(** A comma after 0xc3. *)
Lemma byte_after_lead_is_copied_witness :
  0xc3 <= 0xc3 <= 0xd7 /\ 0x2c <> 0
  /\ opl_separator 0x2c = true
  /\ append_utf8_encoded_string [] [0xc3; 0x2c] = Some (Ret [0xc3; 0x2c]).
Proof.
  assert (H0 : 0xc3 <= 0xc3 <= 0xd7) by lia.
  assert (H1 : 0x2c <> 0) by discriminate.
  split; [exact H0 |]. split; [exact H1 |]. split; [reflexivity |].
  rewrite (byte_after_lead_is_copied 0xc3 0x2c [] [] H0 H1). reflexivity.
Defined.

(** X10: [append_utf8_encoded_string] and [append_debug_encoded_string]
    come to an end on every input and never read beyond the NUL: each
    returns [out] with something appended, or throws one of the two errors
    of [next_utf8_codepoint]. *)
Theorem escaping_always_ends (out data prefix suffix : bytes) :
  ((exists added, append_utf8_encoded_string out data = Some (Ret (out ++ added)))
   \/ append_utf8_encoded_string out data = Some (Throw "invalid Unicode codepoint")
   \/ append_utf8_encoded_string out data = Some (Throw "incomplete Unicode codepoint"))
  /\ ((exists added,
         append_debug_encoded_string out data prefix suffix = Some (Ret (out ++ added)))
      \/ append_debug_encoded_string out data prefix suffix
         = Some (Throw "invalid Unicode codepoint")
      \/ append_debug_encoded_string out data prefix suffix
         = Some (Throw "incomplete Unicode codepoint")).
Proof.
  split.
  - apply encoded_loop_outcome; [| apply Nat.le_refl].
    intros o c. exists (opl_escape [] c). apply opl_escape_prefix.
  - apply encoded_loop_outcome; [| apply Nat.le_refl].
    intros o c. eexists. apply debug_escape_prefix.
Qed.

End EscapeClaims.

(** ** The entities of a block *)

Section Loops.
Import OSMPBF PBFPrimitiveBlockParser.

Lemma each_snoc {A B : Type} (f : A -> outcome B) (l : list A) (buffer : list B)
      (loop : list A -> list B -> outcome (list B)) :
  (forall buffer, loop [] buffer = Ret buffer) ->
  (forall a l buffer, loop (a :: l) buffer = (e <- f a ;; loop l (buffer ++ [e]))) ->
  loop l buffer = (es <- each f l ;; Ret (buffer ++ es)).
Proof.
  intros L0 L1. revert buffer. induction l as [| a l IH]; intros buffer.
  - rewrite L0. cbn. rewrite app_nil_r. reflexivity.
  - rewrite L1. cbn [each]. destruct (f a) as [e | | |]; cbn [bind]; try reflexivity.
    rewrite IH. destruct (each f l) as [es | | |]; cbn [bind]; try reflexivity.
    rewrite <- app_assoc. reflexivity.
Qed.

Lemma parse_node_loop_each (p : t) (l : list Node) (buffer : Buffer) :
  parse_node_loop p l buffer = (es <- each (parse_node p) l ;; Ret (buffer ++ es)).
Proof. apply (each_snoc (parse_node p) l buffer (parse_node_loop p)); reflexivity. Qed.

Lemma parse_way_loop_each (p : t) (l : list Way) (buffer : Buffer) :
  parse_way_loop p l buffer = (es <- each (parse_way p) l ;; Ret (buffer ++ es)).
Proof. apply (each_snoc (parse_way p) l buffer (parse_way_loop p)); reflexivity. Qed.

Lemma parse_relation_loop_each (p : t) (l : list Relation) (buffer : Buffer) :
  parse_relation_loop p l buffer
  = (es <- each (parse_relation p) l ;; Ret (buffer ++ es)).
Proof.
  apply (each_snoc (parse_relation p) l buffer (parse_relation_loop p)); reflexivity.
Qed.

Lemma dense_loop_each (p : t) (d : DenseNodes) (ids : list Z) :
  forall i l buffer,
    dense_loop p d ids i l buffer
    = (es <- dense_each p d ids i l ;; Ret (buffer ++ es)).
Proof.
  induction ids as [| id_i ids IH]; intros i l buffer.
  - cbn. rewrite app_nil_r. reflexivity.
  - cbn [dense_loop dense_each].
    destruct (dense_step p d i id_i l) as [[l' e] | | |]; cbn [bind]; try reflexivity.
    rewrite IH. destruct (dense_each p d ids (i + 1) l') as [es | | |]; cbn [bind];
      try reflexivity.
    rewrite <- app_assoc. reflexivity.
Qed.

(** What [each] returns, element by element. *)
Lemma each_Ret {A B : Type} (f : A -> outcome B) (l : list A) (bs : list B) :
  each f l = Ret bs -> Forall2 (fun a b => f a = Ret b) l bs.
Proof.
  revert bs. induction l as [| a l IH]; intros bs H; cbn [each] in H.
  - injection H as <-. constructor.
  - bind_inv H. bind_inv H. injection H as <-. constructor; [exact E | apply IH, E0].
Qed.

Lemma each_Forall {A B : Type} (f : A -> outcome B) (P : B -> Prop) (l : list A)
      (bs : list B) :
  (forall a b, f a = Ret b -> P b) -> each f l = Ret bs -> Forall P bs.
Proof.
  intros Hf H. apply each_Ret in H.
  induction H as [| a b l bs Hab _ IH]; constructor; eauto.
Qed.

Lemma each_length {A B : Type} (f : A -> outcome B) (l : list A) (bs : list B) :
  each f l = Ret bs -> List.length bs = List.length l.
Proof. intros H. apply each_Ret in H. symmetry. apply (Forall2_length H). Qed.

Lemma each_ext {A B : Type} (f g : A -> outcome B) (l : list A) :
  (forall a, f a = g a) -> each f l = each g l.
Proof.
  intros H. induction l as [| a l IH]; [reflexivity |].
  cbn [each]. rewrite H, IH. reflexivity.
Qed.

Lemma dense_each_Forall (p : t) (d : DenseNodes) (P : Entity -> Prop) (ids : list Z) :
  (forall i id_i l l' e, dense_step p d i id_i l = Ret (l', e) -> P e) ->
  forall i l es, dense_each p d ids i l = Ret es ->
                 Forall P es /\ List.length es = List.length ids.
Proof.
  intros Hs. induction ids as [| id_i ids IH]; intros i l es H; cbn [dense_each] in H.
  - injection H as <-. split; [constructor | reflexivity].
  - bind_inv H. destruct a as [l' e]. bind_inv H. injection H as <-.
    destruct (IH _ _ _ E0) as [F L]. split.
    + constructor; [apply (Hs _ _ _ _ _ E) | exact F].
    + cbn [List.length]. rewrite L. reflexivity.
Qed.

End Loops.

Section SameBlock.
Import OSMPBF PBFPrimitiveBlockParser.

Variables p q : PBFPrimitiveBlockParser.t.
Hypothesis same : same_block p q.

Ltac same_fields :=
  destruct same as [S1 [S2 [S3 [S4 S5]]]];
  destruct q as [st lo la df gr rt bu];
  cbn [m_stringtable m_lon_offset m_lat_offset m_date_factor m_granularity] in *;
  subst st lo la df gr.

Lemma same_s (index : Z) : s p index = s q index.
Proof. same_fields. reflexivity. Qed.

Lemma same_location (lon lat : Z) : location p lon lat = location q lon lat.
Proof. same_fields. reflexivity. Qed.

Lemma same_set_info (info : Info) (o : Object.t) : set_info p info o = set_info q info o.
Proof. same_fields. reflexivity. Qed.

Lemma same_date_factor : m_date_factor p = m_date_factor q.
Proof. same_fields. reflexivity. Qed.

Lemma same_tag_loop (keys vals : list Z) :
  forall tag, tag_loop p keys vals tag = tag_loop q keys vals tag.
Proof.
  induction keys as [| k keys IH]; intros tag; [reflexivity |].
  cbn [tag_loop]. rewrite same_s.
  destruct (s q k); cbn [bind]; try reflexivity.
  destruct (get vals tag); cbn [bind]; try reflexivity.
  rewrite same_s. destruct (s q a0); cbn [bind]; try reflexivity.
  rewrite IH. reflexivity.
Qed.

Lemma same_add_tag_list (keys vals : list Z) (o : Object.t) :
  add_tag_list p keys vals o = add_tag_list q keys vals o.
Proof. unfold add_tag_list. rewrite same_tag_loop. reflexivity. Qed.

Lemma same_member_loop (types : list MemberType) (memids roles_sid : list Z) :
  forall i ref,
    member_loop p types memids roles_sid i ref = member_loop q types memids roles_sid i ref.
Proof.
  induction types as [| mt types IH]; intros i ref; [reflexivity |].
  cbn [member_loop].
  destruct (get memids i); cbn [bind]; try reflexivity.
  destruct (get roles_sid i); cbn [bind]; try reflexivity.
  rewrite same_s. destruct (s q a0); cbn [bind]; try reflexivity.
  rewrite IH. reflexivity.
Qed.

Lemma same_add_tags_loop (n : nat) :
  forall l, (List.length l <= n)%nat ->
            forall k tl, add_tags_loop p l k tl = add_tags_loop q l k tl.
Proof.
  induction n as [| n IH]; intros l Hl k tl.
  - destruct l; [reflexivity | cbn in Hl; lia].
  - destruct l as [| key [| v l']]; [reflexivity | |]; cbn [add_tags_loop].
    + destruct (key =? 0); [reflexivity |]. rewrite same_s. reflexivity.
    + destruct (key =? 0); [reflexivity |]. rewrite same_s.
      destruct (s q key); cbn [bind]; try reflexivity.
      rewrite same_s. destruct (s q v); cbn [bind]; try reflexivity.
      apply IH. cbn [List.length] in Hl. lia.
Qed.

Lemma same_add_tags (d : DenseNodes) (n : Z) : add_tags p d n = add_tags q d n.
Proof.
  unfold add_tags. destruct (_ <=? _); [reflexivity |].
  destruct (get (dense_keys_vals d) n); cbn [bind]; try reflexivity.
  destruct (a =? 0); [reflexivity |].
  apply (same_add_tags_loop (List.length (skipn (Z.to_nat n) (dense_keys_vals d)))).
  apply Nat.le_refl.
Qed.

Lemma same_parse_node (n : Node) : parse_node p n = parse_node q n.
Proof.
  unfold parse_node.
  destruct (node_info n) as [info |]; cbn [bind].
  - rewrite same_s, same_set_info.
    destruct (s q (info_user_sid info)); cbn [bind]; try reflexivity.
    rewrite same_location, same_add_tag_list. reflexivity.
  - rewrite same_location, same_add_tag_list. reflexivity.
Qed.

Lemma same_parse_way (w : Way) : parse_way p w = parse_way q w.
Proof.
  unfold parse_way.
  destruct (way_info w) as [info |]; cbn [bind].
  - rewrite same_s, same_set_info.
    destruct (s q (info_user_sid info)); cbn [bind]; try reflexivity.
    rewrite same_add_tag_list. reflexivity.
  - rewrite same_add_tag_list. reflexivity.
Qed.

Lemma same_parse_relation (r : Relation) : parse_relation p r = parse_relation q r.
Proof.
  unfold parse_relation.
  destruct (rel_info r) as [info |]; cbn [bind].
  - rewrite same_s, same_set_info.
    destruct (s q (info_user_sid info)); cbn [bind]; try reflexivity.
    rewrite same_member_loop.
    destruct (member_loop q _ _ _ 0 0); cbn [bind]; try reflexivity.
    rewrite same_add_tag_list. reflexivity.
  - rewrite same_member_loop.
    destruct (member_loop q _ _ _ 0 0); cbn [bind]; try reflexivity.
    rewrite same_add_tag_list. reflexivity.
Qed.

Lemma same_dense_step (d : DenseNodes) (i id_i : Z) (l : dense_locals) :
  dense_step p d i id_i l = dense_step q d i id_i l.
Proof.
  unfold dense_step.
  destruct (get (dense_lat d) i); cbn [bind]; try reflexivity.
  destruct (get (dense_lon d) i); cbn [bind]; try reflexivity.
  match goal with |- bind ?m _ = bind ?m _ => destruct m as [[[[[cs ts] uid] usid] vis] | | |] end;
    cbn [bind]; try reflexivity.
  rewrite same_date_factor.
  destruct (dense_denseinfo d) as [di |]; cbn [bind].
  - destruct (get (di_version di) i); cbn [bind]; try reflexivity.
    rewrite same_s. destruct (s q usid); cbn [bind]; try reflexivity.
    rewrite same_location, same_add_tags. reflexivity.
  - rewrite same_location, same_add_tags. reflexivity.
Qed.

Lemma same_dense_each (d : DenseNodes) (ids : list Z) :
  forall i l, dense_each p d ids i l = dense_each q d ids i l.
Proof.
  induction ids as [| id_i ids IH]; intros i l; [reflexivity |].
  cbn [dense_each]. rewrite same_dense_step.
  destruct (dense_step q d i id_i l) as [[l' e] | | |]; cbn [bind]; try reflexivity.
  rewrite IH. reflexivity.
Qed.

End SameBlock.

Section Groups.
Import OSMPBF PBFPrimitiveBlockParser.

Lemma kind_parse_node (p : t) (n : Node) (e : Entity) :
  parse_node p n = Ret e -> kind_of e = item_node.
Proof. unfold parse_node. intros H. bind_inv H. bind_inv H. injection H as <-. reflexivity. Qed.

Lemma kind_parse_way (p : t) (w : Way) (e : Entity) :
  parse_way p w = Ret e -> kind_of e = item_way.
Proof. unfold parse_way. intros H. bind_inv H. bind_inv H. injection H as <-. reflexivity. Qed.

Lemma kind_parse_relation (p : t) (r : Relation) (e : Entity) :
  parse_relation p r = Ret e -> kind_of e = item_relation.
Proof.
  unfold parse_relation. intros H. bind_inv H. bind_inv H. bind_inv H.
  injection H as <-. reflexivity.
Qed.

Lemma kind_dense_step (p : t) (d : DenseNodes) (i id_i : Z) (l l' : dense_locals)
      (e : Entity) :
  dense_step p d i id_i l = Ret (l', e) -> kind_of e = item_node.
Proof.
  unfold dense_step. intros H.
  bind_inv H. bind_inv H. bind_inv H.
  destruct a1 as [[[[cs ts] uid] usid] vis].
  bind_inv H. bind_inv H. destruct a2 as [tl c']. injection H as <- <-. reflexivity.
Qed.

Lemma filter_kind (f : flags) (k : item_type) (es : list Entity) :
  Forall (fun e => kind_of e = k) es ->
  filter (kind_selected f) es = if selects f k then es else [].
Proof.
  induction 1 as [| e es He _ IH]; [destruct (selects f k); reflexivity |].
  cbn [filter]. rewrite IH.
  replace (kind_selected f e) with (selects f k)
    by (rewrite <- He; destruct e; reflexivity).
  destruct (selects f k); reflexivity.
Qed.

End Groups.

Section Block.
Import OSMPBF PBFPrimitiveBlockParser.

(** What a parser that reads everything appends for a group, and what
    another parser of the same block does with the group. *)
Lemma parse_group_all (p q : t) (g : PrimitiveGroup) (b : Buffer) :
  same_block p q -> m_read_types p = all_types -> parse_group p g = Ret b ->
  exists es,
    b = m_buffer p ++ es
    /\ Forall (fun e => kind_of e = group_kind g) es
    /\ List.length es = group_objects g
    /\ parse_group q g = Ret (m_buffer q ++ filter (kind_selected (m_read_types q)) es).
Proof.
  intros S A. unfold parse_group, group_kind, group_objects, parse_dense_node_group,
                parse_way_group, parse_relation_group, parse_node_group, dense_of.
  rewrite A. cbn [all_types read_node read_way read_relation].
  assert (Q : forall k es, Forall (fun e => kind_of e = k) es ->
                           (if selects (m_read_types q) k then Ret (m_buffer q ++ es)
                            else Ret (m_buffer q))
                           = Ret (m_buffer q ++ filter (kind_selected (m_read_types q)) es)).
  { intros k es F. rewrite (filter_kind _ k es F).
    destruct (selects (m_read_types q) k); [reflexivity | rewrite app_nil_r; reflexivity]. }
  destruct (dense g) as [d |].
  - rewrite !dense_loop_each. rewrite <- (same_dense_each p q S).
    intros H. bind_inv H. injection H as <-.
    destruct (dense_each_Forall p d (fun e => kind_of e = item_node) (dense_id d)
                                (kind_dense_step p d) _ _ _ E) as [F L].
    exists a. split; [reflexivity |]. split; [exact F |]. split; [exact L |].
    rewrite E. cbn [bind]. apply (Q item_node a F).
  - destruct (ways g) as [| w ws] eqn:W.
    + destruct (relations g) as [| r rs] eqn:R.
      * cbn [List.length size Z.of_nat Z.eqb negb].
        destruct (nodes g) as [| n ns] eqn:N; [discriminate |].
        replace (negb (size (n :: ns) =? 0)) with true by reflexivity.
        rewrite !parse_node_loop_each.
        rewrite <- (each_ext _ _ _ (same_parse_node p q S)).
        intros H. bind_inv H. injection H as <-.
        exists a. split; [reflexivity |].
        assert (F : Forall (fun e => kind_of e = item_node) a)
          by (apply (each_Forall _ _ _ _ (kind_parse_node p) E)).
        split; [exact F |]. split; [apply (each_length _ _ _ E) |].
        rewrite E. cbn [bind]. apply (Q item_node a F).
      * cbn [List.length size Z.of_nat Z.eqb negb].
        replace (negb (size (r :: rs) =? 0)) with true by reflexivity.
        rewrite !parse_relation_loop_each.
        rewrite <- (each_ext _ _ _ (same_parse_relation p q S)).
        intros H. bind_inv H. injection H as <-.
        exists a. split; [reflexivity |].
        assert (F : Forall (fun e => kind_of e = item_relation) a)
          by (apply (each_Forall _ _ _ _ (kind_parse_relation p) E)).
        split; [exact F |]. split; [apply (each_length _ _ _ E) |].
        rewrite E. cbn [bind]. apply (Q item_relation a F).
    + replace (negb (size (w :: ws) =? 0)) with true by reflexivity.
      rewrite !parse_way_loop_each.
      rewrite <- (each_ext _ _ _ (same_parse_way p q S)).
      intros H. bind_inv H. injection H as <-.
      exists a. split; [reflexivity |].
      assert (F : Forall (fun e => kind_of e = item_way) a)
        by (apply (each_Forall _ _ _ _ (kind_parse_way p) E)).
      split; [exact F |]. split; [apply (each_length _ _ _ E) |].
      rewrite E. cbn [bind]. apply (Q item_way a F).
Qed.

Lemma same_block_with_buffer (p q : t) (b c : Buffer) :
  same_block p q -> same_block (with_buffer p b) (with_buffer q c).
Proof. intros S. exact S. Qed.

Lemma parse_groups_all (groups : list PrimitiveGroup) :
  forall (p q : t) (b : Buffer),
    same_block p q -> m_read_types p = all_types -> parse_groups p groups = Ret b ->
    exists es,
      b = m_buffer p ++ es
      /\ map kind_of es = flat_map (fun g => repeat (group_kind g) (group_objects g)) groups
      /\ parse_groups q groups
         = Ret (m_buffer q ++ filter (kind_selected (m_read_types q)) es).
Proof.
  induction groups as [| g groups IH]; intros p q b S A H; cbn [parse_groups] in *.
  - injection H as <-. exists []. rewrite !app_nil_r. repeat split.
  - bind_inv H.
    destruct (parse_group_all p q g a S A E) as [es1 [B1 [K1 [L1 Q1]]]].
    rewrite Q1. cbn [bind].
    destruct (IH (with_buffer p a)
                 (with_buffer q (m_buffer q ++ filter (kind_selected (m_read_types q)) es1))
                 b (same_block_with_buffer p q _ _ S) A H) as [es2 [B2 [K2 Q2]]].
    exists (es1 ++ es2). cbn [with_buffer m_buffer m_read_types] in *. subst a.
    split; [rewrite B2, <- app_assoc; reflexivity |]. split.
    + rewrite map_app, K2. cbn [flat_map]. f_equal.
      rewrite <- L1. clear - K1.
      induction K1 as [| e es He _ IHe]; [reflexivity |].
      cbn [map List.length repeat]. rewrite He, IHe. reflexivity.
    + rewrite Q2, filter_app, <- app_assoc. reflexivity.
Qed.

Lemma parse_groups_selected (groups : list PrimitiveGroup) :
  forall (p : t) (b : Buffer),
    parse_groups p groups = Ret b ->
    exists es, b = m_buffer p ++ es
               /\ forallb (kind_selected (m_read_types p)) es = true.
Proof.
  induction groups as [| g groups IH]; intros p b H; cbn [parse_groups] in H.
  - injection H as <-. exists []. rewrite app_nil_r. split; reflexivity.
  - bind_inv H.
    assert (G : exists es1, a = m_buffer p ++ es1
                            /\ forallb (kind_selected (m_read_types p)) es1 = true).
    { revert E. unfold parse_group, parse_dense_node_group, parse_way_group,
                parse_relation_group, parse_node_group, dense_of.
      assert (N : exists es1 : list Entity,
                 m_buffer p = m_buffer p ++ es1
                 /\ forallb (kind_selected (m_read_types p)) es1 = true)
        by (exists []; rewrite app_nil_r; split; reflexivity).
      assert (F : forall k es, Forall (fun e => kind_of e = k) es ->
                               selects (m_read_types p) k = true ->
                               forallb (kind_selected (m_read_types p)) es = true).
      { intros k es Fk Sk. apply forallb_forall. intros e He.
        rewrite Forall_forall in Fk. specialize (Fk e He).
        rewrite <- Sk, <- Fk. destruct e; reflexivity. }
      destruct (dense g) as [d |].
      - destruct (read_node (m_read_types p)) eqn:R;
          [| intros E; injection E as <-; exact N].
        rewrite dense_loop_each. intros E. bind_inv E. injection E as <-.
        exists a0. split; [reflexivity |]. apply (F item_node); [| exact R].
        apply (dense_each_Forall p _ _ _ (kind_dense_step p _) _ _ _ E0).
      - destruct (negb (size (ways g) =? 0)).
        { destruct (read_way (m_read_types p)) eqn:R;
            [| intros E; injection E as <-; exact N].
          rewrite parse_way_loop_each. intros E. bind_inv E. injection E as <-.
          exists a0. split; [reflexivity |]. apply (F item_way); [| exact R].
          apply (each_Forall _ _ _ _ (kind_parse_way p) E0). }
        destruct (negb (size (relations g) =? 0)).
        { destruct (read_relation (m_read_types p)) eqn:R;
            [| intros E; injection E as <-; exact N].
          rewrite parse_relation_loop_each. intros E. bind_inv E. injection E as <-.
          exists a0. split; [reflexivity |]. apply (F item_relation); [| exact R].
          apply (each_Forall _ _ _ _ (kind_parse_relation p) E0). }
        destruct (negb (size (nodes g) =? 0)); [| discriminate].
        destruct (read_node (m_read_types p)) eqn:R;
          [| intros E; injection E as <-; exact N].
        rewrite parse_node_loop_each. intros E. bind_inv E. injection E as <-.
        exists a0. split; [reflexivity |]. apply (F item_node); [| exact R].
        apply (each_Forall _ _ _ _ (kind_parse_node p) E0). }
    destruct G as [es1 [-> F1]].
    destruct (IH _ _ H) as [es2 [-> F2]].
    cbn [with_buffer m_buffer m_read_types] in *.
    exists (es1 ++ es2). split; [rewrite app_assoc; reflexivity |].
    rewrite forallb_app, F1, F2. reflexivity.
Qed.

(** A property of every entity that the four decoders give holds for the
    buffer of a block. *)
Lemma parse_groups_Forall (P : Entity -> Prop) (groups : list PrimitiveGroup) :
  forall (p : t) (b : Buffer),
    (forall n e, parse_node p n = Ret e -> P e) ->
    (forall w e, parse_way p w = Ret e -> P e) ->
    (forall r e, parse_relation p r = Ret e -> P e) ->
    (forall d i id_i l l' e, dense_step p d i id_i l = Ret (l', e) -> P e) ->
    Forall P (m_buffer p) -> parse_groups p groups = Ret b -> Forall P b.
Proof.
  induction groups as [| g groups IH]; intros p b Hn Hw Hr Hd Hb H;
    cbn [parse_groups] in H.
  - injection H as <-. exact Hb.
  - bind_inv H.
    assert (S : same_block (with_buffer p a) p) by (repeat split).
    apply (IH (with_buffer p a) b); try exact H.
    + intros n e. rewrite (same_parse_node _ _ S). apply Hn.
    + intros w e. rewrite (same_parse_way _ _ S). apply Hw.
    + intros r e. rewrite (same_parse_relation _ _ S). apply Hr.
    + intros d i id_i l l' e. rewrite (same_dense_step _ _ S). apply Hd.
    + cbn [with_buffer m_buffer]. revert E.
      unfold parse_group, parse_dense_node_group, parse_way_group,
        parse_relation_group, parse_node_group, dense_of.
      destruct (dense g) as [d |].
      * destruct (read_node (m_read_types p)); [| intros E; injection E as <-; exact Hb].
        rewrite dense_loop_each. intros E. bind_inv E. injection E as <-.
        apply Forall_app. split; [exact Hb |].
        apply (dense_each_Forall p _ P _ (Hd _) _ _ _ E0).
      * destruct (negb (size (ways g) =? 0)).
        { destruct (read_way (m_read_types p)); [| intros E; injection E as <-; exact Hb].
          rewrite parse_way_loop_each. intros E. bind_inv E. injection E as <-.
          apply Forall_app. split; [exact Hb |]. apply (each_Forall _ _ _ _ Hw E0). }
        destruct (negb (size (relations g) =? 0)).
        { destruct (read_relation (m_read_types p));
            [| intros E; injection E as <-; exact Hb].
          rewrite parse_relation_loop_each. intros E. bind_inv E. injection E as <-.
          apply Forall_app. split; [exact Hb |]. apply (each_Forall _ _ _ _ Hr E0). }
        destruct (negb (size (nodes g) =? 0)); [| discriminate].
        destruct (read_node (m_read_types p)); [| intros E; injection E as <-; exact Hb].
        rewrite parse_node_loop_each. intros E. bind_inv E. injection E as <-.
        apply Forall_app. split; [exact Hb |]. apply (each_Forall _ _ _ _ Hn E0).
Qed.

(** X11: the flags of a block parser are a filter.  A block read for some
    kinds of entities gives entities of these kinds only; and when the
    block read for all kinds gives a buffer, the block read for some kinds
    gives the entities of these kinds in that buffer, in the same order. *)
Theorem read_types_are_a_filter (ext : Externals) (data : string) (which : flags)
        (b : Buffer) :
  (run ext data which = Ret b -> forallb (kind_selected which) b = true)
  /\ (run ext data all_types = Ret b ->
      run ext data which = Ret (filter (kind_selected which) b)).
Proof.
  unfold run. destruct (parse_PrimitiveBlock ext data) as [block |];
    [| split; discriminate].
  split; intros H.
  - destruct (parse_groups_selected _ _ _ H) as [es [-> F]]. exact F.
  - match type of H with parse_groups ?p _ = _ =>
      match goal with |- parse_groups ?q _ = _ =>
        destruct (parse_groups_all _ p q b ltac:(repeat split) eq_refl H)
          as [es [-> [_ Q]]]
      end
    end.
    exact Q.
Qed.



End Block.

Section Timestamps.
Import OSMPBF PBFPrimitiveBlockParser.

Variable p : PBFPrimitiveBlockParser.t.
Hypothesis factor : m_date_factor p = 0.

Lemma timestamp_add_tag_list (keys vals : list Z) (o o' : Object.t) :
  add_tag_list p keys vals o = Ret o' -> Object.m_timestamp o' = Object.m_timestamp o.
Proof.
  unfold add_tag_list. destruct (0 <? size keys); intros H.
  - bind_inv H. injection H as <-. reflexivity.
  - injection H as <-. reflexivity.
Qed.

Lemma timestamp_set_info (info : Info) (o : Object.t) :
  Object.m_timestamp (set_info p info o) = 0.
Proof. unfold set_info. cbn. rewrite factor, Z.mul_0_r. reflexivity. Qed.

Lemma epoch_parse_node (n : Node) (e : Entity) : parse_node p n = Ret e -> at_epoch e.
Proof.
  unfold parse_node, at_epoch. intros H.
  bind_inv H. bind_inv H. injection H as <-. cbn [object_of].
  rewrite (timestamp_add_tag_list _ _ _ _ E0).
  destruct (node_info n) as [info |].
  - bind_inv E. injection E as <-.
    destruct (info_visible info); cbn; rewrite factor, Z.mul_0_r; reflexivity.
  - injection E as <-. reflexivity.
Qed.

Lemma epoch_parse_way (w : Way) (e : Entity) : parse_way p w = Ret e -> at_epoch e.
Proof.
  unfold parse_way, at_epoch. intros H.
  bind_inv H. bind_inv H. injection H as <-. cbn [object_of].
  rewrite (timestamp_add_tag_list _ _ _ _ E0).
  destruct (way_info w) as [info |].
  - bind_inv E. injection E as <-.
    destruct (info_visible info); cbn; rewrite factor, Z.mul_0_r; reflexivity.
  - injection E as <-. reflexivity.
Qed.

Lemma epoch_parse_relation (r : Relation) (e : Entity) :
  parse_relation p r = Ret e -> at_epoch e.
Proof.
  unfold parse_relation, at_epoch. intros H.
  bind_inv H. bind_inv H. bind_inv H. injection H as <-. cbn [object_of].
  rewrite (timestamp_add_tag_list _ _ _ _ E1).
  destruct (rel_info r) as [info |].
  - bind_inv E. injection E as <-.
    destruct (info_visible info); cbn; rewrite factor, Z.mul_0_r; reflexivity.
  - injection E as <-. reflexivity.
Qed.

Lemma epoch_dense_step (d : DenseNodes) (i id_i : Z) (l l' : dense_locals) (e : Entity) :
  dense_step p d i id_i l = Ret (l', e) -> at_epoch e.
Proof.
  unfold dense_step, at_epoch. intros H.
  bind_inv H. bind_inv H. bind_inv H.
  destruct a1 as [[[[cs ts] uid] usid] vis].
  bind_inv H. bind_inv H. destruct a2 as [tl c']. injection H as <- <-.
  cbn [object_of].
  destruct (dense_denseinfo d) as [di |].
  - bind_inv E2. bind_inv E2. injection E2 as <-.
    cbn. rewrite factor, Z.mul_0_r. reflexivity.
  - injection E2 as <-. reflexivity.
Qed.

End Timestamps.

Section TimestampClaim.
Import OSMPBF PBFPrimitiveBlockParser.

(** X13: the timestamps of a block are multiplied by
    [date_granularity / 1000], an integer division.  A block whose date
    granularity is below 1000 milliseconds loses its timestamps: every
    entity read from it has the timestamp 0. *)
Theorem timestamps_vanish (ext : Externals) (data : string) (block : PrimitiveBlock)
        (which : flags) (b : Buffer) :
  parse_PrimitiveBlock ext data = Some block ->
  -1000 < date_granularity block < 1000 ->
  run ext data which = Ret b ->
  Forall at_epoch b.
Proof.
  unfold run. intros -> G H.
  assert (F : Z.quot (date_granularity block) 1000 = 0) by (apply Z.quot_small_iff; lia).
  revert H. apply parse_groups_Forall.
  - apply epoch_parse_node, F.
  - apply epoch_parse_way, F.
  - apply epoch_parse_relation, F.
  - apply epoch_dense_step, F.
  - constructor.
Qed.

End TimestampClaim.

Section PlainObjects.
Import OSMPBF PBFPrimitiveBlockParser.

Variable p : PBFPrimitiveBlockParser.t.

Lemma add_tags_nil (o : Object.t) : Object.add_tags [] o = o.
Proof. unfold Object.add_tags. rewrite app_nil_r. destruct o; reflexivity. Qed.

Lemma add_tag_list_tags (keys vals : list Z) (o : Object.t) :
  tags_ok p keys vals = true ->
  add_tag_list p keys vals o = Ret (Object.add_tags (plain_tags p keys vals) o).
Proof.
  unfold tags_ok, add_tag_list, plain_tags, size. intros H. bools.
  apply Nat.leb_le in H1.
  destruct keys as [| k keys].
  - cbn. rewrite add_tags_nil. reflexivity.
  - replace (0 <? Z.of_nat (List.length (k :: keys))) with true
      by (symmetry; apply Z.ltb_lt; cbn [List.length]; lia).
    pose proof (tag_loop_ok p (k :: keys) vals 0) as E.
    change (Z.of_nat 0) with 0 in E.
    rewrite E by (assumption || lia). reflexivity.
Qed.

Lemma get_outcome {A : Type} (l : list A) (i : Z) :
  (exists a, get l i = Ret a) \/ get l i = Abort "index out of range".
Proof.
  unfold get. destruct (i <? 0); [right; reflexivity |].
  destruct (nth_error l (Z.to_nat i)); [left; eauto | right; reflexivity].
Qed.

Lemma get_beyond {A : Type} (l : list A) (i : nat) :
  (List.length l <= i)%nat -> get l (Z.of_nat i) = Abort "index out of range".
Proof.
  intros H. rewrite get_nth_error, (proj2 (nth_error_None l i) H). reflexivity.
Qed.

Lemma s_outcome (index : Z) :
  (exists a, s p index = Ret a) \/ s p index = Abort "index out of range".
Proof. apply get_outcome. Qed.

Lemma member_loop_short (memids roles_sid : list Z) (types : list MemberType) :
  forall (i : nat) (ref : Z),
    (i <= List.length memids < i + List.length types)%nat ->
    member_loop p types memids roles_sid (Z.of_nat i) ref = Abort "index out of range".
Proof.
  induction types as [| mt types IH]; intros i ref H; cbn [List.length] in H; [lia |].
  cbn [member_loop].
  destruct (Nat.eq_dec i (List.length memids)) as [-> | N].
  { rewrite get_beyond by lia. reflexivity. }
  destruct (get_outcome memids (Z.of_nat i)) as [[memid ->] | ->]; [| reflexivity].
  cbn [bind].
  destruct (get_outcome roles_sid (Z.of_nat i)) as [[sid ->] | ->]; [| reflexivity].
  cbn [bind].
  destruct (s_outcome sid) as [[role ->] | ->]; [| reflexivity].
  cbn [bind].
  replace (Z.of_nat i + 1) with (Z.of_nat (S i)) by lia.
  rewrite IH by lia. reflexivity.
Qed.

(** X14: a plain node whose string indexes are in the table is read as a
    node with the id of the message, the user name and the resolved tags
    of the message; it is visible unless its [Info] says otherwise, also
    without [Info]; and it has a location exactly when it is visible: a
    deleted node keeps the undefined location. *)
Theorem plain_node_decoded (n : Node) :
  info_ok p (node_info n) = true ->
  tags_ok p (node_keys n) (node_vals n) = true ->
  exists o,
    parse_node p n
    = Ret (NodeItem o (if info_says_visible (node_info n)
                       then Some (location p (node_lon n) (node_lat n))
                       else None))
    /\ Object.m_id o = Int.to_int64 (node_id n)
    /\ Object.visible o = info_says_visible (node_info n)
    /\ Object.user o = info_user p (node_info n)
    /\ Object.tags o = plain_tags p (node_keys n) (node_vals n).
Proof.
  intros Hi Ht. unfold parse_node, info_says_visible, info_user.
  destruct (node_info n) as [info |]; cbn in Hi; cbv zeta.
  - rewrite (s_in_table _ _ Hi). cbn [bind].
    rewrite add_tag_list_tags by exact Ht. cbn [bind].
    destruct (info_visible info) as [[|] |];
      eexists; (split; [| split; [| split; [| split]]]); reflexivity.
  - cbn [bind]. rewrite add_tag_list_tags by exact Ht. cbn [bind].
    eexists. split; [| split; [| split; [| split]]]; reflexivity.
Qed.

Lemma firstn_seq_le (n m a : nat) : (n <= m)%nat -> firstn n (seq a m) = seq a n.
Proof.
  revert m a. induction n as [| n IH]; intros m a H; [reflexivity |].
  destruct m as [| m]; [lia |]. cbn [seq firstn]. rewrite IH by lia. reflexivity.
Qed.

(** X15: the members of a relation are read from three parallel arrays
    over the length of [types]: the kind from [types], the reference as the
    running sum of [memids] in 64 bits, the role from the string table.
    When [memids] is shorter than [types] the decoder reads beyond the
    end of [memids]. *)
Theorem relation_members_decoded (r : Relation) :
  (relation_ok p r = true ->
   exists o,
     parse_relation p r
     = Ret (RelationItem o
              (combine (combine (map osmpbf_membertype_to_item_type (rel_types r))
                                (firstn (List.length (rel_types r))
                                        (running_sums (rel_memids r))))
                       (map (table_string p)
                            (firstn (List.length (rel_types r)) (rel_roles_sid r))))))
  /\ ((List.length (rel_memids r) < List.length (rel_types r))%nat ->
      parse_relation p r = Abort "index out of range").
Proof.
  split.
  - intros H. destruct (parse_relation_ok p r H) as [o [ms [E [R [K S]]]]].
    exists o. rewrite E. do 2 f_equal.
    unfold relation_ok in H. bools. apply Nat.leb_le in H1, H2.
    assert (L : List.length ms = List.length (rel_types r)).
    { rewrite <- (length_map (fun m => fst (fst m)) ms), K, length_map. reflexivity. }
    rewrite <- K, <- S.
    replace (firstn (List.length (rel_types r)) (running_sums (rel_memids r)))
      with (map (fun m : item_type * Z * string => snd (fst m)) ms).
    + clear. induction ms as [| [[k i] role] ms IH]; [reflexivity |].
      cbn [map combine fst snd]. rewrite <- IH. reflexivity.
    + rewrite R. unfold running_sums. rewrite firstn_map, firstn_seq_le by lia.
      reflexivity.
  - intros H. unfold parse_relation.
    assert (M : member_loop p (rel_types r) (rel_memids r) (rel_roles_sid r) 0 0
                = Abort "index out of range")
      by (apply (member_loop_short _ _ _ 0%nat); lia).
    destruct (rel_info r) as [info |]; cbv zeta.
    + destruct (s_outcome (info_user_sid info)) as [[u ->] | ->]; [| reflexivity].
      cbn [bind]. rewrite M. reflexivity.
    + cbn [bind]. rewrite M. reflexivity.
Qed.

End PlainObjects.

Section PlainObjectExamples.
Import OSMPBF PBFPrimitiveBlockParser.

(** The deleted node of the sample block. *)
Lemma plain_node_decoded_witness :
  info_ok Sample.parser (node_info Sample.deleted_node) = true
  /\ tags_ok Sample.parser (node_keys Sample.deleted_node)
             (node_vals Sample.deleted_node) = true
  /\ exists o, parse_node Sample.parser Sample.deleted_node = Ret (NodeItem o None)
               /\ Object.tags o = [("highway", "residential")]%string
               /\ Object.user o = "alice"%string.
Proof.
  split; [reflexivity |]. split; [reflexivity |].
  destruct (plain_node_decoded Sample.parser Sample.deleted_node eq_refl eq_refl)
    as [o [E [_ [_ [U T]]]]].
  exists o. split; [exact E |]. split; [exact T | exact U].
Defined.

(** The relation with the members node 5, way 15 and relation 12; and a
    relation with two types and one member id. *)
Lemma relation_members_decoded_witness :
  relation_ok Sample.parser Scenario.relation_mixed = true
  /\ (exists o, parse_relation Sample.parser Scenario.relation_mixed
                = Ret (RelationItem o [(item_node, 5, "residential"%string);
                                       (item_way, 15, "alice"%string);
                                       (item_relation, 12, "residential"%string)]))
  /\ parse_relation Sample.parser Sample.short_relation = Abort "index out of range".
Proof.
  split; [reflexivity |]. split.
  - exact (proj1 (relation_members_decoded Sample.parser Scenario.relation_mixed) eq_refl).
  - apply (proj2 (relation_members_decoded Sample.parser Sample.short_relation)).
    cbn. lia.
Defined.

(** The sample block read for ways only; read for all kinds it gives a
    node, a way and a relation. *)
Lemma read_types_are_a_filter_witness :
  exists n w r, run Sample.ext "" all_types = Ret [n; w; r]
                /\ kind_of w = item_way
                /\ run Sample.ext "" Sample.ways_only = Ret [w].
Proof.
  pose (b := match run Sample.ext "" all_types with Ret b => b | _ => [] end).
  vm_compute in b.
  assert (E : run Sample.ext "" all_types = Ret b) by (vm_compute; reflexivity).
  pose proof (proj2 (read_types_are_a_filter Sample.ext "" Sample.ways_only b) E) as F.
  do 3 eexists. split; [exact E |]. split; [reflexivity | exact F].
Defined.


(** The node of the sample block has the timestamp 1700000000000 in its
    [Info]; the date granularity of the block is 1. *)
Lemma timestamps_vanish_witness :
  parse_PrimitiveBlock Sample.ext "" = Some Sample.block
  /\ -1000 < date_granularity Sample.block < 1000
  /\ info_timestamp Sample.deleted_info = 1700000000000
  /\ exists b, run Sample.ext "" all_types = Ret b /\ Forall at_epoch b.
Proof.
  split; [reflexivity |]. split; [cbn; lia |]. split; [reflexivity |].
  eexists. split; [vm_compute; reflexivity |].
  apply (timestamps_vanish Sample.ext "" Sample.block all_types); [reflexivity | cbn; lia |].
  vm_compute. reflexivity.
Defined.

End PlainObjectExamples.

(** ** The input queue reader *)

Section Strings.

Lemma string_length_append (a b : string) :
  String.length (a ++ b) = (String.length a + String.length b)%nat.
Proof. induction a as [| c a IH]; cbn; [reflexivity | rewrite IH; reflexivity]. Qed.

Lemma string_append_assoc (a b c : string) : ((a ++ b) ++ c = a ++ (b ++ c))%string.
Proof. induction a as [| x a IH]; cbn; [reflexivity | rewrite IH; reflexivity]. Qed.

Lemma string_append_nil_r (a : string) : (a ++ "" = a)%string.
Proof. induction a as [| x a IH]; cbn; [reflexivity | rewrite IH; reflexivity]. Qed.

Lemma substring_0_append (a b : string) (n : nat) :
  (n <= String.length a)%nat -> substring 0 n (a ++ b) = substring 0 n a.
Proof.
  revert n. induction a as [| x a IH]; intros n H; cbn in *.
  - replace n with 0%nat by lia. destruct b; reflexivity.
  - destruct n as [| n]; [reflexivity |]. rewrite IH by lia. reflexivity.
Qed.

Lemma substring_drop_append (a b : string) (n : nat) :
  (n <= String.length a)%nat ->
  substring n (String.length (a ++ b) - n) (a ++ b)
  = (substring n (String.length a - n) a ++ b)%string.
Proof.
  revert n. induction a as [| x a IH]; intros n H; cbn [String.length append] in *.
  - replace n with 0%nat by lia. rewrite Nat.sub_0_r.
    clear. induction b as [| y b IH]; [reflexivity |].
    cbn [String.length substring]. rewrite IH. reflexivity.
  - destruct n as [| n].
    + cbn [substring Nat.sub append]. f_equal.
      specialize (IH 0%nat ltac:(lia)). rewrite !Nat.sub_0_r in IH. exact IH.
    + cbn [substring Nat.sub]. apply IH. lia.
Qed.

Lemma substring_whole (a : string) : substring 0 (String.length a) a = a.
Proof. induction a as [| x a IH]; cbn; [reflexivity | rewrite IH; reflexivity]. Qed.

Lemma substring_none (a : string) : substring (String.length a) 0 a = EmptyString.
Proof. induction a as [| x a IH]; cbn; [reflexivity | exact IH]. Qed.

(** The first bytes of a string and what follows them. *)
Lemma substring_prefix (pre rest : string) :
  substring 0 (String.length pre) (pre ++ rest) = pre.
Proof. rewrite substring_0_append by lia. apply substring_whole. Qed.

Lemma substring_suffix (pre rest : string) :
  substring (String.length pre) (String.length (pre ++ rest) - String.length pre)
            (pre ++ rest)
  = rest.
Proof.
  rewrite substring_drop_append by lia. rewrite Nat.sub_diag, substring_none. reflexivity.
Qed.

End Strings.

Section Reader.
Import InputQueueReader.

Lemma fill_stream (queue : list string) :
  forall (buffer : string) (n : nat),
    ends queue = true ->
    (n <= String.length (buffer ++ pending queue) ->
     exists queue' buffer',
       fill queue buffer n = Ret (true, queue', buffer')
       /\ (buffer' ++ pending queue' = buffer ++ pending queue)%string
       /\ (n <= String.length buffer')%nat
       /\ ends queue' = true)%nat
    /\ (String.length (buffer ++ pending queue) < n ->
        exists queue',
          fill queue buffer n = Ret (false, queue', (buffer ++ pending queue)%string))%nat.
Proof.
  induction queue as [| chunk queue IH]; intros buffer n E; [discriminate |].
  cbn [ends pending] in *.
  destruct (Nat.leb_spec n (String.length buffer)) as [L | L].
  - split; intros H.
    + exists (chunk :: queue), buffer. cbn [fill pending].
      replace (Nat.leb n (String.length buffer)) with true
        by (symmetry; apply Nat.leb_le; exact L).
      repeat split; [exact L | exact E].
    + rewrite string_length_append in H. lia.
  - cbn [fill]. replace (Nat.leb n (String.length buffer)) with false
      by (symmetry; apply Nat.leb_gt; exact L).
    destruct (Nat.eqb (String.length chunk) 0) eqn:C.
    + rewrite string_append_nil_r. split; intros H; [lia |].
      exists queue. reflexivity.
    + cbn [orb] in E. destruct (IH (buffer ++ chunk)%string n E) as [A B].
      rewrite string_append_assoc in A, B. split; intros H.
      * destruct (A H) as [queue' [buffer' [F [S [N E']]]]].
        exists queue', buffer'. repeat split; assumption.
      * destruct (B H) as [queue' F]. exists queue'. exact F.
Qed.

(** X16: the reader delivers the bytes of the input in order, however the
    input is cut into chunks.  On an input that ends, a call for [size]
    bytes returns the next [size] bytes of the stream and leaves the rest
    of the stream to the following calls; when fewer bytes are left it
    returns false, and the bytes that were left stay in its buffer. *)
Theorem reader_delivers_the_stream (r : InputQueueReader.t) (size : Z) :
  ends (m_queue r) = true ->
  ((Z.to_nat size <= String.length (stream r))%nat ->
   exists r',
     call r size = Ret (Some (substring 0 (Z.to_nat size) (stream r)), r')
     /\ stream r' = substring (Z.to_nat size) (String.length (stream r) - Z.to_nat size)
                              (stream r)
     /\ ends (m_queue r') = true)
  /\ ((String.length (stream r) < Z.to_nat size)%nat ->
      exists r', call r size = Ret (None, r') /\ m_buffer r' = stream r).
Proof.
  intros E. unfold stream, call.
  destruct (fill_stream (m_queue r) (m_buffer r) (Z.to_nat size) E) as [A B].
  split; intros H.
  - destruct (A H) as [queue' [buffer' [F [S [N E']]]]].
    rewrite F. cbn [bind]. eexists. split; [| split].
    + rewrite <- S, substring_0_append by exact N. reflexivity.
    + cbn [m_buffer m_queue]. rewrite <- S.
      rewrite substring_drop_append by exact N. reflexivity.
    + exact E'.
  - destruct (B H) as [queue' F]. rewrite F. cbn [bind].
    eexists. split; reflexivity.
Qed.

(** Five bytes asked of an input of three chunks. *)
Lemma reader_delivers_the_stream_witness :
  ends ["ab"; "cde"; "fg"; ""]%string = true
  /\ exists r',
      call {| m_queue := ["ab"; "cde"; "fg"; ""]%string; m_buffer := "" |} 5
      = Ret (Some "abcde"%string, r')
      /\ stream r' = "fg"%string.
Proof.
  split; [reflexivity |].
  destruct (proj1 (reader_delivers_the_stream
                     {| m_queue := ["ab"; "cde"; "fg"; ""]%string; m_buffer := "" |} 5
                     eq_refl) ltac:(cbn; lia)) as [r' [C [S _]]].
  exists r'. split; [exact C | exact S].
Defined.

End Reader.

(** ** Frames *)

Section Frames.
Import OSMPBF InputQueueReader PBFInputFormat.

Lemma call_prefix (r : InputQueueReader.t) (pre rest : string) :
  ends (m_queue r) = true -> stream r = (pre ++ rest)%string ->
  exists r',
    call r (Z.of_nat (String.length pre)) = Ret (Some pre, r')
    /\ stream r' = rest /\ ends (m_queue r') = true.
Proof.
  intros E S. unfold stream in S. unfold call. rewrite Nat2Z.id.
  destruct (fill_stream (m_queue r) (m_buffer r) (String.length pre) E) as [A _].
  rewrite S, string_length_append in A.
  destruct (A ltac:(lia)) as [queue' [buffer' [F [S' [N E']]]]].
  rewrite F. cbn [bind]. eexists. split.
  - rewrite <- (substring_0_append buffer' (pending queue')) by exact N.
    rewrite S', substring_prefix. reflexivity.
  - split; [| exact E']. unfold stream. cbn [m_buffer m_queue].
    rewrite <- (substring_drop_append buffer' (pending queue')) by exact N.
    rewrite S'. apply substring_suffix.
Qed.

Lemma call_at_end (r : InputQueueReader.t) (size : Z) :
  ends (m_queue r) = true -> (String.length (stream r) < Z.to_nat size)%nat ->
  exists r', call r size = Ret (None, r').
Proof.
  intros E L. unfold call.
  destruct (fill_stream (m_queue r) (m_buffer r) (Z.to_nat size) E) as [_ B].
  destruct (B L) as [queue' F]. rewrite F. cbn [bind]. eexists. reflexivity.
Qed.

Lemma byte_value_of (k : Z) : 0 <= k < 256 -> byte_value (ascii_of_N (Z.to_N k)) = k.
Proof.
  intros H. unfold byte_value. rewrite N_ascii_embedding by lia. lia.
Qed.

Lemma ntohl_length_prefix (n : Z) :
  0 <= n < 4294967296 -> ntohl (Scenario.length_prefix n) = n.
Proof.
  intros H. unfold ntohl, Scenario.length_prefix. cbn [ntohl_from].
  rewrite !byte_value_of by (apply Z.mod_pos_bound; lia).
  divmod.
Qed.

Lemma length_prefix_length (n : Z) : String.length (Scenario.length_prefix n) = 4%nat.
Proof. reflexivity. Qed.

Variable ext : Externals.

(** Reading the blob header of a frame. *)
Lemma read_frame_header (expected_type : string) (f : PBFInputFormat.t) (fr : frame)
      (rest : string) :
  ends (m_queue (m_input_queue_reader f)) = true ->
  stream (m_input_queue_reader f) = (frame_bytes fr ++ rest)%string ->
  framed ext expected_type fr = true ->
  exists f',
    read_blob_header ext expected_type f
    = Ret (Z.of_nat (String.length (frame_blob fr)), f')
    /\ stream (m_input_queue_reader f') = (frame_blob fr ++ rest)%string
    /\ ends (m_queue (m_input_queue_reader f')) = true
    /\ m_read_which_entities f' = m_read_which_entities f
    /\ m_header f' = m_header f.
Proof.
  intros E S F. unfold framed in F.
  apply andb_prop in F. destruct F as [F F'].
  apply andb_prop in F. destruct F as [H H0]. apply Z.leb_le in H, H0.
  destruct (parse_BlobHeader ext (frame_header fr)) as [h |] eqn:P; [| discriminate].
  apply andb_prop in F'. destruct F' as [H1 H2].
  apply String.eqb_eq in H1. apply Z.eqb_eq in H2.
  unfold max_blob_header_size in H.
  unfold frame_bytes in S. rewrite !string_append_assoc in S.
  destruct (call_prefix _ _ _ E S) as [r1 [C1 [S1 E1]]].
  rewrite length_prefix_length in C1. change (Z.of_nat 4) with 4 in C1.
  destruct (call_prefix _ _ _ E1 S1) as [r2 [C2 [S2 E2]]].
  unfold read_blob_header. rewrite C1. cbn [bind].
  rewrite ntohl_length_prefix by lia.
  replace (Int.to_uint32 max_blob_header_size <? Z.of_nat (String.length (frame_header fr)))
    with false by (symmetry; apply Z.ltb_ge; vm_compute (Int.to_uint32 _); lia).
  rewrite C2. cbn [bind]. rewrite P, H1, String.eqb_refl. cbn [negb].
  eexists. split.
  - rewrite H2. do 2 f_equal. unfold Int.to_uint64, Int.to_unsigned.
    apply Z.mod_small. unfold max_uncompressed_blob_size in H0.
    change (2 ^ 64) with 18446744073709551616. lia.
  - cbn [m_input_queue_reader m_read_which_entities m_header].
    repeat split; assumption.
Qed.

(** Reading the blob of a frame. *)
Lemma read_frame_blob (blob rest : string) (blob_num : Z) (r : InputQueueReader.t) :
  ends (m_queue r) = true -> stream r = (blob ++ rest)%string ->
  Z.of_nat (String.length blob) <= max_uncompressed_blob_size ->
  exists r',
    BlobParser.make (Int.to_int32 (Z.of_nat (String.length blob))) blob_num r
    = Ret (holding blob blob_num, r')
    /\ stream r' = rest /\ ends (m_queue r') = true.
Proof.
  intros E S H. unfold max_uncompressed_blob_size in H.
  rewrite to_int32_small
    by (unfold Int.in_int32, Int.int32_min, Int.int32_max;
        change (2 ^ 31) with 2147483648; lia).
  destruct (call_prefix _ _ _ E S) as [r' [C [S' E']]].
  unfold BlobParser.make.
  replace (Z.of_nat (String.length blob) <? 0) with false
    by (symmetry; apply Z.ltb_ge; lia).
  replace (max_uncompressed_blob_size <? Z.of_nat (String.length blob)) with false
    by (symmetry; apply Z.ltb_ge; unfold max_uncompressed_blob_size; lia).
  cbn [orb]. rewrite C. cbn [bind]. exists r'. repeat split; assumption.
Qed.

Lemma header_at_end (expected_type : string) (f : PBFInputFormat.t) :
  ends (m_queue (m_input_queue_reader f)) = true ->
  (String.length (stream (m_input_queue_reader f)) < 4)%nat ->
  exists f', read_blob_header ext expected_type f = Ret (0, f').
Proof.
  intros E L. destruct (call_at_end _ 4 E L) as [r' C].
  unfold read_blob_header. rewrite C. cbn [bind]. eexists. reflexivity.
Qed.

(** X17: a frame is read exactly.  On an input that begins with a frame
    within the caps whose blob header has the expected type and announces
    the size of the blob, [read_blob_header] returns that size and the
    constructor of the blob parser takes the bytes of the blob; the input
    is left at the first byte after the frame. *)
Theorem frame_is_read_exactly (expected_type : string) (f : PBFInputFormat.t)
        (fr : frame) (rest : string) (blob_num : Z) :
  ends (m_queue (m_input_queue_reader f)) = true ->
  stream (m_input_queue_reader f) = (frame_bytes fr ++ rest)%string ->
  framed ext expected_type fr = true ->
  exists f' r',
    read_blob_header ext expected_type f
    = Ret (Z.of_nat (String.length (frame_blob fr)), f')
    /\ BlobParser.make (Int.to_int32 (Z.of_nat (String.length (frame_blob fr)))) blob_num
                       (m_input_queue_reader f')
       = Ret (holding (frame_blob fr) blob_num, r')
    /\ stream r' = rest
    /\ ends (m_queue r') = true.
Proof.
  intros E S F.
  destruct (read_frame_header expected_type f fr rest E S F) as [f' [R [S' [E' _]]]].
  assert (B : Z.of_nat (String.length (frame_blob fr)) <= max_uncompressed_blob_size).
  { unfold framed in F. apply andb_prop in F. destruct F as [F _].
    apply andb_prop in F. destruct F as [_ F]. apply Z.leb_le, F. }
  destruct (read_frame_blob (frame_blob fr) rest blob_num _ E' S' B) as [r' [M [S2 E2]]].
  exists f', r'. repeat split; assumption.
Qed.

(** X18: an input that ends within a frame.  When the input ends within
    a blob header [read_blob_header] throws "Read error."; when it ends
    within a blob the constructor of the blob parser throws
    "read error (EOF)"; when it ends within the four bytes of the length,
    after one to three bytes, [read_blob_header] returns 0 as at the end
    of the input. *)
Theorem input_ends_within_a_frame (expected_type : string) (f : PBFInputFormat.t) :
  ends (m_queue (m_input_queue_reader f)) = true ->
  (forall size part,
      stream (m_input_queue_reader f) = (Scenario.length_prefix size ++ part)%string ->
      Z.of_nat (String.length part) < size <= max_blob_header_size ->
      read_blob_header ext expected_type f = Throw "Read error.")
  /\ (forall size blob_num,
         Z.of_nat (String.length (stream (m_input_queue_reader f))) < size
         <= max_uncompressed_blob_size ->
         BlobParser.make size blob_num (m_input_queue_reader f) = Throw "read error (EOF)")
  /\ ((String.length (stream (m_input_queue_reader f)) < 4)%nat ->
      exists f', read_blob_header ext expected_type f = Ret (0, f')).
Proof.
  intros E. split; [| split].
  - intros size part S H. unfold max_blob_header_size in H.
    destruct (call_prefix _ _ _ E S) as [r1 [C1 [S1 E1]]].
    rewrite length_prefix_length in C1. change (Z.of_nat 4) with 4 in C1.
    destruct (call_at_end r1 size E1 ltac:(rewrite S1; lia)) as [r2 C2].
    unfold read_blob_header. rewrite C1. cbn [bind].
    rewrite ntohl_length_prefix by lia.
    replace (Int.to_uint32 max_blob_header_size <? size)
      with false by (symmetry; apply Z.ltb_ge; vm_compute (Int.to_uint32 _); lia).
    rewrite C2. reflexivity.
  - intros size blob_num H.
    destruct (call_at_end _ size E ltac:(lia)) as [r' C].
    unfold BlobParser.make.
    replace (size <? 0) with false by (symmetry; apply Z.ltb_ge; lia).
    replace (max_uncompressed_blob_size <? size) with false
      by (symmetry; apply Z.ltb_ge; lia).
    cbn [orb]. rewrite C. reflexivity.
  - apply header_at_end, E.
Qed.

End Frames.

Section DataBlobs.
Import OSMPBF InputQueueReader PBFInputFormat.

Variable ext : Externals.
Variable read_types : flags.

Lemma stream_with_reader (f : PBFInputFormat.t) (r : InputQueueReader.t) :
  m_input_queue_reader (with_reader f r) = r.
Proof. reflexivity. Qed.

Lemma parse_osm_data_turn (fuel : nat) (n : Z) (f : PBFInputFormat.t)
      (m_queue : list (outcome Buffer)) :
  parse_osm_data ext read_types (S fuel) n f m_queue
  = match read_blob_header ext "OSMData" f with
    | Ret (size, f) =>
      if size =? 0 then Some (Ret (m_queue, f))
      else
        match DataBlobParser.make (Int.to_int32 size) n (m_input_queue_reader f) with
        | Ret (data_blob_parser, r) =>
          let m_queue := m_queue ++ [DataBlobParser.call ext read_types data_blob_parser] in
          let m_done := destroyed ext n in
          if m_done then Some (Ret (skipn (consumed ext n) m_queue, with_reader f r))
          else if negb (pool_drains ext n) then Some Blocked
          else
            let m_queue := skipn (consumed ext n) m_queue in
            if m_max_buffer_queue_size <? Z.of_nat (List.length m_queue) then Some Blocked
            else
              parse_osm_data ext read_types fuel (Int.to_int32 (n + 1)) (with_reader f r)
                             m_queue
        | Throw what => Some (Throw what)
        | Abort what => Some (Abort what)
        | Blocked => Some Blocked
        end
    | Throw what => Some (Throw what)
    | Abort what => Some (Abort what)
    | Blocked => Some Blocked
    end.
Proof. reflexivity. Qed.





(** X19: the reading of the data blobs ends without an error when one to
    three bytes are left of the input, and at a blob header that announces
    no data, whatever follows it in the input. *)
Theorem reading_ends_quietly (f : PBFInputFormat.t) (n : Z) (fuel : nat)
        (m_queue : list (outcome Buffer)) :
  ends (InputQueueReader.m_queue (m_input_queue_reader f)) = true ->
  ((String.length (stream (m_input_queue_reader f)) < 4)%nat ->
   exists f', parse_osm_data ext read_types (S fuel) n f m_queue = Some (Ret (m_queue, f')))
  /\ (forall fr rest,
         stream (m_input_queue_reader f) = (frame_bytes fr ++ rest)%string ->
         framed ext "OSMData" fr = true ->
         frame_blob fr = EmptyString ->
         exists f',
           parse_osm_data ext read_types (S fuel) n f m_queue = Some (Ret (m_queue, f'))
           /\ stream (m_input_queue_reader f') = rest).
Proof.
  intros E. split.
  - intros L. destruct (header_at_end ext "OSMData" f E L) as [f' R].
    rewrite parse_osm_data_turn, R. exists f'. reflexivity.
  - intros fr rest S F B.
    destruct (read_frame_header ext "OSMData" f fr rest E S F) as [f' [R [S' _]]].
    rewrite B in R, S'. cbn [String.length Z.of_nat append] in R, S'.
    rewrite parse_osm_data_turn, R. exists f'. split; [reflexivity | exact S'].
Qed.

End DataBlobs.

Section FrameExamples.
Import OSMPBF InputQueueReader PBFInputFormat.

(** A frame with a blob header of 16 bytes, and bytes after it. *)
Lemma frame_is_read_exactly_witness :
  ends DataSample.header_input = true
  /\ framed Scenario.ext "OSMHeader" DataSample.header_frame = true
  /\ exists f' r',
      read_blob_header Scenario.ext "OSMHeader"
                       (PBFInputFormat.make Scenario.all DataSample.header_input)
      = Ret (1, f')
      /\ BlobParser.make 1 0 (m_input_queue_reader f') = Ret (holding "r" 0, r')
      /\ stream r' = "after"%string.
Proof.
  split; [reflexivity |]. split; [reflexivity |].
  destruct (frame_is_read_exactly
              Scenario.ext "OSMHeader"
              (PBFInputFormat.make Scenario.all DataSample.header_input)
              DataSample.header_frame "after" 0 eq_refl eq_refl eq_refl)
    as [f' [r' [R [M [S _]]]]].
  exists f', r'. repeat split; assumption.
Defined.

(** An input that ends within a blob header of two bytes. *)
Lemma input_ends_within_a_frame_witness :
  ends DataSample.truncated_input = true
  /\ read_blob_header (DataSample.ext 1) "OSMData"
                      (PBFInputFormat.make Scenario.all DataSample.truncated_input)
     = Throw "Read error.".
Proof.
  split; [reflexivity |].
  apply (proj1 (input_ends_within_a_frame
                  (DataSample.ext 1) "OSMData"
                  (PBFInputFormat.make Scenario.all DataSample.truncated_input)
                  eq_refl) 2 "h"%string); [reflexivity | cbn; lia].
Defined.

(** A blob header that announces no data, and a frame after it. *)
Lemma reading_ends_quietly_witness :
  framed (DataSample.ext 0) "OSMData" DataSample.empty_frame = true
  /\ exists f',
      parse_osm_data (DataSample.ext 0) Scenario.all 1 0
                     (PBFInputFormat.make
                        Scenario.all
                        [(frame_bytes DataSample.empty_frame
                          ++ frames_bytes DataSample.frames)%string; ""%string]) []
      = Some (Ret ([], f'))
      /\ stream (m_input_queue_reader f') = frames_bytes DataSample.frames.
Proof.
  split; [reflexivity |].
  apply (proj2 (reading_ends_quietly
                  (DataSample.ext 0) Scenario.all
                  (PBFInputFormat.make
                     Scenario.all
                     [(frame_bytes DataSample.empty_frame
                       ++ frames_bytes DataSample.frames)%string; ""%string])
                  0 0 [] eq_refl) DataSample.empty_frame (frames_bytes DataSample.frames));
    reflexivity.
Defined.

End FrameExamples.

(** ** The whole file *)

Section File.
Import OSMPBF InputQueueReader PBFInputFormat.

Variable ext : Externals.


End File.

Section FileExample.
Import OSMPBF InputQueueReader PBFInputFormat.


End FileExample.

(** ** The geometry factory *)

Section Geometry.
Import GeometryFactory.

Variable L : Type.
Variable neq : L -> L -> bool.
Variable defined : L -> bool.
Variable undefined : L.


Lemma unique_backward_forward (wnl : list (WayNode L)) (k : nat) :
  forall last_location added,
    (k <= List.length wnl)%nat ->
    unique_backward L neq defined wnl k last_location added
    = unique_forward L neq defined (rev (firstn k wnl)) last_location added.
Proof.
  induction k as [| i IH]; intros last_location added H; [reflexivity |].
  destruct (nth_error_lt wnl i ltac:(lia)) as [wn E].
  rewrite (firstn_S_snoc _ _ _ E), rev_app_distr.
  cbn [unique_backward rev app unique_forward].
  rewrite (get_some _ _ _ E). cbn [bind].
  destruct (unique_turn L neq defined last_location added wn) as [[l a] | | |];
    cbn [bind]; try reflexivity.
  apply IH. lia.
Qed.

Lemma every_backward_forward (wnl : list (WayNode L)) (k : nat) :
  forall added,
    (k <= List.length wnl)%nat ->
    every_backward L defined wnl k added = every_forward L defined (rev (firstn k wnl)) added.
Proof.
  induction k as [| i IH]; intros added H; [reflexivity |].
  destruct (nth_error_lt wnl i ltac:(lia)) as [wn E].
  rewrite (firstn_S_snoc _ _ _ E), rev_app_distr.
  cbn [every_backward rev app every_forward].
  rewrite (get_some _ _ _ E). cbn [bind].
  destruct (every_turn L defined added wn) as [a | | |]; cbn [bind]; try reflexivity.
  apply IH. lia.
Qed.

(** X21: with [reverse] the factory gives the linestring of the way read
    backwards, or fails as it does on the way read backwards, whether
    repeated locations are left out or not. *)
Theorem reversed_linestring (wnl : list (WayNode L)) (unique : bool) :
  create_linestring L neq defined undefined wnl unique true = create_linestring L neq defined undefined (rev wnl) unique false.
Proof.
  unfold create_linestring. destruct unique.
  - rewrite unique_backward_forward by apply Nat.le_refl.
    rewrite firstn_all. reflexivity.
  - rewrite every_backward_forward by apply Nat.le_refl.
    rewrite firstn_all. reflexivity.
Qed.

Lemma every_forward_all (wnl : list (WayNode L)) :
  forall added,
    every_forward L defined wnl added
    = if forallb defined (locations L wnl) then Ret (added ++ locations L wnl)
      else Throw "location is undefined".
Proof.
  induction wnl as [| wn wnl IH]; intros added.
  - cbn. rewrite app_nil_r. reflexivity.
  - cbn [every_forward locations map forallb].
    unfold every_turn. destruct (defined (location L wn)); cbn [bind andb]; [| reflexivity].
    rewrite IH. fold (locations L wnl).
    destruct (forallb defined (locations L wnl)); [| reflexivity].
    rewrite <- app_assoc. reflexivity.
Qed.

Hypothesis neq_spec : forall a b, neq a b = false <-> a = b.

Lemma squeeze_head (a : L) (l : list L) :
  exists t, squeeze L neq (a :: l) = a :: t.
Proof.
  revert a. induction l as [| b l IH]; intros a; [exists []; reflexivity |].
  cbn [squeeze]. destruct (neq a b) eqn:N.
  - eexists. reflexivity.
  - apply neq_spec in N. subst b. apply IH.
Qed.

Lemma squeeze_step (last a : L) (l : list L) :
  tl (squeeze L neq (last :: a :: l))
  = if neq last a then squeeze L neq (a :: l) else tl (squeeze L neq (a :: l)).
Proof.
  change (squeeze L neq (last :: a :: l))
    with (if neq last a then last :: squeeze L neq (a :: l) else squeeze L neq (a :: l)).
  destruct (neq last a); reflexivity.
Qed.

Lemma unique_forward_squeeze (wnl : list (WayNode L)) :
  forall last_location added,
    forallb defined (locations L wnl) = true ->
    unique_forward L neq defined wnl last_location added
    = Ret (added ++ tl (squeeze L neq (last_location :: locations L wnl))).
Proof.
  induction wnl as [| wn wnl IH]; intros last_location added D.
  - cbn. rewrite app_nil_r. reflexivity.
  - cbn [locations map forallb] in D. apply andb_prop in D. destruct D as [D1 D2].
    cbn [unique_forward locations map]. fold (locations L wnl).
    rewrite squeeze_step. unfold unique_turn.
    destruct (neq last_location (location L wn)) eqn:N.
    + rewrite D1. cbn [bind]. rewrite IH by exact D2.
      destruct (squeeze_head (location L wn) (locations L wnl)) as [t E].
      rewrite E. cbn [tl]. rewrite <- app_assoc. reflexivity.
    + cbn [bind]. rewrite IH by exact D2. apply neq_spec in N. rewrite N. reflexivity.
Qed.

Lemma squeeze_no_repeats (l : list L) : no_repeats L neq (squeeze L neq l) = true.
Proof.
  induction l as [| a l IH]; [reflexivity |].
  cbn [squeeze]. destruct l as [| b l]; [reflexivity |].
  destruct (neq a b) eqn:N; [| exact IH].
  destruct (squeeze_head b l) as [t E]. rewrite E in IH |- *.
  cbn [no_repeats] in IH |- *. rewrite N. exact IH.
Qed.

Hypothesis undefined_spec : defined undefined = false.

(** X22: for a way whose locations are all defined, the factory that
    leaves out repeated locations gives the locations of the way without
    those that repeat the one before them, so that no location of the
    linestring repeats the one before it; the factory that adds every
    location gives the locations of the way. *)
Theorem linestring_without_repeats (wnl : list (WayNode L)) :
  forallb defined (locations L wnl) = true ->
  create_linestring L neq defined undefined wnl true false
  = Ret (squeeze L neq (locations L wnl))
  /\ no_repeats L neq (squeeze L neq (locations L wnl)) = true
  /\ create_linestring L neq defined undefined wnl false false = Ret (locations L wnl).
Proof.
  intros D. split; [| split].
  - unfold create_linestring.
    rewrite unique_forward_squeeze by exact D. cbn [app]. f_equal.
    destruct wnl as [| wn wnl]; [reflexivity |].
    cbn [locations map forallb] in D |- *. apply andb_prop in D. destruct D as [D1 _].
    fold (locations L wnl). rewrite squeeze_step.
    destruct (neq undefined (location L wn)) eqn:N; [reflexivity |].
    apply neq_spec in N. rewrite <- N, undefined_spec in D1. discriminate.
  - apply squeeze_no_repeats.
  - unfold create_linestring. rewrite every_forward_all, D. reflexivity.
Qed.

(** X23: the factory that leaves out repeated locations does not see
    undefined locations at the start of a way: they repeat the location
    it starts from.  Such a way gives the linestring of the rest of the
    way, and a way none of whose nodes has a location gives the empty
    linestring; the factory that adds every location fails on both. *)
Theorem undefined_locations_at_the_start (refs : list Z) (wnl : list (WayNode L)) :
  let start := map (fun r => {| ref := r; location := undefined |}) refs in
  create_linestring L neq defined undefined (start ++ wnl) true false
  = create_linestring L neq defined undefined wnl true false
  /\ create_linestring L neq defined undefined start true false = Ret []
  /\ (refs <> [] ->
      create_linestring L neq defined undefined (start ++ wnl) false false
      = Throw "location is undefined").
Proof.
  cbv zeta.
  assert (N : neq undefined undefined = false) by (apply neq_spec; reflexivity).
  assert (S : forall wnl',
             unique_forward L neq defined
               (map (fun r => {| ref := r; location := undefined |}) refs ++ wnl')
               undefined []
             = unique_forward L neq defined wnl' undefined []).
  { intros wnl'. induction refs as [| r refs' IH]; [reflexivity |].
    cbn [map app unique_forward]. unfold unique_turn. cbn [location].
    rewrite N. cbn [bind]. exact IH. }
  split; [| split].
  - unfold create_linestring. apply S.
  - unfold create_linestring. rewrite <- (app_nil_r (map _ refs)), S. reflexivity.
  - intros R. destruct refs as [| r refs']; [contradiction |].
    unfold create_linestring. cbn [map app every_forward]. unfold every_turn.
    cbn [location]. rewrite undefined_spec. reflexivity.
Qed.

End Geometry.

Section GeometryExamples.
Import GeometryFactory GeometrySample.

Lemma sample_neq_spec (a b : Location.t) : neq a b = false <-> a = b.
Proof.
  unfold neq. destruct a as [ax ay], b as [bx b_y]. cbn [Location.x Location.y].
  rewrite negb_false_iff, andb_true_iff, !Z.eqb_eq. split.
  - intros [-> ->]. reflexivity.
  - intros H. injection H as -> ->. split; reflexivity.
Qed.

(** The sample way: its fifth node is where its fourth is. *)
Lemma linestring_without_repeats_witness :
  forallb defined (locations Location.t way) = true
  /\ create_linestring Location.t neq defined undefined way true false
     = Ret (locations Location.t [at_ 1 0 0; at_ 2 10 0; at_ 3 10 10; at_ 2 10 0]).
Proof.
  split; [reflexivity |].
  exact (proj1 (linestring_without_repeats Location.t neq defined undefined
                                           sample_neq_spec eq_refl way eq_refl)).
Defined.

(** A way none of whose three nodes has a location. *)
Lemma undefined_locations_at_the_start_witness :
  defined undefined = false
  /\ create_linestring Location.t neq defined undefined
                       [nowhere 1; nowhere 2; nowhere 3] true false
     = Ret []
  /\ create_linestring Location.t neq defined undefined
                       [nowhere 1; nowhere 2; nowhere 3] false false
     = Throw "location is undefined".
Proof.
  split; [reflexivity |].
  destruct (undefined_locations_at_the_start Location.t neq defined undefined
                                             sample_neq_spec eq_refl [1; 2; 3] [])
    as [_ [A B]].
  split; [exact A |]. rewrite <- (app_nil_r [nowhere 1; nowhere 2; nowhere 3]).
  apply B. discriminate.
Defined.

End GeometryExamples.
